(** * rstat: process tree from the output of [ps]

    A shallow embedding of [rstat.go] (package [rstat]) and of its later
    revision, together with the properties of the parser, the tree builder
    and the tree traversal.

    Data model.
    - A Go [string] is a byte sequence: [string] (a list of [ascii]).
    - A Go [int] is a 64-bit two's complement integer, embedded in [Z].
    - A [map[string]string] is a [gmap string string]; reading a missing key
      gives the zero value, the empty string.
    - A function returning [(T, error)] returns a [result T].
    - [*ProcNode] values are locations of a store of node objects. *)

From Stdlib Require Import ZArith Ascii String List Lia.
From stdpp Require Import base option list strings gmap.

Local Open Scope string_scope.
Local Open Scope list_scope.
Local Open Scope Z_scope.

(** ** Errors and results *)

(** The two sentinel errors of package [strconv]. *)
Inductive NumErr : Type :=
| ErrSyntax   (* "invalid syntax" *)
| ErrRange.   (* "value out of range" *)

(** One constructor for each place where the package creates an error; the
    arguments are the values formatted into the message. *)
Inductive error : Type :=
| HeaderError (header : list string)
    (* "Invalid header in 'ps' output: %q" *)
| RowShapeError (got want : nat) (fields : list string)
    (* "Invalid number of columns (%d instead of %d): %q" *)
| MissingFieldError (key : string)
    (* "Metric %q is not found or empty" *)
| NumberFormatError (key str : string) (e : NumErr)
    (* "Parsing metric %s %q: %s" *)
| NegativeValueError (key str : string)
    (* "Parsing metric %s %q: negative value" *)
| RootNotFoundError
    (* "Root process with pid 1 is not found" *)
| ExecutionError (msg : string).
    (* errors.New(cutErrPrefix(...)) in mapCmdError *)

Inductive result (A : Type) : Type :=
| Ok (a : A)
| Err (e : error).
Arguments Ok {A} a.
Arguments Err {A} e.

#[global] Instance result_ret : MRet result := fun A a => Ok a.

#[global] Instance result_bind : MBind result := fun A B k r =>
  match r with
  | Ok a => k a
  | Err e => Err e
  end.

#[global] Instance NumErr_eq_dec : EqDecision NumErr.
Proof. solve_decision. Defined.

#[global] Instance error_eq_dec : EqDecision error.
Proof. solve_decision. Defined.

#[global] Instance result_eq_dec {A} `{EqDecision A} : EqDecision (result A).
Proof. solve_decision. Defined.

Definition is_ok {A} (r : result A) : bool :=
  match r with Ok _ => true | Err _ => false end.

(** ** Bytes *)

Definition byte_code (c : ascii) : Z := Z.of_N (N_of_ascii c).

Definition is_digit (c : ascii) : bool :=
  (48 <=? byte_code c) && (byte_code c <=? 57).

(** [[:alpha:]] of the regexp package: ASCII letters only. *)
Definition is_alpha (c : ascii) : bool :=
  ((65 <=? byte_code c) && (byte_code c <=? 90))
  || ((97 <=? byte_code c) && (byte_code c <=? 122)).

(** [\s] of the regexp package: [[\t\n\f\r ]]. *)
Definition is_re_space (c : ascii) : bool :=
  let n := byte_code c in
  (n =? 9) || (n =? 10) || (n =? 12) || (n =? 13) || (n =? 32).

(** ** strconv.Atoi

    [strconv] belongs to the Go standard library; the model follows its
    implementation ([ParseUint], [ParseInt], [Atoi]) for base 10. *)

Definition intSize : Z := 64.
Definition maxUint64 : Z := 2 ^ 64 - 1.

(** The loop of [ParseUint]: [n] is the [uint64] accumulator.  An overflow
    returns at once with [maxUint64] and [ErrRange], before the remaining
    bytes are looked at. *)
Fixpoint ParseUint_loop (s : string) (n : Z) : Z * option NumErr :=
  match s with
  | EmptyString => (n, None)
  | String c s' =>
      if is_digit c then
        let d := byte_code c - 48 in
        if maxUint64 / 10 + 1 <=? n then (maxUint64, Some ErrRange)
        else
          let n10 := n * 10 in
          let n1 := (n10 + d) mod 2 ^ 64 in
          if (n1 <? n10) || (maxUint64 <? n1) then (maxUint64, Some ErrRange)
          else ParseUint_loop s' n1
      else (0, Some ErrSyntax)
  end.

Definition ParseUint (s : string) : Z * option NumErr :=
  match s with
  | EmptyString => (0, Some ErrSyntax)
  | _ => ParseUint_loop s 0
  end.

Definition ParseInt (s : string) : Z * option NumErr :=
  match s with
  | EmptyString => (0, Some ErrSyntax)
  | String c s' =>
      let neg := Ascii.eqb c "-"%char in
      let s1 := if Ascii.eqb c "+"%char || neg then s' else s in
      let '(un, err) := ParseUint s1 in
      match err with
      | Some ErrSyntax => (0, Some ErrSyntax)
      | _ =>
          let cutoff := 2 ^ (intSize - 1) in
          if negb neg && (cutoff <=? un) then (cutoff - 1, Some ErrRange)
          else if neg && (cutoff <? un) then (- cutoff, Some ErrRange)
          else (if neg then - un else un, None)
      end
  end.

Definition Atoi (s : string) : Z * option NumErr := ParseInt s.

(** ** getPid *)

(** A record of the table: column title to value. *)
Abbreviation Record := (gmap string string).

(** [stats[key]]: a missing key reads as the empty string. *)
Definition index (stats : Record) (key : string) : string :=
  default "" (stats !! key).

Definition getPid (stats : Record) (key : string) : result Z :=
  let str := index stats key in
  if (String.length str =? 0)%nat then Err (MissingFieldError key)
  else
    match Atoi str with
    | (_, Some e) => Err (NumberFormatError key str e)
    | (val, None) =>
        if val <? 0 then Err (NegativeValueError key str)
        else Ok val
    end.

(** ** White space

    [strings.Fields] and [strings.TrimSpace] use [unicode.IsSpace]; the
    regular expressions use [\s], which has ASCII members only. *)

(** Width in bytes of the white-space rune (in the sense of
    [unicode.IsSpace]) whose UTF-8 encoding starts the string; 0 when there
    is none.  The runes are U+0009..U+000D, U+0020, U+0085, U+00A0, U+1680,
    U+2000..U+200A, U+2028, U+2029, U+202F, U+205F and U+3000. *)
Definition space_width (s : string) : nat :=
  match List.map byte_code (list_ascii_of_string s) with
  | c0 :: rest =>
      if ((9 <=? c0) && (c0 <=? 13)) || (c0 =? 32) then 1%nat
      else
        match rest with
        | c1 :: rest1 =>
            if (c0 =? 194) && ((c1 =? 133) || (c1 =? 160)) then 2%nat
            else
              match rest1 with
              | c2 :: _ =>
                  if (c0 =? 225) && (c1 =? 154) && (c2 =? 128) then 3%nat
                  else if (c0 =? 226) && (c1 =? 128)
                          && (((128 <=? c2) && (c2 <=? 138))
                              || (c2 =? 168) || (c2 =? 169) || (c2 =? 175))
                  then 3%nat
                  else if (c0 =? 226) && (c1 =? 129) && (c2 =? 159) then 3%nat
                  else if (c0 =? 227) && (c1 =? 128) && (c2 =? 128) then 3%nat
                  else 0%nat
              | [] => 0%nat
              end
        | [] => 0%nat
        end
  | [] => 0%nat
  end.

(** Every byte of the string paired with whether it belongs to a white-space
    rune; [pending] counts the bytes still owed to the rune in progress. *)
Fixpoint mark_spaces (s : string) (pending : nat) : list (ascii * bool) :=
  match s with
  | EmptyString => []
  | String a r =>
      match pending with
      | S p => (a, true) :: mark_spaces r p
      | O =>
          match space_width s with
          | S w => (a, true) :: mark_spaces r w
          | O => (a, false) :: mark_spaces r 0
          end
      end
  end.

Fixpoint drop_marked (l : list (ascii * bool)) : list (ascii * bool) :=
  match l with
  | (_, true) :: l' => drop_marked l'
  | _ => l
  end.

(** [strings.TrimSpace] (and [bytes.TrimSpace]). *)
Definition TrimSpace (s : string) : string :=
  let l := drop_marked (mark_spaces s 0) in
  string_of_list_ascii (List.map fst (rev (drop_marked (rev l)))).

(** The loop of [strings.FieldsFunc]: [cur] holds the bytes of the field in
    progress, in reverse. *)
Fixpoint fields_loop (l : list (ascii * bool)) (cur : list ascii) : list string :=
  match l with
  | [] =>
      match cur with
      | [] => []
      | _ => [string_of_list_ascii (rev cur)]
      end
  | (a, true) :: l' =>
      match cur with
      | [] => fields_loop l' []
      | _ => string_of_list_ascii (rev cur) :: fields_loop l' []
      end
  | (a, false) :: l' => fields_loop l' (a :: cur)
  end.

(** [strings.Fields]. *)
Definition Fields (s : string) : list string :=
  fields_loop (mark_spaces s 0) [].

(** ** The regular expressions *)

(** [wsRe.FindAllStringIndex(s, -1)] for [wsRe = `\s+`]: the maximal runs
    of [\s] bytes, as pairs of a start and an end offset.  [i] is the offset
    of the head of [s]; [start] is the start of the run in progress. *)
Fixpoint ws_runs (s : string) (i : nat) (start : option nat) : list (nat * nat) :=
  match s with
  | EmptyString =>
      match start with
      | Some b => [(b, i)]
      | None => []
      end
  | String a r =>
      if is_re_space a then ws_runs r (S i) (Some (default i start))
      else
        match start with
        | Some b => (b, i) :: ws_runs r (S i) None
        | None => ws_runs r (S i) None
        end
  end.

(** [s[b:e]]. *)
Definition slice (s : string) (b e : nat) : string := substring b (e - b) s.

(** The loop of [Regexp.Split] over the matches: the state is the list of
    pieces and the offsets [beg] and [end]. *)
Fixpoint split_loop (s : string) (n : nat) (matches : list (nat * nat))
    (strs : list string) (beg end_ : nat) : list string * nat * nat :=
  match matches with
  | [] => (strs, beg, end_)
  | (m0, m1) :: ms =>
      if (0 <? n)%nat && (List.length strs =? n - 1)%nat then (strs, beg, end_)
      else
        let strs' := if negb (m1 =? 0)%nat then strs ++ [slice s beg m0] else strs in
        split_loop s n ms strs' m1 m0
  end.

(** [wsRe.Split(s, n)] for [n >= 0]. *)
Definition Split (s : string) (n : nat) : list string :=
  if (n =? 0)%nat then []
  else if (String.length s =? 0)%nat then [""]
  else
    let matches := take n (ws_runs s 0 None) in
    let '(strs, beg, end_) := split_loop s n matches [] 0%nat 0%nat in
    if negb (end_ =? String.length s)%nat
    then strs ++ [slice s beg (String.length s)]
    else strs.

(** The length of the longest prefix made of bytes of a class: what a
    greedy [+] takes. *)
Fixpoint span (p : ascii -> bool) (s : string) : nat :=
  match s with
  | EmptyString => 0%nat
  | String a r => if p a then S (span p r) else 0%nat
  end.

(** [matchErrPrefix = regexp.MustCompile(`^[[:alpha:]]+:\s+`).FindStringIndex]:
    the location of the match, when there is one. *)
Definition matchErrPrefix (msg : string) : option (nat * nat) :=
  let a := span is_alpha msg in
  if (a =? 0)%nat then None
  else
    match slice msg a (String.length msg) with
    | String c r =>
        if Ascii.eqb c ":"%char then
          let w := span is_re_space r in
          if (w =? 0)%nat then None else Some (0%nat, (a + 1 + w)%nat)
        else None
    | EmptyString => None
    end.

Definition cutErrPrefix (msg : string) : string :=
  match matchErrPrefix msg with
  | Some (_, e) => slice msg e (String.length msg)
  | None => msg
  end.

(** ** Errors of the line source *)

(** An error returned by the line iterator: a [*strit.ExitError], which
    carries the text the command wrote to its standard error, or any other
    error value, given by the text of its [Error()]. *)
Inductive source_error : Type :=
| ExitError (Stderr : string)
| OtherError (text : string).

(** [strings.IndexRune(s, '\n')], or [strings.IndexByte]: [None] is -1. *)
Fixpoint IndexByte (s : string) (c : ascii) : option nat :=
  match s with
  | EmptyString => None
  | String a r => if Ascii.eqb a c then Some 0%nat else S <$> IndexByte r c
  end.

Definition newline : ascii := ascii_of_nat 10.

(** [mapCmdError]: the message of the error it returns. *)
Definition mapCmdError (err : source_error) : string :=
  match err with
  | ExitError msg =>
      let msg' :=
        match IndexByte msg newline with
        | Some (S i) => TrimSpace (slice msg 0 (S i))
        | _ => msg
        end in
      cutErrPrefix msg'
  | OtherError text => cutErrPrefix text
  end.

(** ** The parser of the table *)

Record psParser : Type := mkParser {
  header : list string;
  stats : list Record
}.

(** The two states of the parser, named after the methods that handle them
    ([strit.ParserFunc] values). *)
Inductive ParserFunc : Type := fn_Enter | fn_read.

(** [m[p.header[i]] = s] for every field, in order. *)
Fixpoint fill (hdr fields : list string) (m : Record) : Record :=
  match hdr, fields with
  | h :: hdr', s :: fields' => fill hdr' fields' (<[h := s]> m)
  | _, _ => m
  end.

Definition psParser_Enter (p : psParser) (line : string) : result (ParserFunc * psParser) :=
  let hdr := Fields line in
  if (List.length hdr <? 2)%nat then Err (HeaderError hdr)
  else Ok (fn_read, mkParser hdr []).

Definition psParser_read (p : psParser) (line : string) : result (ParserFunc * psParser) :=
  let fields := Split line (List.length (header p)) in
  if negb (List.length fields =? List.length (header p))%nat
  then Err (RowShapeError (List.length fields) (List.length (header p)) fields)
  else Ok (fn_read, mkParser (header p) (stats p ++ [fill (header p) fields ∅])).

Definition call (fn : ParserFunc) : psParser -> string -> result (ParserFunc * psParser) :=
  match fn with
  | fn_Enter => psParser_Enter
  | fn_read => psParser_read
  end.

(** [strit.Iter.Parse]: every line goes to the current state function, which
    gives the next one; the first error ends the iteration. *)
Fixpoint feed (fn : ParserFunc) (p : psParser) (lines : list string) : result psParser :=
  match lines with
  | [] => Ok p
  | line :: rest =>
      '(fn', p') ← call fn p line;
      feed fn' p' rest
  end.

(** [nonEmptyLines]: trims every line and drops the empty ones. *)
Definition nonEmptyLines (lines : list string) : list string :=
  List.filter (fun l => negb (String.length l =? 0)%nat) (List.map TrimSpace lines).

(** [iter.Parse(&parser)] for an iterator that delivers [lines] and then
    ends with [fail].  An error of the parser itself reaches
    [Done] as well; its text starts with the word "Invalid" and a blank, which
    [cutErrPrefix] leaves as it is. *)
Definition Parse (lines : list string) (fail : option source_error) : result psParser :=
  p ← feed fn_Enter (mkParser [] []) lines;
  match fail with
  | Some err => Err (ExecutionError (mapCmdError err))
  | None => Ok p
  end.

(** ** Stores of node objects

    A [*ProcNode] is a location of a store; [&ProcNode{...}] allocates the
    next free location.  The store is a list and a location is an index in
    it. *)

Abbreviation loc := nat.

(** * rstat.go *)

Module Rev1.

(** ** The process tree as a value

    A finite tree of nodes without sharing: what a [*ProcNode] stands for
    when the nodes reached from it form a tree. *)

#[local] Unset Elimination Schemes.
Inductive ProcNode : Type :=
| mkProcNode (Pid : Z) (Stats : Record) (Children : list ProcNode).
#[local] Set Elimination Schemes.

Definition Pid (n : ProcNode) : Z := let 'mkProcNode p _ _ := n in p.
Definition Stats (n : ProcNode) : Record := let 'mkProcNode _ s _ := n in s.
Definition Children (n : ProcNode) : list ProcNode := let 'mkProcNode _ _ c := n in c.

Section Traversal.
(** The predicate given to [Find] is Go code with effects of its own: it
    reads and updates a state of type [St]. *)
Context {St : Type}.
Variable pred : Z -> Record -> St -> bool * St.

(** The [for i, node := range nodes] loop of [iterNodes]; [rest] is the
    stack below its top element. The stack is a list whose head is the
    last element of the Go slice. *)
Fixpoint iterNodes_loop (nodes : list ProcNode) (rest : list (list ProcNode)) (st : St)
    : option ProcNode * list (list ProcNode) * St :=
  match nodes with
  | [] => (None, rest, st)
  | node :: nodes' =>
      let '(b, st') := pred (Pid node) (Stats node) st in
      if b then (Some node, [], st')
      else if (0 <? List.length (Children node))%nat
           then (None, Children node :: nodes' :: rest, st')
           else iterNodes_loop nodes' rest st'
  end.

(** [iterNodes]; [None] is the run-time panic of [stack[len(stack)-1]] on
    an empty stack. *)
Definition iterNodes (stack : list (list ProcNode)) (st : St)
    : option (option ProcNode * list (list ProcNode) * St) :=
  match stack with
  | [] => None
  | nodes :: rest => Some (iterNodes_loop nodes rest st)
  end.

(** The [for len(stack) > 0] loop of [Find]; [None] when [fuel]
    iterations were not enough. *)
Fixpoint Find_loop (fuel : nat) (node : option ProcNode)
    (stack : list (list ProcNode)) (st : St) : option (option ProcNode * St) :=
  if (0 <? List.length stack)%nat then
    match fuel with
    | O => None
    | S fuel' =>
        '(node', stack', st') ← iterNodes stack st;
        Find_loop fuel' node' stack' st'
    end
  else Some (node, st).

Definition Find (fuel : nat) (root : ProcNode) (st : St) : option (option ProcNode * St) :=
  let '(b, st1) := pred (Pid root) (Stats root) st in
  if b then Some (Some root, st1)
  else
    '(node, stack, st2) ← iterNodes [Children root] st1;
    Find_loop fuel node stack st2.
End Traversal.

(** [ForEach]: the result of [Find] is dropped. *)
Definition ForEach {St : Type} (fn : Z -> Record -> St -> St)
    (fuel : nat) (root : ProcNode) (st : St) : option St :=
  snd <$> Find (fun pid stats st => (false, fn pid stats st)) fuel root st.

(** ** makePsCommand *)

Definition is_cmd_column (c : string) : bool :=
  bool_decide (c = "args") || bool_decide (c = "cmd") || bool_decide (c = "command").

Definition is_pid_column (c : string) : bool :=
  bool_decide (c = "pid") || bool_decide (c = "ppid").

(** The first loop: the map of the other columns and the [cmd] flag. *)
Definition classify (st : gmap string Z * bool) (c : string) : gmap string Z * bool :=
  let '(m, cmd) := st in
  if is_cmd_column c then (m, true)
  else if is_pid_column c then (m, cmd)
  else (<[c := 0]> m, cmd).

(** [range] gives the order in which [for c := range m] yields the keys; the
    Go run time is free to choose any. *)
Definition makePsCommand (range : gmap string Z -> list string)
    (columns : list string) : list string :=
  if (List.length columns =? 0)%nat then ["ps"; "-ewwF"]
  else
    let '(m, cmd) := foldl classify (∅, false) columns in
    let buff := foldl (fun buff c => buff +:+ "," +:+ c) "pid,ppid" (range m) in
    let buff := if cmd then buff +:+ ",cmd" else buff in
    ["ps"; "-ewwo"; buff].

(** ** buildProcTree *)

Module Mem.
(** The [ProcNode] struct as it lies in the store. *)
Record ProcNode : Type := mkProcNode {
  Pid : Z;
  Stats : Record;
  Children : list loc
}.
End Mem.

Abbreviation store := (list Mem.ProcNode).

(** The first loop: [nodes[pid] = &ProcNode{Pid: pid, Stats: stat}]. *)
Fixpoint index_loop (stats : list Record) (h : store) (nodes : gmap Z loc)
    : result (store * gmap Z loc) :=
  match stats with
  | [] => Ok (h, nodes)
  | stat :: rest =>
      pid ← getPid stat "PID";
      index_loop rest (h ++ [Mem.mkProcNode pid stat []]) (<[pid := List.length h]> nodes)
  end.

(** [parent.Children = append(parent.Children, node)]. *)
Definition add_child (node : loc) (parent : Mem.ProcNode) : Mem.ProcNode :=
  Mem.mkProcNode (Mem.Pid parent) (Mem.Stats parent) (Mem.Children parent ++ [node]).

(** The second loop, over the entries of [nodes] in the order [entries].
    Every location kept in [nodes] is allocated; the [None] case of the
    first [match] is there for totality. *)
Fixpoint link_loop (nodes : gmap Z loc) (entries : list (Z * loc)) (h : store)
    : result store :=
  match entries with
  | [] => Ok h
  | (_, node) :: rest =>
      match h !! node with
      | None => link_loop nodes rest h
      | Some obj =>
          ppid ← getPid (Mem.Stats obj) "PPID";
          match nodes !! ppid with
          | Some parent => link_loop nodes rest (alter (add_child node) parent h)
          | None => link_loop nodes rest h
          end
      end
  end.

(** [range] gives the order in which [for _, node := range nodes] yields the
    entries of the map. The result is the store and the location of the
    root. *)
Definition buildProcTree (range : gmap Z loc -> list (Z * loc))
    (stats : list Record) : result (store * loc) :=
  '(h, nodes) ← index_loop stats [] ∅;
  h' ← link_loop nodes (range nodes) h;
  match nodes !! 1 with
  | Some root => Ok (h', root)
  | None => Err RootNotFoundError
  end.

(** [pstree] for a command that writes [lines] and then ends with
    [fail]. *)
Definition pstree (range : gmap Z loc -> list (Z * loc))
    (lines : list string) (fail : option source_error) : result (store * loc) :=
  parser ← Parse (nonEmptyLines lines) fail;
  buildProcTree range (stats parser).

(** The tree at location [l] of the store, when following the [Children]
    from [l] for at most [fuel] levels reaches no further node. *)
Fixpoint tree_at (fuel : nat) (h : store) (l : loc) : option ProcNode :=
  match fuel with
  | O => None
  | S fuel' =>
      obj ← h !! l;
      ts ← mapM (tree_at fuel' h) (Mem.Children obj);
      Some (mkProcNode (Mem.Pid obj) (Mem.Stats obj) ts)
  end.

(** The nodes of a tree in pre-order. *)
Fixpoint preorder (n : ProcNode) : list ProcNode :=
  match n with
  | mkProcNode _ _ cs => n :: flat_map preorder cs
  end.

End Rev1.

(** * The later revision of rstat.go

    The parser, [getPid] and [mapCmdError] are the same in both revisions.
    [ProcNode] has the new field [ParentPid], [buildProcTree] fills it and
    removes the two identifier columns from [Stats], and [makePsCommand]
    understands width and title suffixes and passes one [-o] option for every
    column. *)

Module Rev2.

(** ** makePsCommand *)

(** [s[:i]] and [s[i+1:]] for the first [ch] of [s], when there is one. *)
Definition cut_at (ch : ascii) (s : string) : option (string * string) :=
  i ← IndexByte s ch;
  Some (slice s 0 i, slice s (S i) (String.length s)).

(** The body of the first loop; the state is the set [m] and the string
    [cmd]. *)
Definition classify (st : gset string * string) (c : string) : gset string * string :=
  let '(m, cmd) := st in
  (* cut off any column width spec *)
  let c := match cut_at ":" c with Some (c', _) => c' | None => c end in
  (* column name substitution string *)
  let '(c, subst) := match cut_at "=" c with Some cs => cs | None => (c, "") end in
  if Rev1.is_cmd_column c then
    (m, if (0 <? String.length subst)%nat then "cmd=" +:+ subst else "cmd")
  else if Rev1.is_pid_column c then (m, cmd)
  else if (0 <? String.length subst)%nat then ({[ c +:+ "=" +:+ subst ]} ∪ m, cmd)
  else ({[ c ]} ∪ m, cmd).

(** [range] gives the order in which [for c := range m] yields the members
    of the set. *)
Definition makePsCommand (range : gset string -> list string)
    (columns : list string) : list string :=
  if (List.length columns =? 0)%nat then ["ps"; "-ewwF"]
  else
    let '(m, cmd) := foldl classify (∅, "") columns in
    let res := foldl (fun res c => res ++ ["-o"; c]) ["ps"; "-ewwo"; "pid,ppid"] (range m) in
    if (0 <? String.length cmd)%nat then res ++ ["-o"; cmd] else res.

(** ** buildProcTree *)

Module Mem.
Record ProcNode : Type := mkProcNode {
  Pid : Z;
  ParentPid : Z;
  Stats : Record;
  Children : list loc
}.
End Mem.

Abbreviation store := (list Mem.ProcNode).

(** The first loop.  [delete] works on the map that [node.Stats] refers to:
    the node sees the record without the two keys. *)
Fixpoint index_loop (stats : list Record) (h : store) (nodes : gmap Z loc)
    : result (store * gmap Z loc) :=
  match stats with
  | [] => Ok (h, nodes)
  | stat :: rest =>
      pid ← getPid stat "PID";
      ppid ← getPid stat "PPID";
      let stat' := delete "PPID" (delete "PID" stat) in
      index_loop rest (h ++ [Mem.mkProcNode pid ppid stat' []]) (<[pid := List.length h]> nodes)
  end.

Definition add_child (node : loc) (parent : Mem.ProcNode) : Mem.ProcNode :=
  Mem.mkProcNode (Mem.Pid parent) (Mem.ParentPid parent) (Mem.Stats parent)
    (Mem.Children parent ++ [node]).

(** The second loop; the [None] case of the first [match] is there for
    totality. *)
Fixpoint link_loop (nodes : gmap Z loc) (entries : list (Z * loc)) (h : store) : store :=
  match entries with
  | [] => h
  | (_, node) :: rest =>
      match h !! node with
      | None => link_loop nodes rest h
      | Some obj =>
          match nodes !! Mem.ParentPid obj with
          | Some parent => link_loop nodes rest (alter (add_child node) parent h)
          | None => link_loop nodes rest h
          end
      end
  end.

Definition buildProcTree (range : gmap Z loc -> list (Z * loc))
    (stats : list Record) : result (store * loc) :=
  '(h, nodes) ← index_loop stats [] ∅;
  let h' := link_loop nodes (range nodes) h in
  match nodes !! 1 with
  | Some root => Ok (h', root)
  | None => Err RootNotFoundError
  end.

Definition pstree (range : gmap Z loc -> list (Z * loc))
    (lines : list string) (fail : option source_error) : result (store * loc) :=
  parser ← Parse (nonEmptyLines lines) fail;
  buildProcTree range (stats parser).

(** The process tree as a value, and the tree at a location of the store. *)
#[local] Unset Elimination Schemes.
Inductive ProcNode : Type :=
| mkProcNode (Pid ParentPid : Z) (Stats : Record) (Children : list ProcNode).
#[local] Set Elimination Schemes.

Definition Pid (n : ProcNode) : Z := let 'mkProcNode p _ _ _ := n in p.
Definition ParentPid (n : ProcNode) : Z := let 'mkProcNode _ q _ _ := n in q.
Definition Stats (n : ProcNode) : Record := let 'mkProcNode _ _ s _ := n in s.
Definition Children (n : ProcNode) : list ProcNode := let 'mkProcNode _ _ _ c := n in c.

Fixpoint tree_at (fuel : nat) (h : store) (l : loc) : option ProcNode :=
  match fuel with
  | O => None
  | S fuel' =>
      obj ← h !! l;
      ts ← mapM (tree_at fuel' h) (Mem.Children obj);
      Some (mkProcNode (Mem.Pid obj) (Mem.ParentPid obj) (Mem.Stats obj) ts)
  end.

Fixpoint preorder (n : ProcNode) : list ProcNode :=
  match n with
  | mkProcNode _ _ _ cs => n :: flat_map preorder cs
  end.

End Rev2.

(** * Reference notions

    The notions in which the properties below are stated: those of the
    specification, and what the proofs need to follow the loops. *)

(** A string of decimal digits and its value. *)
Fixpoint digits_only (s : string) : bool :=
  match s with
  | EmptyString => true
  | String c r => is_digit c && digits_only r
  end.

Fixpoint decimal_from (n : Z) (s : string) : Z :=
  match s with
  | EmptyString => n
  | String c r => decimal_from (n * 10 + (byte_code c - 48)) r
  end.

Definition decimal (ds : string) : Z := decimal_from 0 ds.

Definition is_digits (ds : string) : bool :=
  (0 <? String.length ds)%nat && digits_only ds.

(** A base-10 integer literal is an optional sign and one or more digits;
    [int_literal] gives its value. *)
Definition int_literal (s : string) : option Z :=
  match s with
  | String c ds =>
      if Ascii.eqb c "+"%char then (if is_digits ds then Some (decimal ds) else None)
      else if Ascii.eqb c "-"%char then (if is_digits ds then Some (- decimal ds) else None)
      else if is_digits s then Some (decimal s) else None
  | EmptyString => None
  end.

(** The values of a Go [int]. *)
Definition in_int_range (v : Z) : bool :=
  (- 2 ^ (intSize - 1) <=? v) && (v <? 2 ^ (intSize - 1)).

(** The first line of a text: what precedes its first newline. *)
Definition first_line (text : string) : string :=
  match IndexByte text newline with
  | Some i => slice text 0 i
  | None => text
  end.

Fixpoint all_bytes (p : ascii -> bool) (s : string) : bool :=
  match s with
  | EmptyString => true
  | String a r => p a && all_bytes p r
  end.

Definition starts_with (p : ascii -> bool) (s : string) : bool :=
  match s with
  | EmptyString => false
  | String a _ => p a
  end.

(** A message with a "<word>: " prefix: a run of letters, a colon, a run of
    white space, and the rest, which starts with no white space. *)
Definition err_prefix (word ws rest : string) : Prop :=
  word <> "" /\ all_bytes is_alpha word = true /\
  ws <> "" /\ all_bytes is_re_space ws = true /\
  starts_with is_re_space rest = false.

(** Visiting a list of nodes in order until the predicate holds: the node
    found, if any, and the state left by the calls of the predicate. *)
Fixpoint first_match {St : Type} (pred : Z -> Record -> St -> bool * St)
    (l : list Rev1.ProcNode) (st : St) : option Rev1.ProcNode * St :=
  match l with
  | [] => (None, st)
  | n :: r =>
      let '(b, st') := pred (Rev1.Pid n) (Rev1.Stats n) st in
      if b then (Some n, st') else first_match pred r st'
  end.

(** Calling the visitor on every node of a list, in order. *)
Definition visit_all {St : Type} (fn : Z -> Record -> St -> St)
    (l : list Rev1.ProcNode) (st : St) : St :=
  foldl (fun st n => fn (Rev1.Pid n) (Rev1.Stats n) st) st l.

(** The nodes of a list that are visited when the visit stops at the first
    node that satisfies [p]. *)
Fixpoint visited (p : Rev1.ProcNode -> bool) (l : list Rev1.ProcNode) : list Rev1.ProcNode :=
  match l with
  | [] => []
  | n :: r => if p n then [n] else n :: visited p r
  end.

(** A predicate without effects, made to record the pid of every node it is
    called on. *)
Definition recording (p : Z -> Record -> bool) : Z -> Record -> list Z -> bool * list Z :=
  fun pid stats trace => (p pid stats, trace ++ [pid]).

(** The column list as one argument: every column with a comma before
    it. *)
Definition join_cols (cols : list string) : string :=
  foldr (fun c acc => "," +:+ c +:+ acc) "" cols.

(** The name and the title of a requested column in the later revision:
    what follows the first colon is dropped, and the first equals sign of
    what is left separates the name from the title. *)
Definition column_name_title (col : string) : string * string :=
  let c := match Rev2.cut_at ":" col with Some (c', _) => c' | None => col end in
  match Rev2.cut_at "=" c with
  | Some (name, title) => (name, title)
  | None => (c, "")
  end.

(** The column as it is passed to [ps]: [name] or [name=title]. *)
Definition column_spec (col : string) : string :=
  let '(name, title) := column_name_title col in
  if (0 <? String.length title)%nat then name +:+ "=" +:+ title else name.

Definition column_name (col : string) : string := (column_name_title col).1.

(** The [-o] options for a list of columns. *)
Definition o_options (cols : list string) : list string :=
  flat_map (fun c => ["-o"; c]) cols.

(** An order in which a [range] loop may yield the keys of a map, or the
    members of a set: any order is possible. *)
Definition range_keys_ok {V} (range : gmap string V -> list string) : Prop :=
  forall m, range m ≡ₚ (map_to_list m).*1.

Definition range_set_ok (range : gset string -> list string) : Prop :=
  forall X, range X ≡ₚ elements X.

Definition range_entries_ok (range : gmap Z loc -> list (Z * loc)) : Prop :=
  forall m, range m ≡ₚ map_to_list m.

(** The command column as the later revision passes it: [cmd] or
    [cmd=title]; and the one that is passed for a column list: that of the
    last request for the command, under any of its names. *)
Definition cmd_spec (col : string) : string :=
  let '(_, title) := column_name_title col in
  if (0 <? String.length title)%nat then "cmd=" +:+ title else "cmd".

Definition requested_cmd (columns : list string) : option string :=
  last (cmd_spec <$> List.filter (fun col => Rev1.is_cmd_column (column_name col)) columns).

(** ** Parent links

    The links that the second loop of [buildProcTree] follows, seen as a
    graph on the locations [L] kept in the index: [parent l] is the location
    that gets [l] as a child. *)

(** The [n]-th ancestor of a location. *)
Fixpoint up (parent : loc -> option loc) (n : nat) (l : loc) : option loc :=
  match n with
  | O => Some l
  | S n' => p ← parent l; up parent n' p
  end.

(** The children of a location, in the order in which the loop meets
    them. *)
Definition kids (parent : loc -> option loc) (L : list loc) (i : loc) : list loc :=
  List.filter (fun l => bool_decide (parent l = Some i)) L.

(** The locations reached from [l] through the children, in pre-order;
    [None] when they go deeper than [fuel] levels. *)
Fixpoint walk (parent : loc -> option loc) (L : list loc) (fuel : nat) (l : loc)
    : option (list loc) :=
  match fuel with
  | O => None
  | S fuel' =>
      ls ← mapM (walk parent L fuel') (kids parent L l);
      Some (l :: concat ls)
  end.

(** ** Records and their positions

    A record is known by its position in the list given to
    [buildProcTree]. *)

(** The position of the last record with pid [k]. *)
Fixpoint last_pos (stats : list Record) (k : Z) : option nat :=
  match stats with
  | [] => None
  | r :: rest =>
      match last_pos rest k with
      | Some i => Some (S i)
      | None => if bool_decide (getPid r "PID" = Ok k) then Some 0%nat else None
      end
  end.

(** The record at position [l] is the last one with its pid. *)
Definition live (stats : list Record) (l : nat) : Prop :=
  exists k, last_pos stats k = Some l.

(** The position of the parent of the record at position [l]: that of the
    last record whose pid is the parent pid of the record. *)
Definition parent_pos (stats : list Record) (l : nat) : option nat :=
  r ← stats !! l;
  match getPid r "PPID" with
  | Ok q => last_pos stats q
  | Err _ => None
  end.

(** The record at position [l] is the last one with its pid, and its chain
    of parents leads to the last record with pid 1. *)
Definition traces_to_root (stats : list Record) (l : nat) : Prop :=
  live stats l /\
  exists root e, last_pos stats 1 = Some root /\ up (parent_pos stats) e l = Some root.

(** Both identifiers of the record can be extracted. *)
Definition ids_ok (r : Record) : Prop :=
  is_ok (getPid r "PID") = true /\ is_ok (getPid r "PPID") = true.

(** The pid of a record whose [PID] field can be extracted. *)
Definition pid_of (r : Record) : Z :=
  match getPid r "PID" with Ok v => v | Err _ => 0 end.

Definition ppid_of (r : Record) : Z :=
  match getPid r "PPID" with Ok v => v | Err _ => 0 end.

(** A record with the two identifier columns and a command, for the
    examples. *)
Definition proc (pid ppid cmd : string) : Record :=
  <["PID" := pid]> (<["PPID" := ppid]> {["CMD" := cmd]}).

(** The record of the example: the line [1 0 0.1 0.2 /sbin/init] under the
    header [PID PPID %CPU %MEM CMD]; and its fields without the
    identifiers. *)
Definition init_record : Record :=
  <["PID" := "1"]> (<["PPID" := "0"]> (<["%CPU" := "0.1"]> (<["%MEM" := "0.2"]>
    {["CMD" := "/sbin/init"]}))).

Definition init_stats : Record :=
  <["%CPU" := "0.1"]> (<["%MEM" := "0.2"]> {["CMD" := "/sbin/init"]}).

(** A data line that [psParser.read] accepts for a header of [h] titles. *)
Definition row_ok (h : nat) (row : string) : Prop :=
  List.length (Split row h) = h.

(** The nodes that a stack still has to visit, in the order of the visit:
    the top list first, every node followed by its descendants. *)
Definition pending (stack : list (list Rev1.ProcNode)) : list Rev1.ProcNode :=
  flat_map (flat_map Rev1.preorder) stack.

(** A bound on the number of iterations that empty a stack. *)
Definition cost (stack : list (list Rev1.ProcNode)) : nat :=
  (List.length stack + 2 * List.length (pending stack))%nat.

(** The ancestors of a location, the location first. *)
Fixpoint ancestors (parent : loc -> option loc) (n : nat) (l : loc) : list loc :=
  l :: match n with
       | O => []
       | S n' => match parent l with Some p => ancestors parent n' p | None => [] end
       end.

(** A location [x] lies below [c] when [c] is [x] or one of its
    ancestors. *)
Definition below (parent : loc -> option loc) (L : list loc) (c x : loc) : Prop :=
  x ∈ L /\ exists e, up parent e x = Some c.

(** ** The store that buildProcTree returns *)

Module Rev1_Store.
Import Rev1.

(** The node object that the first loop creates for a record. *)
Definition cell (r : Record) : Mem.ProcNode := Mem.mkProcNode (pid_of r) r [].

(** The location that gets [l] as a child in the second loop. *)
Definition parent_loc (nodes : gmap Z loc) (h : store) (l : loc) : option loc :=
  obj ← h !! l;
  match getPid (Mem.Stats obj) "PPID" with
  | Ok q => nodes !! q
  | Err _ => None
  end.

(** The store after the second loop. *)
Definition linked (nodes : gmap Z loc) (entries : list (Z * loc)) (h : store) : store :=
  imap (fun i obj =>
          Mem.mkProcNode (Mem.Pid obj) (Mem.Stats obj)
            (Mem.Children obj ++ kids (parent_loc nodes h) entries.*2 i)) h.

End Rev1_Store.

Module Rev2_Store.
Import Rev2.

(** The fields of a record that are left in [Stats]. *)
Definition rest_of (r : Record) : Record := delete "PPID" (delete "PID" r).

(** The node object that the first loop creates for a record. *)
Definition cell (r : Record) : Mem.ProcNode :=
  Mem.mkProcNode (pid_of r) (ppid_of r) (rest_of r) [].

(** The location that gets [l] as a child in the second loop. *)
Definition parent_loc (nodes : gmap Z loc) (h : store) (l : loc) : option loc :=
  obj ← h !! l; nodes !! Mem.ParentPid obj.

(** The store after the second loop. *)
Definition linked (nodes : gmap Z loc) (entries : list (Z * loc)) (h : store) : store :=
  imap (fun i obj =>
          Mem.mkProcNode (Mem.Pid obj) (Mem.ParentPid obj) (Mem.Stats obj)
            (Mem.Children obj ++ kids (parent_loc nodes h) entries.*2 i)) h.

End Rev2_Store.

(** The nodes of a tree stand, one by one, for the locations of a list. *)
Definition stands_for (h : list Rev1.Mem.ProcNode) (ns : list Rev1.ProcNode) (ls : list loc) : Prop :=
  Forall2 (fun n x => exists obj, h !! x = Some obj /\
                        Rev1.Pid n = Rev1.Mem.Pid obj /\ Rev1.Stats n = Rev1.Mem.Stats obj)
          ns ls.

(** The same for the later revision. *)
Definition stands_for_rev2 (h : list Rev2.Mem.ProcNode) (ns : list Rev2.ProcNode)
    (ls : list loc) : Prop :=
  Forall2 (fun n x => exists obj, h !! x = Some obj /\
                        Rev2.Pid n = Rev2.Mem.Pid obj /\
                        Rev2.ParentPid n = Rev2.Mem.ParentPid obj /\
                        Rev2.Stats n = Rev2.Mem.Stats obj)
          ns ls.

(** Splitting on runs of white space into at most [n] pieces, read off the
    string: [n] counts the pieces still to come, the one in progress
    included; [in_run] tells whether the last byte was white space; [cur] is
    the piece in progress. The last piece takes all that is left. *)
Fixpoint split_go (n : nat) (in_run : bool) (cur : string) (s : string) : list string :=
  match s with
  | EmptyString => [cur]
  | String a r =>
      if is_re_space a then
        if in_run then split_go n true "" r
        else cur :: split_go (n - 1) true "" r
      else
        if in_run then (if (n =? 1)%nat then [s] else split_go n false (String a "") r)
        else split_go n false (cur +:+ String a "") r
  end.

Definition split_ws (s : string) (n : nat) : list string :=
  if (n =? 0)%nat then []
  else if (n =? 1)%nat then [s]
  else split_go n false "" s.

(** The state of [split_loop] after the matches, with the last piece. *)
Definition finish (s : string) (st : list string * nat * nat) : list string :=
  let '(strs, beg, end_) := st in
  if negb (end_ =? String.length s)%nat
  then strs ++ [slice s beg (String.length s)]
  else strs.

(** * Running the command

    [SSHCommand], [concat], [ProcTree] and [pstree] are the same in both
    revisions. *)

Module Command.

(** [strconv.FormatUint(u, 10)]: the decimal digits of [u], produced from
    the least significant one.  A [uint64] has at most 20 digits. *)
Definition digit_char (d : Z) : ascii := ascii_of_N (Z.to_N (48 + d)).

Fixpoint format_loop (fuel : nat) (u : Z) (acc : string) : string :=
  match fuel with
  | O => acc
  | S fuel' =>
      let acc' := String (digit_char (u mod 10)) acc in
      if u / 10 =? 0 then acc' else format_loop fuel' (u / 10) acc'
  end.

Definition FormatUint (u : Z) : string := format_loop 20 u "".

(** [seconds] is a [uint]: a number from 0 to [maxUint64]. *)
Definition SSHCommand (host user passw : string) (seconds : Z) : list string :=
  let cmd :=
    if (0 <? String.length passw)%nat then ["sshpass"; "-p"; passw; "ssh"]
    else ["ssh"] in
  let cmd :=
    if 0 <? seconds then cmd ++ ["-o"; "ConnectTimeout=" +:+ FormatUint seconds]
    else cmd in
  cmd ++ [user +:+ "@" +:+ host].

(** [make([]string, n)]. *)
Definition make (n : nat) : list string := replicate n "".

(** [copy(dst, src)]: the elements of [dst] after the call, and the number
    of elements copied, which is the smaller of the two lengths. *)
Definition copy (dst src : list string) : list string * nat :=
  let n := (List.length dst `min` List.length src)%nat in
  (take n src ++ drop n dst, n).

(** [concat]: the slice [res[n:]] shares its elements with [res], so that
    the second [copy] writes into [res] from offset [n] on. *)
Definition concat (a b : list string) : list string :=
  let res := make (List.length a + List.length b) in
  let '(res, n) := copy res a in
  take n res ++ (copy (drop n res) b).1.

End Command.

(** What [strit.FromCommand(name, args...)] delivers when it is iterated:
    the lines that the command writes to its standard output, and the error
    with which the iteration ends, if any. *)
Abbreviation runner := (string -> list string -> list string * option source_error).

Module Rev1_Run.
Section Run.
Variable FromCommand : runner.
Variable range_columns : gmap string Z -> list string.
Variable range_nodes : gmap Z loc -> list (Z * loc).

(** [pstree(cmd)]; [None] is the run-time panic of [cmd[0]] on an empty
    slice. *)
Definition pstree (cmd : list string) : option (result (Rev1.store * loc)) :=
  match cmd with
  | [] => None
  | name :: args =>
      let '(lines, fail) := FromCommand name args in
      Some (Rev1.pstree range_nodes lines fail)
  end.

Definition ProcTree (ssh columns : list string) : option (result (Rev1.store * loc)) :=
  pstree (Command.concat ssh (Rev1.makePsCommand range_columns columns)).
End Run.
End Rev1_Run.

Module Rev2_Run.
Section Run.
Variable FromCommand : runner.
Variable range_columns : gset string -> list string.
Variable range_nodes : gmap Z loc -> list (Z * loc).

Definition pstree (cmd : list string) : option (result (Rev2.store * loc)) :=
  match cmd with
  | [] => None
  | name :: args =>
      let '(lines, fail) := FromCommand name args in
      Some (Rev2.pstree range_nodes lines fail)
  end.

Definition ProcTree (ssh columns : list string) : option (result (Rev2.store * loc)) :=
  pstree (Command.concat ssh (Rev2.makePsCommand range_columns columns)).
End Run.
End Rev2_Run.

(** The decimal numeral of a number: digits only, and no leading zero
    unless it is the single digit 0. *)
Definition numeral (txt : string) (u : Z) : Prop :=
  is_digits txt = true /\ decimal txt = u /\
  (txt = "0" \/ starts_with (fun c => Ascii.eqb c "0"%char) txt = false).

(** ** The traversal of the later revision

    The predicate gets the node itself.  It is Go code with effects of its
    own, on a state of type [St]; it is taken not to change the tree it
    walks. *)

Module Rev2_Tree.
Import Rev2.

Section Traversal.
Context {St : Type}.
Variable pred : ProcNode -> St -> bool * St.

Fixpoint iterNodes_loop (nodes : list ProcNode) (rest : list (list ProcNode)) (st : St)
    : option ProcNode * list (list ProcNode) * St :=
  match nodes with
  | [] => (None, rest, st)
  | node :: nodes' =>
      let '(b, st') := pred node st in
      if b then (Some node, [], st')
      else if (0 <? List.length (Children node))%nat
           then (None, Children node :: nodes' :: rest, st')
           else iterNodes_loop nodes' rest st'
  end.

(** [None] is the run-time panic of [stack[len(stack)-1]] on an empty
    stack. *)
Definition iterNodes (stack : list (list ProcNode)) (st : St)
    : option (option ProcNode * list (list ProcNode) * St) :=
  match stack with
  | [] => None
  | nodes :: rest => Some (iterNodes_loop nodes rest st)
  end.

Fixpoint Find_loop (fuel : nat) (node : option ProcNode)
    (stack : list (list ProcNode)) (st : St) : option (option ProcNode * St) :=
  if (0 <? List.length stack)%nat then
    match fuel with
    | O => None
    | S fuel' =>
        '(node', stack', st') ← iterNodes stack st;
        Find_loop fuel' node' stack' st'
    end
  else Some (node, st).

Definition Find (fuel : nat) (root : ProcNode) (st : St) : option (option ProcNode * St) :=
  let '(b, st1) := pred root st in
  if b then Some (Some root, st1)
  else
    '(node, stack, st2) ← iterNodes [Children root] st1;
    Find_loop fuel node stack st2.
End Traversal.

Definition ForEach {St : Type} (fn : ProcNode -> St -> St)
    (fuel : nat) (root : ProcNode) (st : St) : option St :=
  snd <$> Find (fun node st => (false, fn node st)) fuel root st.

End Rev2_Tree.

(** Visiting a list of nodes of the later revision until the predicate
    holds, and calling the visitor on every node of a list. *)
Fixpoint first_match_rev2 {St : Type} (pred : Rev2.ProcNode -> St -> bool * St)
    (l : list Rev2.ProcNode) (st : St) : option Rev2.ProcNode * St :=
  match l with
  | [] => (None, st)
  | n :: r =>
      let '(b, st') := pred n st in
      if b then (Some n, st') else first_match_rev2 pred r st'
  end.

Definition visit_all_rev2 {St : Type} (fn : Rev2.ProcNode -> St -> St)
    (l : list Rev2.ProcNode) (st : St) : St :=
  foldl (fun st n => fn n st) st l.

Definition pending_rev2 (stack : list (list Rev2.ProcNode)) : list Rev2.ProcNode :=
  flat_map (flat_map Rev2.preorder) stack.

Definition cost_rev2 (stack : list (list Rev2.ProcNode)) : nat :=
  (List.length stack + 2 * List.length (pending_rev2 stack))%nat.

(** The test for a pid, as a predicate for [Find] of rstat.go and of the
    later revision. *)
Definition has_pid (k : Z) : Z -> Record -> unit -> bool * unit :=
  fun pid _ st => (pid =? k, st).

Definition has_pid_rev2 (k : Z) : Rev2.ProcNode -> unit -> bool * unit :=
  fun node st => (Rev2.Pid node =? k, st).

(** The node object of the later revision that holds what an object of
    rstat.go holds: the parent pid is read from the record, and the two
    identifiers are taken out of it. *)
Definition later_form (obj : Rev1.Mem.ProcNode) : Rev2.Mem.ProcNode :=
  Rev2.Mem.mkProcNode (Rev1.Mem.Pid obj) (ppid_of (Rev1.Mem.Stats obj))
    (delete "PPID" (delete "PID" (Rev1.Mem.Stats obj))) (Rev1.Mem.Children obj).

(** A string without a byte of the class. *)
Definition free_of (p : ascii -> bool) (s : string) : bool :=
  all_bytes (fun c => negb (p c)) s.

Definition is_colon (c : ascii) : bool := Ascii.eqb c ":"%char.

(** The last byte of the string is of the class. *)
Fixpoint ends_with (p : ascii -> bool) (s : string) : bool :=
  match s with
  | EmptyString => false
  | String a r =>
      match r with
      | EmptyString => p a
      | _ => ends_with p r
      end
  end.

(** * Properties *)

#[local] Arguments String.append : simpl nomatch.

(** ** Strings *)

Lemma substring_all b : substring 0 (String.length b) b = b.
Proof. induction b as [|c b IH]; simpl; [done|]. by rewrite IH. Qed.

Lemma slice_drop_app a b :
  slice (a +:+ b) (String.length a) (String.length (a +:+ b)) = b.
Proof.
  unfold slice. induction a as [|c a IH].
  - change ("" +:+ b) with b. change (String.length "") with 0%nat.
    rewrite Nat.sub_0_r. apply substring_all.
  - exact IH.
Qed.

Lemma app_assoc_string a b c : (a +:+ b) +:+ c = a +:+ b +:+ c.
Proof.
  induction a as [|x a IH]; [done|].
  change (String x ((a +:+ b) +:+ c) = String x (a +:+ b +:+ c)). by rewrite IH.
Qed.

Lemma app_nil_r_string a : a +:+ "" = a.
Proof. induction a as [|x a IH]; simpl; [done|]. by rewrite IH. Qed.

Lemma length_app_string a b :
  String.length (a +:+ b) = (String.length a + String.length b)%nat.
Proof. induction a as [|c a IH]; simpl; [done|]. by rewrite IH. Qed.

Lemma substring_snoc u : forall b m x,
  String.get (b + m) u = Some x ->
  substring b (S m) u = substring b m u +:+ String x "".
Proof.
  induction u as [|c u IH]; intros b m x Hget; [by destruct b, m|].
  destruct b as [|b].
  - destruct m as [|m]; simpl in *.
    + injection Hget as ->. by destruct u.
    + by rewrite (IH 0%nat m x Hget).
  - simpl in *. by apply IH.
Qed.

Lemma get_app_length pre a r : String.get (String.length pre) (pre +:+ String a r) = Some a.
Proof. induction pre as [|c pre IH]; simpl; [done|]. exact IH. Qed.

Lemma slice_snoc pre a r beg :
  (beg <= String.length pre)%nat ->
  slice (pre +:+ String a r) beg (S (String.length pre)) =
    slice (pre +:+ String a r) beg (String.length pre) +:+ String a "".
Proof.
  intros Hbeg. unfold slice.
  replace (S (String.length pre) - beg)%nat with (S (String.length pre - beg)) by lia.
  apply substring_snoc.
  replace (beg + (String.length pre - beg))%nat with (String.length pre) by lia.
  apply get_app_length.
Qed.

Lemma slice_empty s i : slice s i i = "".
Proof.
  unfold slice. rewrite Nat.sub_diag. revert i. induction s as [|c s IH]; intros [|i]; simpl; auto.
Qed.

Lemma length_snoc_string pre a : String.length (pre +:+ String a "") = S (String.length pre).
Proof. induction pre as [|c pre IH]; simpl; [done|]. by rewrite IH. Qed.

Lemma app_snoc_string pre a r : (pre +:+ String a "") +:+ r = pre +:+ String a r.
Proof. induction pre as [|c pre IH]; simpl; [done|]. by rewrite IH. Qed.

(** ** strconv.Atoi and getPid *)

Lemma is_digit_range c : is_digit c = true -> 0 <= byte_code c - 48 <= 9.
Proof. unfold is_digit. intros H. apply andb_true_iff in H as [H1 H2]. lia. Qed.

Lemma decimal_from_ge s : forall n, 0 <= n -> digits_only s = true -> n <= decimal_from n s.
Proof.
  induction s as [|c r IH]; intros n Hn Hd; simpl in *; [lia|].
  apply andb_true_iff in Hd as [Hc Hr]. apply is_digit_range in Hc.
  etransitivity; [|apply IH]; [lia | lia | done].
Qed.

(** On digits the loop of [ParseUint] computes the decimal value, and reports
    [ErrRange] exactly when the value exceeds [maxUint64]. *)
Lemma ParseUint_loop_digits s : forall n,
  0 <= n <= maxUint64 -> digits_only s = true ->
  ParseUint_loop s n =
    if decimal_from n s <=? maxUint64 then (decimal_from n s, None)
    else (maxUint64, Some ErrRange).
Proof.
  induction s as [|c r IH]; intros n Hn Hd; simpl in *.
  - destruct (Z.leb_spec n maxUint64); [done | lia].
  - apply andb_true_iff in Hd as [Hc Hr]. rewrite Hc.
    pose proof (is_digit_range _ Hc) as Hdig.
    set (d := byte_code c - 48) in *.
    assert (Hge : 0 <= n * 10 + d -> n * 10 + d <= decimal_from (n * 10 + d) r)
      by (intros; by apply decimal_from_ge).
    unfold maxUint64 in *.
    change (2 ^ 64 - 1) with 18446744073709551615 in *.
    change ((18446744073709551615) / 10 + 1) with 1844674407370955162.
    change (2 ^ 64) with 18446744073709551616.
    destruct (Z.leb_spec 1844674407370955162 n).
    { destruct (Z.leb_spec (decimal_from (n * 10 + d) r) 18446744073709551615); [lia | done]. }
    destruct (Z.leb_spec (n * 10 + d) 18446744073709551615).
    + rewrite Z.mod_small by lia.
      destruct (Z.ltb_spec (n * 10 + d) (n * 10)); [lia|].
      destruct (Z.ltb_spec 18446744073709551615 (n * 10 + d)); [lia|]. simpl.
      apply IH; [lia | done].
    + assert (Hm : (n * 10 + d) mod 18446744073709551616 = n * 10 + d - 18446744073709551616).
      { symmetry. apply Z.mod_unique with 1; lia. }
      rewrite Hm.
      destruct (Z.ltb_spec (n * 10 + d - 18446744073709551616) (n * 10)); [|lia]. simpl.
      destruct (Z.leb_spec (decimal_from (n * 10 + d) r) 18446744073709551615); [lia | done].
Qed.

(** A byte that is no digit makes the loop fail. *)
Lemma ParseUint_loop_not_digits s : forall n,
  digits_only s = false -> exists v e, ParseUint_loop s n = (v, Some e).
Proof.
  induction s as [|c r IH]; intros n Hd; simpl in *; [done|].
  destruct (is_digit c); simpl in Hd; [|eauto].
  destruct (_ <=? n); [eauto|].
  destruct (_ || _); [eauto|]. by apply IH.
Qed.

Lemma decimal_from_nonneg s n : 0 <= n -> digits_only s = true -> 0 <= decimal_from n s.
Proof. intros. etransitivity; [|by apply decimal_from_ge]. done. Qed.

Lemma ParseUint_digits ds :
  is_digits ds = true ->
  ParseUint ds =
    if decimal ds <=? maxUint64 then (decimal ds, None) else (maxUint64, Some ErrRange).
Proof.
  unfold is_digits, ParseUint, decimal. intros H.
  apply andb_true_iff in H as [Hlen Hd].
  destruct ds; [done|]. apply ParseUint_loop_digits; [|done].
  unfold maxUint64. lia.
Qed.

Lemma ParseUint_not_digits ds :
  is_digits ds = false -> exists v e, ParseUint ds = (v, Some e).
Proof.
  unfold is_digits, ParseUint. intros H. destruct ds; [eauto|].
  simpl in H. by apply ParseUint_loop_not_digits.
Qed.

(** Case analysis on every integer comparison of the goal. *)
Ltac zcases :=
  repeat (simpl;
    match goal with
    | |- context [?a <=? ?b] => destruct (Z.leb_spec a b)
    | |- context [?a <? ?b] => destruct (Z.ltb_spec a b)
    end);
  simpl; try done; try lia.

(** [Atoi] on an integer literal: the value when it is a Go [int], and
    [ErrRange] otherwise. *)
Lemma Atoi_literal s v :
  int_literal s = Some v ->
  if in_int_range v then Atoi s = (v, None) else snd (Atoi s) = Some ErrRange.
Proof.
  unfold Atoi, ParseInt, int_literal, in_int_range, intSize.
  change (2 ^ (64 - 1)) with 9223372036854775808.
  destruct s as [|c ds]; [done|].
  assert (Hnn : forall t, is_digits t = true -> 0 <= decimal t).
  { intros t Ht. apply andb_true_iff in Ht as [_ Ht]. by apply decimal_from_nonneg. }
  destruct (Ascii.eqb_spec c "+"%char) as [->|Hplus]; cbn [orb andb negb].
  - destruct (is_digits ds) eqn:Hd; [|done]. intros [= <-].
    rewrite (ParseUint_digits _ Hd). specialize (Hnn _ Hd). unfold maxUint64.
    change (2 ^ 64 - 1) with 18446744073709551615.
    zcases.
  - destruct (Ascii.eqb_spec c "-"%char) as [->|Hminus]; cbn [orb andb negb].
    + destruct (is_digits ds) eqn:Hd; [|done]. intros [= <-].
      rewrite (ParseUint_digits _ Hd). specialize (Hnn _ Hd). unfold maxUint64.
      change (2 ^ 64 - 1) with 18446744073709551615.
      zcases.
    + destruct (is_digits (String c ds)) eqn:Hd; [|done]. intros [= <-].
      rewrite (ParseUint_digits _ Hd). specialize (Hnn _ Hd). unfold maxUint64.
      change (2 ^ 64 - 1) with 18446744073709551615.
      zcases.
Qed.

(** [Atoi] fails on everything else. *)
Lemma Atoi_not_literal s :
  int_literal s = None -> exists e, snd (Atoi s) = Some e.
Proof.
  unfold Atoi, ParseInt, int_literal.
  destruct s as [|c ds]; [eauto|].
  assert (Hfail : forall t neg, is_digits t = false ->
    exists e, snd (let '(un, err) := ParseUint t in
      match err with
      | Some ErrSyntax => (0, Some ErrSyntax)
      | _ =>
          let cutoff := 2 ^ (intSize - 1) in
          if negb neg && (cutoff <=? un) then (cutoff - 1, Some ErrRange)
          else if neg && (cutoff <? un) then (- cutoff, Some ErrRange)
          else (if neg then - un else un, None)
      end) = Some e).
  { intros t neg Ht. destruct (ParseUint_not_digits _ Ht) as (un & e & He).
    rewrite He. destruct e; [eauto|].
    assert (un = maxUint64) as ->.
    { clear -He. revert He. unfold ParseUint. destruct t; [done|].
      generalize 0. generalize (String a t). clear.
      intros s. induction s as [|c r IH]; intros n; simpl; [done|].
      repeat (case_match; try done; try congruence); eauto. }
    unfold intSize, maxUint64. destruct neg; simpl; eauto. }
  destruct (Ascii.eqb_spec c "+"%char) as [->|Hplus]; cbn [orb andb negb].
  { destruct (is_digits ds) eqn:Hd; [done|]. intros _. by apply (Hfail ds false). }
  destruct (Ascii.eqb_spec c "-"%char) as [->|Hminus]; cbn [orb andb negb].
  { destruct (is_digits ds) eqn:Hd; [done|]. intros _. by apply (Hfail ds true). }
  destruct (is_digits (String c ds)) eqn:Hd; [done|]. intros _.
  by apply (Hfail (String c ds) false).
Qed.

Lemma index_Some (stats : Record) key s : stats !! key = Some s -> index stats key = s.
Proof. unfold index. by intros ->. Qed.

Lemma length_zero_iff s : (String.length s =? 0)%nat = true <-> s = "".
Proof. destruct s; simpl; split; done. Qed.

(** C3. The contract of [getPid]: [MissingFieldError] for an absent or
    empty field; [NumberFormatError] when the value is no base-10 integer
    literal or does not fit a Go [int]; [NegativeValueError] when it parses to
    a negative integer; the parsed integer otherwise. *)
Theorem getPid_contract (stats : Record) (key : string) :
  (stats !! key = None \/ stats !! key = Some "" ->
     getPid stats key = Err (MissingFieldError key)) /\
  (forall s, stats !! key = Some s -> s <> "" ->
     (int_literal s = None ->
        exists e, getPid stats key = Err (NumberFormatError key s e)) /\
     (forall v, int_literal s = Some v -> in_int_range v = false ->
        getPid stats key = Err (NumberFormatError key s ErrRange)) /\
     (forall v, int_literal s = Some v -> in_int_range v = true -> v < 0 ->
        getPid stats key = Err (NegativeValueError key s)) /\
     (forall v, int_literal s = Some v -> in_int_range v = true -> 0 <= v ->
        getPid stats key = Ok v)).
Proof.
  split.
  - intros H. unfold getPid, index. by destruct H as [-> | ->].
  - intros s Hs Hne. unfold getPid. rewrite (index_Some _ _ _ Hs).
    destruct (String.length s =? 0)%nat eqn:Hlen.
    { by apply length_zero_iff in Hlen. }
    repeat split.
    + intros Hlit. destruct (Atoi_not_literal _ Hlit) as [e He].
      destruct (Atoi s) as [val err]. simpl in He. subst err. eauto.
    + intros v Hlit Hr. pose proof (Atoi_literal _ _ Hlit) as HA. rewrite Hr in HA.
      destruct (Atoi s) as [val err]. simpl in HA. by subst err.
    + intros v Hlit Hr Hv. pose proof (Atoi_literal _ _ Hlit) as HA. rewrite Hr in HA.
      rewrite HA. by destruct (Z.ltb_spec v 0); [|lia].
    + intros v Hlit Hr Hv. pose proof (Atoi_literal _ _ Hlit) as HA. rewrite Hr in HA.
      rewrite HA. by destruct (Z.ltb_spec v 0); [lia|].
Qed.

Lemma getPid_contract_witness :
  getPid ∅ "PID" = Err (MissingFieldError "PID") /\
  (exists e, getPid {[ "PID" := "4x" ]} "PID" = Err (NumberFormatError "PID" "4x" e)) /\
  getPid {[ "PID" := "9223372036854775808" ]} "PID" =
    Err (NumberFormatError "PID" "9223372036854775808" ErrRange) /\
  getPid {[ "PID" := "-7" ]} "PID" = Err (NegativeValueError "PID" "-7") /\
  getPid {[ "PID" := "42" ]} "PID" = Ok 42.
Proof.
  split; [|split; [|split; [|split]]].
  - apply (getPid_contract ∅ "PID"). by left.
  - by apply (getPid_contract {[ "PID" := "4x" ]} "PID") with (s := "4x").
  - by apply (getPid_contract {[ "PID" := "9223372036854775808" ]} "PID")
      with (s := "9223372036854775808") (v := 9223372036854775808).
  - by apply (getPid_contract {[ "PID" := "-7" ]} "PID") with (s := "-7") (v := -7).
  - by apply (getPid_contract {[ "PID" := "42" ]} "PID") with (s := "42") (v := 42).
Defined.

(** C10. A value made of a plus sign and decimal digits that fit a Go [int]
    is accepted: [getPid] returns the value of the digits. *)
Theorem getPid_plus_sign (stats : Record) (key ds : string) :
  stats !! key = Some (String "+" ds) ->
  is_digits ds = true ->
  decimal ds < 2 ^ (intSize - 1) ->
  getPid stats key = Ok (decimal ds).
Proof.
  intros Hs Hd Hr. unfold getPid. rewrite (index_Some _ _ _ Hs).
  assert (Hlit : int_literal (String "+" ds) = Some (decimal ds)).
  { unfold int_literal. simpl. by rewrite Hd. }
  assert (Hnn : 0 <= decimal ds).
  { apply andb_true_iff in Hd as [_ Hd]. by apply decimal_from_nonneg. }
  pose proof (Atoi_literal _ _ Hlit) as HA.
  assert (Hin : in_int_range (decimal ds) = true).
  { unfold in_int_range. apply andb_true_iff. split; [apply Z.leb_le | apply Z.ltb_lt]; [|done].
    assert (0 < 2 ^ (intSize - 1)) by done. lia. }
  rewrite Hin in HA. cbn [String.length Nat.eqb]. rewrite HA.
  by destruct (Z.ltb_spec (decimal ds) 0); [lia|].
Qed.

Lemma getPid_plus_sign_witness : getPid {[ "PPID" := "+123" ]} "PPID" = Ok 123.
Proof. by apply (getPid_plus_sign {[ "PPID" := "+123" ]} "PPID" "123"). Defined.

(** ** The parser *)

Lemma psParser_read_ok p row :
  row_ok (List.length (header p)) row ->
  psParser_read p row =
    Ok (fn_read, mkParser (header p)
                   (stats p ++ [fill (header p) (Split row (List.length (header p))) ∅])).
Proof.
  unfold row_ok, psParser_read. intros ->. by rewrite Nat.eqb_refl.
Qed.

Lemma psParser_read_bad p row :
  ~ row_ok (List.length (header p)) row ->
  psParser_read p row =
    Err (RowShapeError (List.length (Split row (List.length (header p))))
           (List.length (header p)) (Split row (List.length (header p)))).
Proof.
  unfold row_ok, psParser_read. intros H.
  by destruct (Nat.eqb_spec (List.length (Split row (List.length (header p))))
                 (List.length (header p))).
Qed.

(** The rows are read one after the other: each accepted row adds its
    record at the end. *)
Lemma feed_read_ok rows : forall p,
  Forall (row_ok (List.length (header p))) rows ->
  feed fn_read p rows =
    Ok (mkParser (header p)
          (stats p ++ List.map (fun row => fill (header p) (Split row (List.length (header p))) ∅) rows)).
Proof.
  induction rows as [|row rows IH]; intros p Hall; simpl.
  - rewrite app_nil_r. by destruct p.
  - apply Forall_cons in Hall as [Hrow Hall].
    rewrite (psParser_read_ok _ _ Hrow). simpl.
    rewrite IH by done. simpl. by rewrite <- app_assoc.
Qed.

(** The first row that is not accepted ends the parse. *)
Lemma feed_read_bad pre : forall p row post,
  Forall (row_ok (List.length (header p))) pre ->
  ~ row_ok (List.length (header p)) row ->
  feed fn_read p (pre ++ row :: post) =
    Err (RowShapeError (List.length (Split row (List.length (header p))))
           (List.length (header p)) (Split row (List.length (header p)))).
Proof.
  induction pre as [|r pre IH]; intros p row post Hall Hbad; simpl.
  - by rewrite (psParser_read_bad _ _ Hbad).
  - apply Forall_cons in Hall as [Hrow Hall].
    rewrite (psParser_read_ok _ _ Hrow). simpl.
    exact (IH (mkParser (header p) _) row post Hall Hbad).
Qed.

(** What [fill] stores: a title that occurs at position [j] and at no later
    position is mapped to field [j]; titles outside the header keep their
    value. *)
Lemma fill_lookup_last hdr : forall fields (m : Record) j name s,
  hdr !! j = Some name -> fields !! j = Some s ->
  (forall j', (j < j')%nat -> hdr !! j' <> Some name) ->
  fill hdr fields m !! name = Some s.
Proof.
  induction hdr as [|t hdr IH]; intros fields m j name s Hh Hf Hlast; [done|].
  destruct fields as [|f fields]; [by destruct j|]. simpl.
  destruct j as [|j]; simpl in *.
  - injection Hh as ->. injection Hf as ->.
    assert (Hnot : name ∉ hdr).
    { intros [j' Hj']%list_elem_of_lookup. apply (Hlast (S j')); [lia | done]. }
    clear IH Hlast. revert fields m. induction hdr as [|t hdr IH]; intros fields m; simpl.
    + by rewrite lookup_insert_eq.
    + destruct fields as [|f fields]; [by rewrite lookup_insert_eq|].
      apply not_elem_of_cons in Hnot as [Hne Hnot].
      rewrite insert_insert_ne by done. by apply IH.
  - apply (IH _ _ j); [done | done |].
    intros j' Hj'. apply (Hlast (S j')). lia.
Qed.

Lemma fill_lookup_other hdr : forall fields (m : Record) name,
  name ∉ hdr -> fill hdr fields m !! name = m !! name.
Proof.
  induction hdr as [|t hdr IH]; intros fields m name Hnot; [done|].
  destruct fields as [|f fields]; [done|]. simpl.
  apply not_elem_of_cons in Hnot as [Hne Hnot].
  rewrite IH by done. by rewrite lookup_insert_ne.
Qed.

(** [Split] never gives more than [n] pieces. *)
Lemma split_loop_length s n ms : forall strs b e,
  (0 < n)%nat -> (List.length strs <= n - 1)%nat ->
  (List.length (split_loop s n ms strs b e).1.1 <= n - 1)%nat.
Proof.
  induction ms as [|[m0 m1] ms IH]; intros strs b e Hn Hlen; simpl; [done|].
  destruct (Nat.ltb_spec 0 n); [|lia]. simpl.
  destruct (Nat.eqb_spec (List.length strs) (n - 1)); simpl; [done|].
  apply IH; [done|]. destruct (negb _); [|lia].
  rewrite length_app. simpl. lia.
Qed.

Lemma Split_length_le s n : (List.length (Split s n) <= n)%nat.
Proof.
  unfold Split. destruct (Nat.eqb_spec n 0); [simpl; lia|].
  destruct (String.length s =? 0)%nat; [simpl; lia|].
  pose proof (split_loop_length s n (take n (ws_runs s 0 None)) [] 0%nat 0%nat) as H.
  destruct (split_loop _ _ _ _ _ _) as [[strs b] e]. simpl in H.
  specialize (H ltac:(lia) ltac:(lia)).
  destruct (negb _); [|lia]. rewrite length_app. simpl. lia.
Qed.

Lemma split_loop_capped s n ms strs beg e :
  (0 < n)%nat -> List.length strs = (n - 1)%nat -> (e < String.length s)%nat ->
  finish s (split_loop s n ms strs beg e) = strs ++ [slice s beg (String.length s)].
Proof.
  intros Hn Hlen He.
  assert (split_loop s n ms strs beg e = (strs, beg, e)) as ->.
  { destruct ms as [|[m0 m1] ms]; [done|]. simpl.
    destruct (Nat.ltb_spec 0 n); [|lia]. by rewrite Hlen, Nat.eqb_refl. }
  simpl. by destruct (Nat.eqb_spec e (String.length s)); [lia|].
Qed.

(** [split_loop] over the runs of what is left of the string, with the last
    piece added, gives the pieces that [split_go] reads off. *)
Lemma split_fused n s t : forall pre start strs beg e,
  s = pre +:+ t ->
  (List.length strs + 2 <= n)%nat ->
  (e < String.length s)%nat ->
  match start with
  | None =>
      (beg <= String.length pre)%nat ->
      finish s (split_loop s n (ws_runs t (String.length pre) None) strs beg e) =
        strs ++ split_go (n - List.length strs) false (slice s beg (String.length pre)) t
  | Some b =>
      (beg <= b)%nat -> (b < String.length pre)%nat ->
      finish s (split_loop s n (ws_runs t (String.length pre) (Some b)) strs beg e) =
        strs ++ slice s beg b :: split_go (n - List.length strs - 1) true "" t
  end.
Proof.
  induction t as [|a r IH]; intros pre start strs beg e Hs Hlen He.
  - assert (HN : String.length s = String.length pre).
    { rewrite Hs. clear. induction pre as [|c pre IH]; simpl; [done|]. by rewrite IH. }
    destruct start as [b|]; simpl.
    + intros Hbeg Hb.
      destruct (Nat.ltb_spec 0 n); [|lia].
      destruct (Nat.eqb_spec (List.length strs) (n - 1)); [lia|]. simpl.
      destruct (Nat.eqb_spec (String.length pre) 0); [lia|]. simpl.
      destruct (Nat.eqb_spec b (String.length s)); [lia|]. simpl.
      rewrite <- app_assoc. simpl. by rewrite HN, slice_empty.
    + intros Hbeg. destruct (Nat.eqb_spec e (String.length s)); [lia|]. simpl.
      by rewrite HN.
  - assert (Hs' : s = (pre +:+ String a "") +:+ r) by (by rewrite app_snoc_string).
    pose proof (length_snoc_string pre a) as Hl'.
    assert (HpN : (String.length pre < String.length s)%nat).
    { rewrite Hs, length_app_string. simpl. lia. }
    destruct start as [b|]; cbn [ws_runs split_go].
    + intros Hbeg Hb. destruct (is_re_space a) eqn:Ha.
      * pose proof (IH (pre +:+ String a "") (Some b) strs beg e Hs' Hlen He) as HIH.
        simpl in HIH. rewrite Hl' in HIH. apply HIH; lia.
      * cbn [split_loop].
        destruct (Nat.ltb_spec 0 n); [|lia].
        destruct (Nat.eqb_spec (List.length strs) (n - 1)); [lia|]. cbn [andb].
        destruct (Nat.eqb_spec (String.length pre) 0); [lia|]. cbn [negb].
        destruct (decide (List.length strs + 3 <= n)%nat) as [Hmore|Hcap].
        -- pose proof (IH (pre +:+ String a "") None (strs ++ [slice s beg b])
                         (String.length pre) b Hs') as HIH.
           simpl in HIH. rewrite Hl', length_app in HIH. simpl in HIH.
           rewrite HIH by lia. rewrite <- app_assoc. simpl.
           destruct (Nat.eqb_spec (n - List.length strs - 1) 1); [lia|].
           replace (n - (List.length strs + 1))%nat with (n - List.length strs - 1)%nat by lia.
           f_equal. f_equal. f_equal.
           rewrite Hs at 1. rewrite slice_snoc by lia. rewrite <- Hs.
           by rewrite slice_empty.
        -- rewrite split_loop_capped; [| lia | rewrite length_app; simpl; lia | lia].
           rewrite <- app_assoc. simpl.
           replace (n - List.length strs - 1)%nat with 1%nat by lia. simpl.
           f_equal. f_equal. f_equal. rewrite Hs. apply slice_drop_app.
    + intros Hbeg. destruct (is_re_space a) eqn:Ha.
      * pose proof (IH (pre +:+ String a "") (Some (String.length pre)) strs beg e Hs' Hlen He) as HIH.
        simpl in HIH. rewrite Hl' in HIH. simpl. by rewrite HIH by lia.
      * pose proof (IH (pre +:+ String a "") None strs beg e Hs' Hlen He) as HIH.
        simpl in HIH. rewrite Hl' in HIH. rewrite HIH by lia.
        f_equal. f_equal. rewrite Hs at 1. rewrite slice_snoc by lia. by rewrite <- Hs.
Qed.

Lemma ws_runs_pos t : forall i start,
  (forall b, start = Some b -> (b < i)%nat) ->
  Forall (fun m => (m.1 < m.2)%nat) (ws_runs t i start).
Proof.
  induction t as [|a r IH]; intros i start Hstart; simpl.
  - destruct start as [b|]; [|constructor]. constructor; [|constructor]. by apply Hstart.
  - destruct (is_re_space a).
    + apply IH. intros b [= <-]. destruct start as [b|]; simpl; [|lia].
      specialize (Hstart b eq_refl). lia.
    + destruct start as [b|].
      * constructor; [by apply Hstart|]. by apply IH.
      * by apply IH.
Qed.

Lemma split_loop_take s n ms : forall j strs beg e,
  Forall (fun m => (m.1 < m.2)%nat) ms ->
  (0 < n)%nat -> (List.length strs <= n - 1)%nat -> (n <= j + List.length strs)%nat ->
  split_loop s n (take j ms) strs beg e = split_loop s n ms strs beg e.
Proof.
  induction ms as [|[m0 m1] ms IH]; intros j strs beg e Hpos Hn Hlen Hj.
  - by rewrite take_nil.
  - apply Forall_cons in Hpos as [Hm Hpos]. simpl in Hm.
    destruct j as [|j]; [lia|]. cbn [take split_loop].
    destruct (Nat.ltb_spec 0 n); [|lia].
    destruct (Nat.eqb_spec (List.length strs) (n - 1)); [done|]. cbn [andb].
    destruct (Nat.eqb_spec m1 0); [lia|]. cbn [negb].
    apply IH; [done | done | rewrite length_app; simpl; lia | rewrite length_app; simpl; lia].
Qed.

(** [Split] splits on runs of white space into at most [n] pieces. *)
Lemma Split_split_ws s n : Split s n = split_ws s n.
Proof.
  unfold Split, split_ws.
  destruct (Nat.eqb_spec n 0) as [|Hn]; [done|].
  destruct (Nat.eqb_spec (String.length s) 0) as [Hs|Hs].
  { destruct s; [|done]. by destruct n as [|[|n]]. }
  rewrite split_loop_take; [| apply ws_runs_pos; by intros | lia | simpl; lia | simpl; lia].
  change (let '(strs, beg, end_) := split_loop s n (ws_runs s 0 None) [] 0%nat 0%nat in
          if negb (end_ =? String.length s)%nat
          then strs ++ [slice s beg (String.length s)] else strs)
    with (finish s (split_loop s n (ws_runs s 0 None) [] 0%nat 0%nat)).
  destruct (Nat.eqb_spec n 1) as [->|Hn1].
  - rewrite split_loop_capped; [| lia | done | lia]. simpl. f_equal.
    unfold slice. rewrite Nat.sub_0_r. apply substring_all.
  - pose proof (split_fused n s s "" None [] 0%nat 0%nat eq_refl) as HIH.
    simpl in HIH. rewrite HIH by lia. rewrite Nat.sub_0_r. by rewrite slice_empty.
Qed.

Example Fields_header :
  Fields "PID PPID %CPU  %MEM CMD" = ["PID"; "PPID"; "%CPU"; "%MEM"; "CMD"].
Proof. reflexivity. Qed.

(** The last of the [n] pieces keeps its white space. *)
Example Split_capped :
  Split "1 0 0.1  0.2 /sbin/init --x  y" 5 = ["1"; "0"; "0.1"; "0.2"; "/sbin/init --x  y"].
Proof. reflexivity. Qed.

Example Split_short : Split "2 1" 3 = ["2"; "1"].
Proof. reflexivity. Qed.

(** The example table: one record, with the five columns. *)
Example Parse_init :
  Parse ["PID PPID %CPU %MEM CMD"; "1 0 0.1 0.2 /sbin/init"] None =
    Ok (mkParser ["PID"; "PPID"; "%CPU"; "%MEM"; "CMD"] [init_record]).
Proof. by vm_compute. Qed.

(** C2 (amended). The header needs two titles or the parse fails with
    [HeaderError]; the rows are split on white-space runs into at most as
    many pieces as there are titles, the last of which takes what is left;
    the first row that does not give exactly that many fields fails the
    parse with [RowShapeError]; otherwise there is one record for every row,
    which maps each title to the field at the last position where the title
    occurs in the header, and has no other key. *)
Theorem Parse_table (hdr : string) (rows : list string) :
  let titles := Fields hdr in
  let h := List.length titles in
  ((h < 2)%nat -> Parse (hdr :: rows) None = Err (HeaderError titles)) /\
  ((2 <= h)%nat ->
     (forall row, Split row h = split_ws row h /\ (List.length (Split row h) <= h)%nat) /\
     (forall pre row post,
        rows = pre ++ row :: post ->
        Forall (fun r => List.length (Split r h) = h) pre ->
        List.length (Split row h) <> h ->
        Parse (hdr :: rows) None =
          Err (RowShapeError (List.length (Split row h)) h (Split row h))) /\
     (Forall (fun r => List.length (Split r h) = h) rows ->
        exists p, Parse (hdr :: rows) None = Ok p /\
          header p = titles /\
          List.length (stats p) = List.length rows /\
          forall i row, rows !! i = Some row ->
            exists rec, stats p !! i = Some rec /\
              (forall j name s,
                 titles !! j = Some name -> Split row h !! j = Some s ->
                 (forall j', (j < j')%nat -> titles !! j' <> Some name) ->
                 rec !! name = Some s) /\
              (forall name, name ∉ titles -> rec !! name = None))).
Proof.
  intros titles h. unfold Parse. cbn [feed call]. unfold psParser_Enter. fold titles. fold h.
  split.
  - intros Hh. by destruct (Nat.ltb_spec h 2); [|lia].
  - intros Hh. destruct (Nat.ltb_spec h 2); [lia|]. cbn [mbind result_bind].
    split; [|split].
    + intros row. split; [apply Split_split_ws | apply Split_length_le].
    + intros pre row post -> Hpre Hrow.
      by rewrite (feed_read_bad pre (mkParser titles []) row post).
    + intros Hall. rewrite (feed_read_ok rows (mkParser titles [])) by done.
      eexists. split; [done|]. cbn [header stats app]. split; [done|].
      split; [by rewrite length_map|].
      intros i row Hi. eexists. split.
      { rewrite list_lookup_fmap, Hi. done. }
      split.
      * intros j name s Hj Hs Hlast. by apply (fill_lookup_last titles _ _ j).
      * intros name Hnot. by rewrite fill_lookup_other.
Qed.

Lemma Parse_table_witness :
  Parse ["PID"; "1"] None = Err (HeaderError ["PID"]) /\
  Parse ["PID PPID CMD"; "1 0 /sbin/init -x"; "2 1"] None =
    Err (RowShapeError 2 3 ["2"; "1"]) /\
  exists p, Parse ["PID PPID CMD"; "1 0 /sbin/init -x"] None = Ok p /\
    List.length (stats p) = 1%nat.
Proof.
  split; [|split].
  - apply (Parse_table "PID" ["1"]). vm_compute. lia.
  - destruct (Parse_table "PID PPID CMD" ["1 0 /sbin/init -x"; "2 1"]) as [_ H].
    destruct H as (_ & H & _); [vm_compute; lia|].
    apply (H ["1 0 /sbin/init -x"] "2 1" []).
    + reflexivity.
    + repeat constructor.
    + vm_compute. lia.
  - destruct (Parse_table "PID PPID CMD" ["1 0 /sbin/init -x"]) as [_ H].
    destruct H as (_ & _ & H); [vm_compute; lia|].
    destruct H as (p & Hp & _ & Hlen & _); [repeat constructor|].
    exists p. split; [exact Hp | exact Hlen].
Defined.

(** C2, as stated, fails for a header that repeats a title: the record maps
    the title to the field of its last occurrence, not to field 0. *)
Lemma Parse_table_repeated_title :
  exists p rec,
    Parse ["A A"; "1 2"] None = Ok p /\ stats p = [rec] /\
    Fields "A A" !! 0%nat = Some "A" /\ Split "1 2" 2 !! 0%nat = Some "1" /\
    rec !! "A" = Some "2" /\ rec !! "A" <> Some "1".
Proof.
  eexists. eexists. split; [reflexivity|]. split; [reflexivity|].
  split; [reflexivity|]. split; [reflexivity|]. split; [by vm_compute|].
  by vm_compute.
Qed.

(** ** The error mapper *)

(** [span p s] is the length of the longest prefix of [s] made of [p]
    bytes. *)
Lemma span_app p w r :
  all_bytes p w = true -> starts_with p r = false ->
  span p (w +:+ r) = String.length w.
Proof.
  intros Hw Hr. induction w as [|c w IH]; simpl in *.
  - destruct r as [|c r]; simpl in *; [done|]. by rewrite Hr.
  - apply andb_true_iff in Hw as [-> Hw]. by rewrite IH.
Qed.

Lemma span_split p s :
  exists w r, s = w +:+ r /\ all_bytes p w = true /\ starts_with p r = false /\
    String.length w = span p s.
Proof.
  induction s as [|c s (w & r & -> & Hw & Hr & Hlen)]; simpl.
  - by exists "", "".
  - destruct (p c) eqn:Hc.
    + exists (String c w), r. simpl. rewrite Hc, Hw, Hlen. done.
    + exists "", (String c (w +:+ r)). simpl. by rewrite Hc.
Qed.

Lemma matchErrPrefix_prefix word ws rest :
  err_prefix word ws rest ->
  matchErrPrefix (word +:+ ":" +:+ ws +:+ rest) =
    Some (0%nat, (String.length word + 1 + String.length ws)%nat).
Proof.
  intros (Hw & Haw & Hs & Has & Hr). unfold matchErrPrefix.
  rewrite span_app by done.
  destruct (Nat.eqb_spec (String.length word) 0) as [Hz|_].
  { by destruct word. }
  rewrite slice_drop_app. simpl. change ("" +:+ ws +:+ rest) with (ws +:+ rest).
  rewrite span_app by done.
  destruct (Nat.eqb_spec (String.length ws) 0) as [Hz|_]; [by destruct ws | done].
Qed.

Lemma matchErrPrefix_Some msg b e :
  matchErrPrefix msg = Some (b, e) ->
  exists word ws rest, err_prefix word ws rest /\ msg = word +:+ ":" +:+ ws +:+ rest.
Proof.
  unfold matchErrPrefix.
  destruct (span_split is_alpha msg) as (word & r & -> & Haw & Hr & Hlen).
  rewrite <- Hlen, slice_drop_app.
  destruct (Nat.eqb_spec (String.length word) 0) as [|Hw]; [done|].
  destruct r as [|c r]; [done|].
  destruct (Ascii.eqb_spec c ":"%char) as [->|]; [|done].
  destruct (span_split is_re_space r) as (ws & rest & -> & Has & Hrest & Hlen').
  rewrite <- Hlen'.
  destruct (Nat.eqb_spec (String.length ws) 0) as [|Hs]; [done|]. intros _.
  exists word, ws, rest. split; [|done].
  repeat split; try done; intros ->; done.
Qed.

(** What [cutErrPrefix] does: it removes the prefix when the message has
    one, and changes nothing otherwise. *)
Lemma cutErrPrefix_prefix word ws rest :
  err_prefix word ws rest ->
  cutErrPrefix (word +:+ ":" +:+ ws +:+ rest) = rest.
Proof.
  intros H. unfold cutErrPrefix. rewrite (matchErrPrefix_prefix _ _ _ H).
  replace (String.length word + 1 + String.length ws)%nat
    with (String.length (word +:+ ":" +:+ ws)).
  - replace (word +:+ ":" +:+ ws +:+ rest) with ((word +:+ ":" +:+ ws) +:+ rest).
    + apply slice_drop_app.
    + by rewrite !app_assoc_string.
  - rewrite !length_app_string. simpl. lia.
Qed.

Lemma cutErrPrefix_no_prefix msg :
  (forall word ws rest, err_prefix word ws rest -> msg <> word +:+ ":" +:+ ws +:+ rest) ->
  cutErrPrefix msg = msg.
Proof.
  intros H. unfold cutErrPrefix.
  destruct (matchErrPrefix msg) as [[b e]|] eqn:Hm; [|done].
  destruct (matchErrPrefix_Some _ _ _ Hm) as (word & ws & rest & Hp & ->).
  by destruct (H _ _ _ Hp).
Qed.

(** C9 (amended). The message made from the diagnostic text of a failed
    command: when the first newline of the text is at an offset above 0, the
    text before it, trimmed of surrounding white space, is taken; a text
    without a newline, or starting with one, is taken whole and untrimmed;
    then one leading "<word>: " prefix is removed if there is one. *)
Theorem mapCmdError_ExitError (text : string) :
  exists line,
    ((exists i, IndexByte text newline = Some (S i)) ->
       line = TrimSpace (first_line text)) /\
    (IndexByte text newline = None \/ IndexByte text newline = Some 0%nat ->
       line = text) /\
    (forall word ws rest,
       err_prefix word ws rest -> line = word +:+ ":" +:+ ws +:+ rest ->
       mapCmdError (ExitError text) = rest) /\
    ((forall word ws rest,
        err_prefix word ws rest -> line <> word +:+ ":" +:+ ws +:+ rest) ->
     mapCmdError (ExitError text) = line).
Proof.
  unfold mapCmdError, first_line.
  destruct (IndexByte text newline) as [[|i]|] eqn:Hi.
  - exists text. split; [by intros [? ?]|]. split; [done|]. split.
    + intros word ws rest Hp ->. by apply cutErrPrefix_prefix.
    + apply cutErrPrefix_no_prefix.
  - exists (TrimSpace (slice text 0 (S i))). split; [done|].
    split; [by intros [?|?]|]. split.
    + intros word ws rest Hp ->. by apply cutErrPrefix_prefix.
    + apply cutErrPrefix_no_prefix.
  - exists text. split; [by intros [? ?]|]. split; [done|]. split.
    + intros word ws rest Hp ->. by apply cutErrPrefix_prefix.
    + apply cutErrPrefix_no_prefix.
Qed.

Lemma mapCmdError_ExitError_witness :
  mapCmdError (ExitError ("error: garbage option " +:+ String newline "Usage: ps [options]"))
  = "garbage option".
Proof.
  destruct (mapCmdError_ExitError
              ("error: garbage option " +:+ String newline "Usage: ps [options]"))
    as (line & H1 & _ & H3 & _).
  apply (H3 "error" " " "garbage option").
  - repeat split; done.
  - rewrite H1; [reflexivity|]. exists 21%nat. reflexivity.
Defined.

(** C9, as stated, fails for a text without a newline that starts with a
    blank, which is not trimmed, and for a text that starts with a newline,
    which is not cut. *)
Lemma mapCmdError_not_first_line :
  mapCmdError (ExitError " ps: bad") = " ps: bad" /\
  cutErrPrefix (TrimSpace (first_line " ps: bad")) = "bad" /\
  mapCmdError (ExitError " ps: bad") <> cutErrPrefix (TrimSpace (first_line " ps: bad")) /\
  mapCmdError (ExitError (String newline "ps: bad")) = String newline "ps: bad" /\
  cutErrPrefix (TrimSpace (first_line (String newline "ps: bad"))) = "" /\
  mapCmdError (ExitError (String newline "ps: bad"))
    <> cutErrPrefix (TrimSpace (first_line (String newline "ps: bad"))).
Proof. repeat split; by vm_compute. Qed.

(** ** The traversal *)

Module Rev1_Traversal.
Import Rev1.

Section Find.
Context {St : Type}.
Variable pred : Z -> Record -> St -> bool * St.

Lemma preorder_unfold n : preorder n = n :: flat_map preorder (Children n).
Proof. by destruct n. Qed.

Lemma first_match_app l1 l2 st :
  first_match pred (l1 ++ l2) st =
    match first_match pred l1 st with
    | (Some n, st') => (Some n, st')
    | (None, st') => first_match pred l2 st'
    end.
Proof.
  revert st. induction l1 as [|n l1 IH]; intros st; simpl; [done|].
  destruct (pred (Pid n) (Stats n) st) as [[] st']; [done|]. apply IH.
Qed.

(** One call of [iterNodes]: either the next node in pre-order that
    satisfies the predicate is found, or the stack that is returned has
    the same nodes left to visit, less those visited, and costs less. *)
Lemma iterNodes_loop_spec nodes : forall rest st,
  match iterNodes_loop pred nodes rest st with
  | (Some n, stack', st') =>
      stack' = [] /\ first_match pred (pending (nodes :: rest)) st = (Some n, st')
  | (None, stack', st') =>
      first_match pred (pending (nodes :: rest)) st = first_match pred (pending stack') st' /\
      (cost stack' < cost (nodes :: rest))%nat
  end.
Proof.
  induction nodes as [|n nodes IH]; intros rest st.
  - simpl. split; [done|]. unfold cost. simpl. lia.
  - cbn [iterNodes_loop]. unfold pending. cbn [flat_map].
    rewrite preorder_unfold. rewrite <- !app_assoc. cbn [app first_match].
    destruct (pred (Pid n) (Stats n) st) as [[] st1]; [done|].
    destruct (Nat.ltb_spec 0 (List.length (Children n))) as [Hc|Hc].
    + split; [by cbn [flat_map]|].
      unfold cost, pending. cbn [flat_map List.length].
      rewrite (preorder_unfold n), ?length_app. cbn [List.length].
      rewrite ?length_app. lia.
    + assert (Children n = []) as -> by (destruct (Children n); [done | simpl in Hc; lia]).
      cbn [flat_map app].
      specialize (IH rest st1). unfold pending in IH. cbn [flat_map] in IH.
      destruct (iterNodes_loop pred nodes rest st1) as [[[m|] stack'] st'].
      * done.
      * destruct IH as [IH1 IH2]. split; [done|].
        revert IH2. unfold cost, pending. cbn [flat_map List.length].
        rewrite (preorder_unfold n), ?length_app. cbn [List.length].
        rewrite ?length_app. lia.
Qed.

Lemma Find_loop_found fuel n st : Find_loop pred fuel (Some n) [] st = Some (Some n, st).
Proof. by destruct fuel. Qed.

(** With fuel for the cost of the stack, the loop of [Find] returns the
    first match among the pending nodes. *)
Lemma Find_loop_spec fuel : forall stack st,
  (cost stack <= fuel)%nat ->
  Find_loop pred fuel None stack st = Some (first_match pred (pending stack) st).
Proof.
  induction fuel as [|fuel IH]; intros stack st Hfuel.
  - destruct stack; [done|]. unfold cost in Hfuel. simpl in Hfuel. lia.
  - destruct stack as [|nodes rest]; [done|].
    cbn [Find_loop List.length Nat.ltb Nat.leb iterNodes mbind option_bind].
    pose proof (iterNodes_loop_spec nodes rest st) as H.
    destruct (iterNodes_loop pred nodes rest st) as [[[m|] stack'] st'].
    + destruct H as [-> H]. rewrite H. apply Find_loop_found.
    + destruct H as [H1 H2]. rewrite H1. apply IH. lia.
Qed.

Lemma Find_spec fuel root st :
  (2 * List.length (preorder root) <= fuel)%nat ->
  Find pred fuel root st = Some (first_match pred (preorder root) st).
Proof.
  intros Hfuel. unfold Find. rewrite preorder_unfold in *. cbn [first_match].
  destruct (pred (Pid root) (Stats root) st) as [[] st1]; [done|].
  cbn [iterNodes mbind option_bind iterNodes_loop].
  pose proof (iterNodes_loop_spec (Children root) [] st1) as H.
  assert (Hp : pending [Children root] = flat_map preorder (Children root)).
  { unfold pending. simpl. by rewrite app_nil_r. }
  rewrite Hp in H.
  destruct (iterNodes_loop pred (Children root) [] st1) as [[[m|] stack'] st'].
  - destruct H as [-> H]. rewrite H. apply Find_loop_found.
  - destruct H as [H1 H2]. rewrite H1. apply Find_loop_spec.
    revert H2. unfold cost. rewrite Hp. cbn [List.length] in *. lia.
Qed.
End Find.

Lemma first_match_never {St} (fn : Z -> Record -> St -> St) l : forall st,
  first_match (fun pid stats st => (false, fn pid stats st)) l st = (None, visit_all fn l st).
Proof. induction l as [|n l IH]; intros st; simpl; [done|]. apply IH. Qed.

Lemma ForEach_spec {St} (fn : Z -> Record -> St -> St) fuel root st :
  (2 * List.length (preorder root) <= fuel)%nat ->
  ForEach fn fuel root st = Some (visit_all fn (preorder root) st).
Proof.
  intros Hfuel. unfold ForEach. rewrite Find_spec by done.
  by rewrite first_match_never.
Qed.

Lemma first_match_recording p l : forall trace,
  first_match (recording p) l trace =
    (List.find (fun n => p (Pid n) (Stats n)) l,
     trace ++ List.map Pid (visited (fun n => p (Pid n) (Stats n)) l)).
Proof.
  induction l as [|n l IH]; intros trace; simpl.
  - by rewrite app_nil_r.
  - destruct (p (Pid n) (Stats n)); [done|].
    rewrite IH. by rewrite <- app_assoc.
Qed.

Lemma visited_none (p : ProcNode -> bool) l :
  (forall n, n ∈ l -> p n = false) -> List.find p l = None /\ visited p l = l.
Proof.
  induction l as [|n l IH]; intros Hnone; [done|]. simpl.
  rewrite (Hnone n) by apply list_elem_of_here.
  destruct IH as [-> ->]; [|done].
  intros m Hm. apply Hnone. by apply list_elem_of_further.
Qed.

(** C7. [Find] visits the nodes in pre-order and stops at the first node
    that satisfies the predicate, which it returns; it returns no node when
    none satisfies the predicate.  [ForEach] calls its visitor once on every
    node, in pre-order.  Fuel for twice the number of nodes is enough for
    both to return. *)
Theorem Find_ForEach_preorder (root : ProcNode) (fuel : nat) :
  (2 * List.length (preorder root) <= fuel)%nat ->
  (forall (St : Type) (pred : Z -> Record -> St -> bool * St) (st : St),
     Find pred fuel root st = Some (first_match pred (preorder root) st)) /\
  (forall (p : Z -> Record -> bool),
     let holds := fun n => p (Pid n) (Stats n) in
     Find (recording p) fuel root [] =
       Some (List.find holds (preorder root),
             List.map Pid (visited holds (preorder root))) /\
     ((forall n, n ∈ preorder root -> holds n = false) ->
      Find (recording p) fuel root [] = Some (None, List.map Pid (preorder root)))) /\
  (forall (St : Type) (fn : Z -> Record -> St -> St) (st : St),
     ForEach fn fuel root st = Some (visit_all fn (preorder root) st)).
Proof.
  intros Hfuel. split; [|split].
  - intros St pred st. by apply Find_spec.
  - intros p holds.
    assert (HF : Find (recording p) fuel root [] =
      Some (List.find holds (preorder root), List.map Pid (visited holds (preorder root)))).
    { rewrite Find_spec by done. by rewrite first_match_recording. }
    split; [done|]. intros Hnone. rewrite HF.
    by destruct (visited_none holds (preorder root) Hnone) as [-> ->].
  - intros St fn st. unfold ForEach. rewrite Find_spec by done.
    by rewrite first_match_never.
Qed.

End Rev1_Traversal.

Lemma Find_ForEach_preorder_witness :
  let leaf := fun pid => Rev1.mkProcNode pid ∅ [] in
  let root := Rev1.mkProcNode 1 ∅ [Rev1.mkProcNode 2 ∅ [leaf 4]; leaf 3; leaf 5] in
  Rev1.Find (recording (fun pid _ => pid =? 3)) 10 root [] = Some (Some (leaf 3), [1; 2; 4; 3]) /\
  Rev1.ForEach (fun pid _ acc => acc ++ [pid]) 10 root [] = Some [1; 2; 4; 3; 5].
Proof.
  intros leaf root.
  destruct (Rev1_Traversal.Find_ForEach_preorder root 10) as (_ & H2 & H3).
  { simpl. lia. }
  split.
  - rewrite (proj1 (H2 _)). reflexivity.
  - rewrite H3. reflexivity.
Defined.

(** ** The [ps] command *)

Lemma foldl_join (cols : list string) : forall buff,
  foldl (fun buff c => buff +:+ "," +:+ c) buff cols = buff +:+ join_cols cols.
Proof.
  induction cols as [|c cols IH]; intros buff; simpl.
  - induction buff as [|x b IHb]; simpl; [done|]. by rewrite <- IHb.
  - rewrite IH. rewrite !app_assoc_string. done.
Qed.

Lemma join_cols_app l1 l2 : join_cols (l1 ++ l2) = join_cols l1 +:+ join_cols l2.
Proof.
  induction l1 as [|c l1 IH]; simpl; [done|].
  rewrite IH. by rewrite !app_assoc_string.
Qed.

Module Rev1_Command.
Import Rev1.

(** The first loop collects the columns that are neither an identifier nor
    the command, and notes whether the command was asked for. *)
Lemma classify_foldl_rev1 columns : forall m cmd,
  exists m', foldl classify (m, cmd) columns = (m', cmd || existsb is_cmd_column columns) /\
    forall c, is_Some (m' !! c) <->
      is_Some (m !! c) \/ (c ∈ columns /\ is_cmd_column c = false /\ is_pid_column c = false).
Proof.
  induction columns as [|col columns IH]; intros m cmd; simpl.
  - exists m. rewrite orb_false_r. split; [done|]. intros c. split; [by left|].
    intros [?|[H _]]; [done|]. by apply elem_of_nil in H.
  - destruct (is_cmd_column col) eqn:Hcmd; [|destruct (is_pid_column col) eqn:Hpid].
    + destruct (IH m true) as (m' & -> & Hm'). exists m'. split.
      { by rewrite orb_true_r. }
      intros c. rewrite Hm', elem_of_cons. split.
      * intros [?|(? & ? & ?)]; [by left | right; repeat split; [by right | done..]].
      * intros [?|[[->|?] [? ?]]]; [by left | congruence | by right].
    + destruct (IH m cmd) as (m' & -> & Hm'). exists m'. split; [done|].
      intros c. rewrite Hm', elem_of_cons. split.
      * intros [?|(? & ? & ?)]; [by left | right; repeat split; [by right | done..]].
      * intros [?|[[->|?] [? ?]]]; [by left | congruence | by right].
    + destruct (IH (<[col := 0]> m) cmd) as (m' & -> & Hm'). exists m'. split; [done|].
      intros c. rewrite Hm', elem_of_cons, lookup_insert_is_Some.
      split.
      * intros [[->|[_ ?]]|[? [? ?]]]; [by right; repeat split; [left|..] | by left | right].
        repeat split; [by right | done..].
      * intros [?|[[->|?] [? ?]]].
        -- destruct (decide (col = c)); [by left; left | by left; right].
        -- by left; left.
        -- by right.
Qed.

Lemma makePsCommand_columns_rev1 range columns :
  range_keys_ok range -> columns <> [] ->
  exists others,
    NoDup others /\
    (forall c, c ∈ others <->
       c ∈ columns /\ is_cmd_column c = false /\ is_pid_column c = false) /\
    makePsCommand range columns =
      ["ps"; "-ewwo";
       "pid,ppid" +:+ join_cols (others ++ if existsb is_cmd_column columns then ["cmd"] else [])].
Proof.
  intros Hrange Hne. unfold makePsCommand.
  destruct columns as [|c0 columns]; [done|]. cbn [List.length Nat.eqb].
  destruct (classify_foldl_rev1 (c0 :: columns) ∅ false) as (m & -> & Hm).
  exists (range m). split; [|split].
  - rewrite (Hrange m). apply NoDup_fst_map_to_list.
  - intros c. rewrite (Hrange m), list_elem_of_fmap. split.
    + intros ([k v] & -> & Hkv%elem_of_map_to_list).
      destruct (proj1 (Hm k)) as [[? H]|H]; [by exists v | | done].
      by rewrite lookup_empty in H.
    + intros H. destruct (proj2 (Hm c) (or_intror H)) as [v Hv].
      exists (c, v). split; [done|]. by apply elem_of_map_to_list.
  - rewrite foldl_join. cbn [orb]. rewrite join_cols_app.
    destruct (existsb is_cmd_column (c0 :: columns)); simpl; [done|].
    by rewrite app_nil_r_string.
Qed.

End Rev1_Command.

Module Rev2_Command.
Import Rev2.

Lemma classify_eq m cmd col :
  classify (m, cmd) col =
    if Rev1.is_cmd_column (column_name col) then (m, cmd_spec col)
    else if Rev1.is_pid_column (column_name col) then (m, cmd)
    else ({[ column_spec col ]} ∪ m, cmd).
Proof.
  unfold classify, column_name, cmd_spec, column_spec, column_name_title.
  destruct (cut_at ":" col) as [[c' w]|];
    (destruct (cut_at "=" _) as [[name title]|]; simpl;
     repeat case_match; done).
Qed.

Lemma cmd_spec_nonempty col : (0 <? String.length (cmd_spec col))%nat = true.
Proof.
  unfold cmd_spec. destruct (column_name_title col) as [name title].
  by destruct (0 <? String.length title)%nat.
Qed.

Lemma classify_foldl_rev2 columns : forall m cmd,
  exists m', foldl classify (m, cmd) columns = (m', default cmd (requested_cmd columns)) /\
    forall c, c ∈ m' <->
      c ∈ m \/ exists col, col ∈ columns /\ column_spec col = c /\
                 Rev1.is_cmd_column (column_name col) = false /\
                 Rev1.is_pid_column (column_name col) = false.
Proof.
  unfold requested_cmd.
  induction columns as [|col columns IH]; intros m cmd; cbn [foldl].
  - exists m. split; [done|]. intros c. split; [by left|].
    intros [?|(col & H & _)]; [done|]. by apply elem_of_nil in H.
  - rewrite classify_eq. cbn [List.filter].
    destruct (Rev1.is_cmd_column (column_name col)) eqn:Hcmd;
      [|destruct (Rev1.is_pid_column (column_name col)) eqn:Hpid].
    + destruct (IH m (cmd_spec col)) as (m' & -> & Hm'). exists m'. split.
      { f_equal. rewrite fmap_cons.
        destruct (cmd_spec <$> List.filter _ columns) as [|x l] eqn:Hl; [done|].
        rewrite last_cons_cons.
        by destruct (proj2 (last_is_Some (x :: l)) ltac:(done)) as [y ->]. }
      intros c. rewrite Hm'. split.
      * intros [?|(col' & ? & ? & ? & ?)]; [by left|]. right. exists col'.
        repeat split; [by apply list_elem_of_further | done..].
      * intros [?|(col' & [->|?]%elem_of_cons & ? & ? & ?)]; [by left | congruence |].
        right. by exists col'.
    + destruct (IH m cmd) as (m' & -> & Hm'). exists m'. split; [done|].
      intros c. rewrite Hm'. split.
      * intros [?|(col' & ? & ? & ? & ?)]; [by left|]. right. exists col'.
        repeat split; [by apply list_elem_of_further | done..].
      * intros [?|(col' & [->|?]%elem_of_cons & ? & ? & ?)]; [by left | congruence |].
        right. by exists col'.
    + destruct (IH ({[ column_spec col ]} ∪ m) cmd) as (m' & -> & Hm'). exists m'.
      split; [done|].
      intros c. rewrite Hm', elem_of_union, elem_of_singleton. split.
      * intros [[->|?]|(col' & ? & ? & ? & ?)]; [right | by left | right].
        -- exists col. repeat split; [apply list_elem_of_here | done..].
        -- exists col'. repeat split; [by apply list_elem_of_further | done..].
      * intros [?|(col' & [->|?]%elem_of_cons & ? & ? & ?)].
        -- by left; right.
        -- by left; left.
        -- right. by exists col'.
Qed.

Lemma foldl_o_options cols : forall res,
  foldl (fun res c => res ++ ["-o"; c]) res cols = res ++ o_options cols.
Proof.
  induction cols as [|c cols IH]; intros res; simpl.
  - by rewrite app_nil_r.
  - rewrite IH. by rewrite <- app_assoc.
Qed.

Lemma makePsCommand_columns_rev2 range columns :
  range_set_ok range -> columns <> [] ->
  exists others,
    NoDup others /\
    (forall c, c ∈ others <->
       exists col, col ∈ columns /\ column_spec col = c /\
         Rev1.is_cmd_column (column_name col) = false /\
         Rev1.is_pid_column (column_name col) = false) /\
    makePsCommand range columns =
      ["ps"; "-ewwo"; "pid,ppid"] ++ o_options others ++
      match requested_cmd columns with
      | Some c => ["-o"; c]
      | None => []
      end.
Proof.
  intros Hrange Hne. unfold makePsCommand.
  destruct columns as [|c0 columns]; [done|]. cbn [List.length Nat.eqb].
  destruct (classify_foldl_rev2 (c0 :: columns) ∅ "") as (m & -> & Hm).
  exists (range m). split; [|split].
  - rewrite (Hrange m). apply NoDup_elements.
  - intros c. rewrite (Hrange m), elem_of_elements, Hm. split.
    + intros [H|H]; [|done]. by apply elem_of_empty in H.
    + by right.
  - rewrite foldl_o_options.
    destruct (requested_cmd (c0 :: columns)) as [c|] eqn:Hreq; simpl.
    + assert (exists col, c = cmd_spec col) as [col ->].
      { unfold requested_cmd in Hreq. apply last_Some_elem_of in Hreq.
        apply list_elem_of_fmap in Hreq as (col & -> & _). by exists col. }
      rewrite cmd_spec_nonempty. by rewrite <- ?app_assoc.
    + by rewrite ?app_nil_r.
Qed.

End Rev2_Command.

(** C6 (amended). Without columns the command is [ps -ewwF] in both
    revisions. With columns, rstat.go passes one argument after [-ewwo]:
    [pid,ppid], then every other requested column once, as it was written
    (no suffix is cut off), in the order of the map iteration, then [cmd]
    when [args], [cmd] or [command] was requested. The later revision cuts
    off what follows a colon, keeps a [=title], and passes [pid,ppid] and
    then one [-o] option for every other column, once, in the order of the
    set iteration, and last an [-o] option for [cmd], with the title of its
    last request, when it was requested. *)
Theorem makePsCommand_invocation :
  (forall range, Rev1.makePsCommand range [] = ["ps"; "-ewwF"]) /\
  (forall range, Rev2.makePsCommand range [] = ["ps"; "-ewwF"]) /\
  (forall range columns,
     range_keys_ok range -> columns <> [] ->
     exists others,
       NoDup others /\
       (forall c, c ∈ others <->
          c ∈ columns /\ Rev1.is_cmd_column c = false /\ Rev1.is_pid_column c = false) /\
       Rev1.makePsCommand range columns =
         ["ps"; "-ewwo";
          "pid,ppid" +:+
          join_cols (others ++ if existsb Rev1.is_cmd_column columns then ["cmd"] else [])]) /\
  (forall range columns,
     range_set_ok range -> columns <> [] ->
     exists others,
       NoDup others /\
       (forall c, c ∈ others <->
          exists col, col ∈ columns /\ column_spec col = c /\
            Rev1.is_cmd_column (column_name col) = false /\
            Rev1.is_pid_column (column_name col) = false) /\
       Rev2.makePsCommand range columns =
         ["ps"; "-ewwo"; "pid,ppid"] ++ o_options others ++
         match requested_cmd columns with
         | Some c => ["-o"; c]
         | None => []
         end).
Proof.
  split; [done|]. split; [done|]. split.
  - apply Rev1_Command.makePsCommand_columns_rev1.
  - apply Rev2_Command.makePsCommand_columns_rev2.
Qed.

Lemma makePsCommand_invocation_witness :
  (exists others,
     NoDup others /\
     Rev1.makePsCommand (fun m => (map_to_list m).*1) ["%cpu"; "args"; "%mem"; "%cpu"] =
       ["ps"; "-ewwo"; "pid,ppid" +:+ join_cols (others ++ ["cmd"])]) /\
  (exists others,
     NoDup others /\
     Rev2.makePsCommand elements ["%cpu:5"; "args=COMMAND"; "%mem"; "%cpu"] =
       ["ps"; "-ewwo"; "pid,ppid"] ++ o_options others ++ ["-o"; "cmd=COMMAND"]).
Proof.
  destruct makePsCommand_invocation as (_ & _ & H1 & H2). split.
  - destruct (H1 (fun m => (map_to_list m).*1) ["%cpu"; "args"; "%mem"; "%cpu"])
      as (others & Hnd & _ & Heq); [by intros m | done |].
    exists others. split; [exact Hnd | exact Heq].
  - destruct (H2 elements ["%cpu:5"; "args=COMMAND"; "%mem"; "%cpu"])
      as (others & Hnd & _ & Heq); [by intros X | done |].
    exists others. split; [exact Hnd | exact Heq].
Defined.

(** C6, as stated, fails for a column with a width suffix: rstat.go passes
    the suffix on, and the later revision passes the column as an option of
    its own, not within one comma-separated argument. *)
Lemma makePsCommand_width_suffix :
  Rev1.makePsCommand (fun m => (map_to_list m).*1) ["comm:20"]
    = ["ps"; "-ewwo"; "pid,ppid,comm:20"] /\
  Rev2.makePsCommand elements ["comm:20"]
    = ["ps"; "-ewwo"; "pid,ppid"; "-o"; "comm"] /\
  Rev1.makePsCommand (fun m => (map_to_list m).*1) ["comm:20"]
    <> ["ps"; "-ewwo"; "pid,ppid,comm"] /\
  Rev2.makePsCommand elements ["comm:20"]
    <> ["ps"; "-ewwo"; "pid,ppid,comm"].
Proof. repeat split; by vm_compute. Qed.

(** ** Trees of parent links *)

Section Forest.
Variable parent : loc -> option loc.
Variable L : list loc.
Variable root : loc.
Hypothesis L_nodup : NoDup L.
Hypothesis parent_closed : forall l p, parent l = Some p -> p ∈ L.
(** The root is not among its own ancestors. *)
Hypothesis no_cycle : forall n, up parent (S n) root <> Some root.

Lemma up_add a : forall b l, up parent (a + b) l = up parent a l ≫= up parent b.
Proof.
  induction a as [|a IH]; intros b l; simpl; [done|].
  destruct (parent l) as [p|]; simpl; [apply IH | done].
Qed.

Lemma up_S_last n l : up parent (S n) l = up parent n l ≫= parent.
Proof.
  replace (S n) with (n + 1)%nat by lia. rewrite up_add.
  destruct (up parent n l) as [x|]; simpl; [|done]. by destruct (parent x).
Qed.

Lemma up_in_L n : forall l x, l ∈ L -> up parent n l = Some x -> x ∈ L.
Proof.
  induction n as [|n IH]; intros l x Hl; simpl.
  - by intros [= <-].
  - destruct (parent l) as [p|] eqn:Hp; simpl; [|done].
    apply IH. by apply (parent_closed l).
Qed.

(** The distance to the root is unique. *)
Lemma depth_unique d d' l :
  up parent d l = Some root -> up parent d' l = Some root -> d = d'.
Proof.
  assert (Hlt : forall a b x, (a < b)%nat ->
    up parent a x = Some root -> up parent b x = Some root -> False).
  { intros a b x Hab Ha Hb.
    replace b with (a + S (b - a - 1))%nat in Hb by lia.
    rewrite up_add, Ha in Hb. simpl in Hb. by apply no_cycle in Hb. }
  intros Hd Hd'. destruct (Nat.lt_trichotomy d d') as [H|[H|H]]; [|done|].
  - destruct (Hlt d d' l H Hd Hd').
  - destruct (Hlt d' d l H Hd' Hd).
Qed.

Lemma ancestors_depth n : forall l x,
  up parent n l = Some root -> x ∈ ancestors parent n l ->
  exists j, (j <= n)%nat /\ up parent j x = Some root.
Proof.
  induction n as [|n IH]; intros l x Hup Hx; simpl in *.
  - apply list_elem_of_singleton in Hx as ->. exists 0%nat. by split.
  - apply elem_of_cons in Hx as [->|Hx].
    + exists (S n). by split.
    + destruct (parent l) as [p|]; simpl in *; [|done].
      destruct (IH p x Hup Hx) as (j & Hj & Hjx). exists j. split; [lia | done].
Qed.

Lemma ancestors_in_L n : forall l x, l ∈ L -> x ∈ ancestors parent n l -> x ∈ L.
Proof.
  induction n as [|n IH]; intros l x Hl Hx; simpl in *.
  - by apply list_elem_of_singleton in Hx as ->.
  - apply elem_of_cons in Hx as [->|Hx]; [done|].
    destruct (parent l) as [p|] eqn:Hp; [|by apply elem_of_nil in Hx].
    apply (IH p); [by apply (parent_closed l) | done].
Qed.

Lemma ancestors_NoDup n : forall l, up parent n l = Some root -> NoDup (ancestors parent n l).
Proof.
  induction n as [|n IH]; intros l Hup; simpl in *.
  - apply NoDup_singleton.
  - destruct (parent l) as [p|] eqn:Hp; simpl in *; [|done].
    apply NoDup_cons. split; [|by apply IH].
    intros Hl. destruct (ancestors_depth n p l Hup Hl) as (j & Hj & Hjl).
    assert (HS : up parent (S n) l = Some root) by (simpl; by rewrite Hp).
    pose proof (depth_unique _ _ _ Hjl HS). lia.
Qed.

Lemma ancestors_length n : forall l,
  up parent n l = Some root -> List.length (ancestors parent n l) = S n.
Proof.
  induction n as [|n IH]; intros l Hup; simpl in *; [done|].
  destruct (parent l) as [p|]; simpl in *; [|done]. by rewrite IH.
Qed.

(** No location is farther from the root than there are locations. *)
Lemma depth_bound d l : l ∈ L -> up parent d l = Some root -> (d < List.length L)%nat.
Proof.
  intros Hl Hup.
  assert (Hsub : ancestors parent d l ⊆+ L).
  { apply NoDup_submseteq; [by apply ancestors_NoDup|].
    intros x Hx. by apply (ancestors_in_L d l). }
  apply submseteq_length in Hsub. rewrite ancestors_length in Hsub by done. lia.
Qed.

Lemma elem_of_kids c i : c ∈ kids parent L i <-> c ∈ L /\ parent c = Some i.
Proof.
  unfold kids. rewrite !list_elem_of_In, filter_In.
  by rewrite bool_decide_eq_true.
Qed.

Lemma kids_NoDup i : NoDup (kids parent L i).
Proof.
  unfold kids. apply NoDup_ListNoDup, List.NoDup_filter. by apply NoDup_ListNoDup.
Qed.

Lemma walk_mono fuel : forall l ls,
  walk parent L fuel l = Some ls -> walk parent L (S fuel) l = Some ls.
Proof.
  induction fuel as [|fuel IH]; intros l ls; [done|].
  intros H. change (walk parent L (S (S fuel)) l)
    with (ls ← mapM (walk parent L (S fuel)) (kids parent L l); Some (l :: concat ls)).
  simpl in H. destruct (mapM (walk parent L fuel) (kids parent L l)) as [lss|] eqn:Hm; [|done].
  simpl in H. apply mapM_Some in Hm.
  assert (Hm' : mapM (walk parent L (S fuel)) (kids parent L l) = Some lss).
  { apply mapM_Some. eapply Forall2_impl; [exact Hm|]. intros x y. apply IH. }
  by rewrite Hm'.
Qed.

Lemma walk_mono_le fuel fuel' l ls :
  (fuel <= fuel')%nat -> walk parent L fuel l = Some ls -> walk parent L fuel' l = Some ls.
Proof. induction 1; [done|]. intros. by apply walk_mono; auto. Qed.

Lemma below_same_depth d c1 c2 x :
  up parent d c1 = Some root -> up parent d c2 = Some root ->
  below parent L c1 x -> below parent L c2 x -> c1 = c2.
Proof.
  intros H1 H2 [_ [e1 He1]] [_ [e2 He2]].
  assert (Hx1 : up parent (e1 + d) x = Some root) by (by rewrite up_add, He1).
  assert (Hx2 : up parent (e2 + d) x = Some root) by (by rewrite up_add, He2).
  assert (e1 = e2) as -> by (pose proof (depth_unique _ _ _ Hx1 Hx2); lia).
  congruence.
Qed.

(** The walks from the children of [l], one after the other. *)
Lemma walk_kids fuel d l :
  (forall c, c ∈ L -> up parent (S d) c = Some root ->
     exists ls, walk parent L fuel c = Some ls /\ NoDup ls /\ forall x, x ∈ ls <-> below parent L c x) ->
  up parent d l = Some root ->
  forall cs, NoDup cs -> (forall c, c ∈ cs -> c ∈ L /\ parent c = Some l) ->
  exists lss, mapM (walk parent L fuel) cs = Some lss /\ NoDup (concat lss) /\
    forall x, x ∈ concat lss <-> exists c, c ∈ cs /\ below parent L c x.
Proof.
  intros IH Hl. induction cs as [|c cs IHcs]; intros Hnd Hcs.
  - exists []. split; [done|]. split; [apply NoDup_nil_2|].
    intros x. simpl. split; [by intros ?%elem_of_nil|].
    by intros (c & ?%elem_of_nil & _).
  - apply NoDup_cons in Hnd as [Hc Hnd].
    assert (Hup : forall c', c' ∈ c :: cs -> up parent (S d) c' = Some root).
    { intros c' Hc'. destruct (Hcs c' Hc') as [_ Hp]. simpl. by rewrite Hp. }
    destruct (IH c) as (ls & Hw & Hls & Hin).
    { apply Hcs, list_elem_of_here. }
    { apply Hup, list_elem_of_here. }
    destruct IHcs as (lss & Hm & Hlss & Hin'); [done | |].
    { intros c' Hc'. by apply Hcs, list_elem_of_further. }
    exists (ls :: lss). split; [|split].
    + simpl. rewrite Hw. simpl. by rewrite Hm.
    + simpl. apply NoDup_app. split; [done|]. split; [|done].
      intros x Hx Hx'. apply Hin in Hx. apply Hin' in Hx' as (c' & Hc' & Hx').
      assert (c = c') as ->; [|done].
      apply (below_same_depth (S d) c c' x); [| |done..].
      * apply Hup, list_elem_of_here.
      * by apply Hup, list_elem_of_further.
    + intros x. simpl. rewrite elem_of_app, Hin, Hin'. split.
      * intros [Hx|(c' & Hc' & Hx)].
        -- exists c. split; [apply list_elem_of_here | done].
        -- exists c'. split; [by apply list_elem_of_further | done].
      * intros (c' & [->|Hc']%elem_of_cons & Hx); [by left|]. right. by exists c'.
Qed.

(** With fuel for the levels below, the walk from a location that is
    linked to the root visits, once each, the locations below parent L it. *)
Lemma walk_spec fuel : forall d l,
  l ∈ L -> up parent d l = Some root -> (List.length L <= fuel + d)%nat ->
  exists ls, walk parent L fuel l = Some ls /\ NoDup ls /\ forall x, x ∈ ls <-> below parent L l x.
Proof.
  induction fuel as [|fuel IH]; intros d l Hl Hup Hfuel.
  - pose proof (depth_bound d l Hl Hup). simpl in Hfuel. lia.
  - destruct (walk_kids fuel d l) with (cs := kids parent L l) as (lss & Hm & Hnd & Hin).
    + intros c Hc Hcup. apply (IH (S d)); [done | done | lia].
    + done.
    + apply kids_NoDup.
    + intros c. apply elem_of_kids.
    + exists (l :: concat lss). split; [|split].
      * simpl. by rewrite Hm.
      * apply NoDup_cons. split; [|done].
        intros (c & [Hc Hp]%elem_of_kids & _ & e & He)%Hin.
        assert (H1 : up parent (S e + d) l = Some root).
        { rewrite up_add, up_S_last, He. simpl. by rewrite Hp. }
        pose proof (depth_unique _ _ _ H1 Hup). lia.
      * intros x. rewrite elem_of_cons, Hin. split.
        -- intros [->|(c & [Hc Hp]%elem_of_kids & Hx & e & He)].
           ++ split; [done|]. by exists 0%nat.
           ++ split; [done|]. exists (S e). rewrite up_S_last, He. done.
        -- intros [Hx [[|e] He]].
           ++ left. simpl in He. congruence.
           ++ right. rewrite up_S_last in He.
              destruct (up parent e x) as [c|] eqn:Hc; [|done]. simpl in He.
              exists c. split.
              ** apply elem_of_kids. split; [|done]. by apply (up_in_L e x).
              ** split; [done|]. by exists e.
Qed.

(** From the root, fuel for the number of locations is enough. *)
Lemma walk_root :
  root ∈ L ->
  exists ls, NoDup ls /\ (forall x, x ∈ ls <-> below parent L root x) /\
    forall fuel, (List.length L <= fuel)%nat -> walk parent L fuel root = Some ls.
Proof.
  intros Hroot.
  destruct (walk_spec (List.length L) 0 root) as (ls & Hw & Hnd & Hin); [done | done | lia |].
  exists ls. split; [done|]. split; [done|].
  intros fuel Hfuel. by apply (walk_mono_le (List.length L)).
Qed.

End Forest.

(** ** Positions of records *)

Lemma last_pos_Some stats : forall k i,
  last_pos stats k = Some i ->
  exists r, stats !! i = Some r /\ getPid r "PID" = Ok k /\
    forall j r', (i < j)%nat -> stats !! j = Some r' -> getPid r' "PID" <> Ok k.
Proof.
  induction stats as [|r rest IH]; intros k i; simpl; [done|].
  destruct (last_pos rest k) as [i'|] eqn:Hrest.
  - intros [= <-]. destruct (IH k i' Hrest) as (r0 & Hr0 & Hk & Hlast).
    exists r0. split; [done|]. split; [done|].
    intros [|j] r' Hj; [lia|]. simpl. apply Hlast. lia.
  - case_bool_decide as Hr; [|done]. intros [= <-].
    exists r. split; [done|]. split; [done|].
    intros [|j] r' Hj; [lia|]. simpl. intros Hj' Hk.
    assert (Hnone : forall stats' k', last_pos stats' k' = None ->
      forall j r', stats' !! j = Some r' -> getPid r' "PID" <> Ok k').
    { clear. induction stats' as [|r rest IH]; intros k' H j r' Hj; [done|].
      simpl in H. destruct (last_pos rest k') eqn:Hrest; [done|].
      case_bool_decide; [done|]. destruct j as [|j]; simpl in Hj.
      - by injection Hj as <-.
      - by apply (IH k' Hrest j). }
    by apply (Hnone rest k Hrest j r').
Qed.

Lemma last_pos_None stats k :
  last_pos stats k = None ->
  forall r, r ∈ stats -> getPid r "PID" <> Ok k.
Proof.
  induction stats as [|r0 rest IH]; intros H r Hr; [by apply elem_of_nil in Hr|].
  simpl in H. destruct (last_pos rest k) eqn:Hrest; [done|].
  case_bool_decide; [done|].
  apply elem_of_cons in Hr as [->|Hr]; [done|]. by apply IH.
Qed.

Lemma last_pos_is_Some stats k r :
  r ∈ stats -> getPid r "PID" = Ok k -> is_Some (last_pos stats k).
Proof.
  intros Hr Hk. destruct (last_pos stats k) eqn:H; [done|].
  by destruct (last_pos_None stats k H r Hr).
Qed.

Lemma last_pos_lt stats k i : last_pos stats k = Some i -> (i < List.length stats)%nat.
Proof.
  intros (r & Hr & _)%last_pos_Some. by apply lookup_lt_Some in Hr.
Qed.

(** Two pids have different last positions. *)
Lemma last_pos_inj stats k k' i :
  last_pos stats k = Some i -> last_pos stats k' = Some i -> k = k'.
Proof.
  intros (r & Hr & Hk & _)%last_pos_Some (r' & Hr' & Hk' & _)%last_pos_Some.
  congruence.
Qed.

Lemma kids_ext parent parent' L i :
  (forall l, parent l = parent' l) -> kids parent L i = kids parent' L i.
Proof.
  intros H. unfold kids. induction L as [|l L IH]; simpl; [done|].
  by rewrite H, IH.
Qed.

(** ** buildProcTree of rstat.go *)

Module Rev1_Build.
Import Rev1 Rev1_Store.

(** The first loop creates one node object per record, in order, and leaves
    in the index, for every pid, the location of the last one. *)
Lemma index_loop_spec stats : forall h nodes,
  Forall (fun r => is_ok (getPid r "PID") = true) stats ->
  exists nodes',
    index_loop stats h nodes = Ok (h ++ List.map cell stats, nodes') /\
    forall k, nodes' !! k =
      match last_pos stats k with
      | Some i => Some (List.length h + i)%nat
      | None => nodes !! k
      end.
Proof.
  induction stats as [|r rest IH]; intros h nodes Hok.
  - exists nodes. split; [|done]. simpl. by rewrite app_nil_r.
  - apply Forall_cons in Hok as [Hr Hok]. cbn [index_loop].
    destruct (getPid r "PID") as [pid|] eqn:Hpid; [|done]. cbn [mbind result_bind].
    destruct (IH (h ++ [Mem.mkProcNode pid r []]) (<[pid := List.length h]> nodes) Hok)
      as (nodes' & -> & Hnodes).
    exists nodes'. split.
    + f_equal. f_equal. rewrite <- app_assoc. simpl. unfold cell at 2, pid_of.
      by rewrite Hpid.
    + intros k. rewrite Hnodes. simpl. rewrite length_app. simpl.
      destruct (last_pos rest k) as [i|]; [f_equal; lia|].
      case_bool_decide as Hk.
      * assert (pid = k) as -> by congruence. rewrite lookup_insert_eq. f_equal. lia.
      * rewrite lookup_insert_ne; [done|]. congruence.
Qed.

Lemma parent_loc_alter nodes h f p l :
  (forall obj, Mem.Stats (f obj) = Mem.Stats obj) ->
  parent_loc nodes (alter f p h) l = parent_loc nodes h l.
Proof.
  intros Hf. unfold parent_loc.
  destruct (decide (l = p)) as [->|Hne].
  - rewrite list_lookup_alter_eq. destruct (h !! p) as [obj|]; simpl; [|done].
    by rewrite Hf.
  - by rewrite list_lookup_alter_ne by congruence.
Qed.

Lemma link_loop_spec nodes entries : forall h,
  (forall k l, (k, l) ∈ entries ->
     exists obj, h !! l = Some obj /\ is_ok (getPid (Mem.Stats obj) "PPID") = true) ->
  link_loop nodes entries h = Ok (linked nodes entries h).
Proof.
  induction entries as [|[k l] rest IH]; intros h Hok.
  - simpl. f_equal. unfold linked. apply list_eq. intros i.
    rewrite list_lookup_imap. destruct (h !! i) as [[]|]; simpl; [|done].
    by rewrite app_nil_r.
  - cbn [link_loop].
    destruct (Hok k l) as (obj & Hobj & Hppid); [apply list_elem_of_here|].
    rewrite Hobj. destruct (getPid (Mem.Stats obj) "PPID") as [q|] eqn:Hq; [|done].
    cbn [mbind result_bind].
    assert (Hpl : parent_loc nodes h l = nodes !! q).
    { unfold parent_loc. rewrite Hobj. simpl. by rewrite Hq. }
    destruct (nodes !! q) as [p|] eqn:Hp.
    + rewrite IH.
      2:{ intros k' l' Hin.
          destruct (Hok k' l') as (obj' & Hobj' & Hok'); [by apply list_elem_of_further|].
          destruct (decide (l' = p)) as [->|Hne].
          - exists (add_child l obj'). by rewrite list_lookup_alter_eq, Hobj'.
          - exists obj'. by rewrite list_lookup_alter_ne by congruence. }
      f_equal. unfold linked. apply list_eq. intros i.
      rewrite !list_lookup_imap. cbn [fmap list_fmap snd].
      rewrite (kids_ext (parent_loc nodes (alter (add_child l) p h)) (parent_loc nodes h))
        by (intros; by apply parent_loc_alter).
      unfold kids at 2. cbn [List.filter]. fold (kids (parent_loc nodes h) rest.*2 i).
      rewrite Hpl.
      destruct (decide (i = p)) as [->|Hne].
      * rewrite list_lookup_alter_eq. destruct (h !! p) as [objp|]; simpl; [|done].
        rewrite bool_decide_eq_true_2 by done. by rewrite <- app_assoc.
      * rewrite list_lookup_alter_ne by congruence.
        rewrite bool_decide_eq_false_2 by congruence. done.
    + rewrite IH.
      2:{ intros k' l' Hin. apply (Hok k' l'). by apply list_elem_of_further. }
      f_equal. unfold linked. apply list_eq. intros i.
      rewrite !list_lookup_imap. cbn [fmap list_fmap snd].
      unfold kids at 2. cbn [List.filter]. fold (kids (parent_loc nodes h) rest.*2 i).
      rewrite Hpl. by rewrite bool_decide_eq_false_2 by done.
Qed.

(** The locations kept in the index are those of the live records, once
    each. *)
Lemma index_locs range (nodes : gmap Z loc) stats :
  range_entries_ok range -> (forall k, nodes !! k = last_pos stats k) ->
  NoDup (range nodes).*2 /\ forall l, l ∈ (range nodes).*2 <-> live stats l.
Proof.
  intros Hrange Hnodes. split.
  - rewrite (Hrange nodes). apply NoDup_fmap_2_strong; [|apply NoDup_map_to_list].
    intros [k l] [k' l'] Hx%elem_of_map_to_list Hy%elem_of_map_to_list Heq.
    simpl in Heq. subst l'. rewrite Hnodes in Hx, Hy.
    by rewrite (last_pos_inj _ _ _ _ Hx Hy).
  - intros l. rewrite (Hrange nodes), list_elem_of_fmap. unfold live. split.
    + intros ([k l'] & -> & Hkl%elem_of_map_to_list). exists k. by rewrite <- Hnodes.
    + intros [k Hk]. exists (k, l). split; [done|].
      apply elem_of_map_to_list. by rewrite Hnodes.
Qed.

Lemma parent_loc_cells (nodes : gmap Z loc) stats l :
  (forall k, nodes !! k = last_pos stats k) ->
  parent_loc nodes (List.map cell stats) l = parent_pos stats l.
Proof.
  intros Hnodes. unfold parent_loc, parent_pos.
  change (List.map cell stats) with (cell <$> stats). rewrite list_lookup_fmap.
  destruct (stats !! l) as [r|]; simpl; [|done].
  destruct (getPid r "PPID"); [apply Hnodes | done].
Qed.

(** [buildProcTree] when the identifiers of every record can be
    extracted. *)
Lemma buildProcTree_spec range stats :
  range_entries_ok range -> Forall ids_ok stats ->
  exists nodes : gmap Z loc,
    (forall k, nodes !! k = last_pos stats k) /\
    buildProcTree range stats =
      match last_pos stats 1 with
      | Some root => Ok (linked nodes (range nodes) (List.map cell stats), root)
      | None => Err RootNotFoundError
      end.
Proof.
  intros Hrange Hok. unfold buildProcTree.
  destruct (index_loop_spec stats [] ∅) as (nodes & -> & Hnodes).
  { eapply Forall_impl; [exact Hok|]. by intros r [? _]. }
  assert (Hn : forall k, nodes !! k = last_pos stats k).
  { intros k. rewrite Hnodes. destruct (last_pos stats k); [done|]. apply lookup_empty. }
  exists nodes. split; [done|]. cbn [mbind result_bind app].
  rewrite link_loop_spec.
  - cbn [mbind result_bind]. by rewrite Hn.
  - intros k l Hkl. rewrite (Hrange nodes) in Hkl. apply elem_of_map_to_list in Hkl.
    rewrite Hn in Hkl. apply last_pos_Some in Hkl as (r & Hr & _).
    exists (cell r). split.
    + change (List.map cell stats) with (cell <$> stats). by rewrite list_lookup_fmap, Hr.
    + simpl. rewrite Forall_forall in Hok. apply (Hok r).
      by apply list_elem_of_lookup_2 in Hr.
Qed.

(** The node object of a record in the store that is returned. *)
Lemma linked_lookup range (nodes : gmap Z loc) stats l r :
  (forall k, nodes !! k = last_pos stats k) ->
  stats !! l = Some r ->
  linked nodes (range nodes) (List.map cell stats) !! l =
    Some (Mem.mkProcNode (pid_of r) r (kids (parent_pos stats) (range nodes).*2 l)).
Proof.
  intros Hnodes Hr. unfold linked. rewrite list_lookup_imap.
  change (List.map cell stats) with (cell <$> stats). rewrite list_lookup_fmap, Hr.
  simpl. f_equal. f_equal. apply kids_ext. intros x.
  change (cell <$> stats) with (List.map cell stats). by apply parent_loc_cells.
Qed.

End Rev1_Build.

Lemma last_pos_last stats k l r :
  stats !! l = Some r -> getPid r "PID" = Ok k ->
  (forall j r', (l < j)%nat -> stats !! j = Some r' -> getPid r' "PID" <> Ok k) ->
  last_pos stats k = Some l.
Proof.
  intros Hr Hk Hlast.
  destruct (last_pos_is_Some stats k r) as [l' Hl']; [by eapply list_elem_of_lookup_2 | done |].
  rewrite Hl'. f_equal.
  apply last_pos_Some in Hl' as (r' & Hr' & Hk' & Hlast').
  destruct (Nat.lt_trichotomy l l') as [H|[H|H]]; [|done|].
  - by destruct (Hlast l' r' H Hr').
  - by destruct (Hlast' l r H Hr).
Qed.

Lemma pid_of_Ok r k : getPid r "PID" = Ok k -> pid_of r = k.
Proof. unfold pid_of. by intros ->. Qed.

(** ** The tree of rstat.go *)

(** When the [Children] of the store are the [kids] of the parent links, the
    tree at a location has the shape of the walk from it. *)
Lemma tree_at_walk (h : list Rev1.Mem.ProcNode) parent L :
  (forall l, l ∈ L -> exists obj, h !! l = Some obj /\ Rev1.Mem.Children obj = kids parent L l) ->
  forall fuel l ls, l ∈ L -> walk parent L fuel l = Some ls ->
  exists t, Rev1.tree_at fuel h l = Some t /\ stands_for h (Rev1.preorder t) ls.
Proof.
  intros Hh. induction fuel as [|fuel IH]; intros l ls Hl Hw; [done|].
  simpl in Hw. destruct (mapM (walk parent L fuel) (kids parent L l)) as [lss|] eqn:Hm; [|done].
  injection Hw as <-. destruct (Hh l Hl) as (obj & Hobj & Hkids).
  cbn [Rev1.tree_at]. rewrite Hobj. cbn [mbind option_bind]. rewrite Hkids.
  assert (Hts : exists ts, mapM (Rev1.tree_at fuel h) (kids parent L l) = Some ts /\
                  stands_for h (flat_map Rev1.preorder ts) (concat lss)).
  { apply mapM_Some in Hm.
    assert (Hin : forall c, c ∈ kids parent L l -> c ∈ L).
    { intros c Hc. by apply elem_of_kids in Hc as [? _]. }
    clear Hkids. induction Hm as [|c ls' cs lss' Hc Hcs IHcs].
    - exists []. split; [done|]. constructor.
    - destruct (IH c ls') as (t & Ht & Hst); [apply Hin, list_elem_of_here | done |].
      destruct IHcs as (ts & Hts & Hsts).
      { intros c' Hc'. by apply Hin, list_elem_of_further. }
      exists (t :: ts). split.
      + simpl. rewrite Ht. simpl. by rewrite Hts.
      + simpl. by apply Forall2_app. }
  destruct Hts as (ts & -> & Hst). simpl. eexists. split; [done|].
  simpl. constructor; [|done]. by exists obj.
Qed.

Lemma tree_at_mono (h : list Rev1.Mem.ProcNode) fuel : forall l t,
  Rev1.tree_at fuel h l = Some t -> Rev1.tree_at (S fuel) h l = Some t.
Proof.
  induction fuel as [|fuel IH]; intros l t; [done|].
  intros H.
  change (Rev1.tree_at (S (S fuel)) h l) with
    (obj ← h !! l; ts ← mapM (Rev1.tree_at (S fuel) h) (Rev1.Mem.Children obj);
     Some (Rev1.mkProcNode (Rev1.Mem.Pid obj) (Rev1.Mem.Stats obj) ts)).
  simpl in H. destruct (h !! l) as [obj|]; [|done]. simpl in H. cbn [mbind option_bind].
  destruct (mapM (Rev1.tree_at fuel h) (Rev1.Mem.Children obj)) as [ts|] eqn:Hm; [|done].
  apply mapM_Some in Hm.
  assert (Hm' : mapM (Rev1.tree_at (S fuel) h) (Rev1.Mem.Children obj) = Some ts).
  { apply mapM_Some. eapply Forall2_impl; [exact Hm|]. intros x y. apply IH. }
  by rewrite Hm'.
Qed.

Lemma tree_at_mono_le (h : list Rev1.Mem.ProcNode) fuel fuel' l t :
  (fuel <= fuel')%nat -> Rev1.tree_at fuel h l = Some t -> Rev1.tree_at fuel' h l = Some t.
Proof. induction 1; [done|]. intros. by apply tree_at_mono; auto. Qed.

Lemma Forall2_impl_elem {A B} (P Q : A -> B -> Prop) l k :
  Forall2 P l k -> (forall x y, y ∈ k -> P x y -> Q x y) -> Forall2 Q l k.
Proof.
  induction 1 as [|x y l k Hxy Hlk IH]; intros HPQ; constructor.
  - apply HPQ; [apply list_elem_of_here | done].
  - apply IH. intros x' y' Hy'. apply HPQ. by apply list_elem_of_further.
Qed.

(** Nodes that stand for different positions have different keys. *)
Lemma NoDup_keys {A B C} `{EqDecision C} (g : A -> C) (F : C -> option B) ns ls :
  Forall2 (fun n l => F (g n) = Some l) ns ls -> NoDup ls -> NoDup (g <$> ns).
Proof.
  induction 1 as [|n l ns ls Hnl Hrest IH]; intros Hnd; [constructor|].
  apply NoDup_cons in Hnd as [Hl Hnd]. simpl. apply NoDup_cons. split; [|by apply IH].
  intros (n' & Heq & Hn')%list_elem_of_fmap.
  apply list_elem_of_lookup in Hn' as [i Hi].
  destruct (Forall2_lookup_l _ _ _ _ _ Hrest Hi) as (l' & Hl' & Hfl').
  rewrite <- Heq, Hnl in Hfl'. injection Hfl' as <-.
  by apply list_elem_of_lookup_2 in Hl'.
Qed.

(** The live positions are at most as many as the records. *)
Lemma live_length stats L :
  NoDup L -> (forall l, l ∈ L -> live stats l) -> (List.length L <= List.length stats)%nat.
Proof.
  intros Hnd Hlive.
  assert (Hsub : L ⊆+ seq 0 (List.length stats)).
  { apply NoDup_submseteq; [done|]. intros l [k Hk%last_pos_lt]%Hlive.
    apply elem_of_seq. lia. }
  apply submseteq_length in Hsub. by rewrite length_seq in Hsub.
Qed.

Lemma parent_pos_live stats l p : parent_pos stats l = Some p -> live stats p.
Proof.
  unfold parent_pos. destruct (stats !! l) as [r|]; simpl; [|done].
  destruct (getPid r "PPID") as [q|]; [|done]. intros H. by exists q.
Qed.

(** The tree that [buildProcTree] of rstat.go returns. *)
Lemma buildProcTree_tree_rev1 (range : gmap Z loc -> list (Z * loc)) (stats : list Record) :
  range_entries_ok range -> Forall ids_ok stats ->
  (exists r, r ∈ stats /\ getPid r "PID" = Ok 1) ->
  (forall root n, last_pos stats 1 = Some root ->
     up (parent_pos stats) (S n) root <> Some root) ->
  exists h root t order,
    Rev1.buildProcTree range stats = Ok (h, root) /\
    (forall fuel, (List.length stats <= fuel)%nat -> Rev1.tree_at fuel h root = Some t) /\
    Rev1.Pid t = 1 /\
    NoDup order /\
    (forall l, l ∈ order <-> traces_to_root stats l) /\
    Forall2 (fun n l => exists r, stats !! l = Some r /\
                          getPid r "PID" = Ok (Rev1.Pid n) /\ Rev1.Stats n = r)
            (Rev1.preorder t) order /\
    NoDup (Rev1.Pid <$> Rev1.preorder t) /\
    (forall (St : Type) (fn : Z -> Record -> St -> St) (st : St) fuel,
       (2 * List.length stats <= fuel)%nat ->
       Rev1.ForEach fn fuel t st = Some (visit_all fn (Rev1.preorder t) st)).
Proof.
  intros Hrange Hok (r1 & Hr1 & Hk1) Hnc.
  destruct (Rev1_Build.buildProcTree_spec range stats Hrange Hok) as (nodes & Hnodes & Hbuild).
  destruct (last_pos_is_Some stats 1 r1 Hr1 Hk1) as [root Hroot]. rewrite Hroot in Hbuild.
  destruct (Rev1_Build.index_locs range nodes stats Hrange Hnodes) as [HL_nd HL_in].
  set (L := (range nodes).*2) in *.
  set (h := Rev1_Store.linked nodes (range nodes) (List.map Rev1_Store.cell stats)) in *.
  assert (Hclosed : forall l p, parent_pos stats l = Some p -> p ∈ L).
  { intros l p Hp. apply HL_in. by apply (parent_pos_live stats l). }
  assert (HrootL : root ∈ L) by (apply HL_in; by exists 1).
  destruct (walk_root (parent_pos stats) L root HL_nd Hclosed (fun n => Hnc root n Hroot) HrootL)
    as (order & Hnd & Hin & Hwalk).
  assert (Hlen : (List.length L <= List.length stats)%nat).
  { apply live_length; [done|]. intros l. apply HL_in. }
  assert (Hh : forall l, l ∈ L -> exists obj,
             h !! l = Some obj /\ Rev1.Mem.Children obj = kids (parent_pos stats) L l).
  { intros l [k Hk]%HL_in. apply last_pos_Some in Hk as (r & Hr & _).
    eexists. split; [by apply Rev1_Build.linked_lookup | done]. }
  destruct (tree_at_walk h (parent_pos stats) L Hh (List.length stats) root order HrootL)
    as (t & Ht & Hst); [by apply Hwalk|].
  assert (Hrec : Forall2 (fun n l => last_pos stats (Rev1.Pid n) = Some l /\
                   exists r, stats !! l = Some r /\
                     getPid r "PID" = Ok (Rev1.Pid n) /\ Rev1.Stats n = r)
                   (Rev1.preorder t) order).
  { eapply Forall2_impl_elem; [exact Hst|].
    intros n l [[k Hk]%HL_in _]%Hin (obj & Hobj & Hpid & Hstats).
    pose proof Hk as (r & Hr & Hkr & _)%last_pos_Some.
    unfold h in Hobj. rewrite (Rev1_Build.linked_lookup range nodes stats l r Hnodes Hr) in Hobj.
    injection Hobj as <-. simpl in Hpid, Hstats. rewrite (pid_of_Ok r k Hkr) in Hpid.
    subst k. split; [done|]. by exists r. }
  exists h, root, t, order. split; [done|]. split; [|split; [|split; [|split; [|split; [|split]]]]].
  - intros fuel Hfuel. by apply (tree_at_mono_le h (List.length stats)).
  - destruct t as [p s cs]. simpl in Hrec. destruct order as [|l order]; [inversion Hrec|].
    apply Forall2_cons in Hrec as [[Hl _] _]. simpl in Hl.
    assert (Hl0 : l = root).
    { destruct (List.length stats) as [|fuel] eqn:Hfu; [done|].
      specialize (Hwalk (S fuel) Hlen). simpl in Hwalk.
      destruct (mapM _ _) in Hwalk; [|done]. by injection Hwalk as -> _. }
    subst l. apply (last_pos_inj stats p 1 root Hl Hroot).
  - done.
  - intros l. rewrite Hin. unfold traces_to_root. split.
    + intros [Hl [e He]]. split; [by apply HL_in|]. by exists root, e.
    + intros [Hl (root' & e & Hroot' & He)]. split; [by apply HL_in|].
      exists e. congruence.
  - eapply Forall2_impl; [exact Hrec|]. by intros n l [_ ?].
  - apply (NoDup_keys Rev1.Pid (last_pos stats) _ order); [|done].
    eapply Forall2_impl; [exact Hrec|]. by intros n l [? _].
  - intros St fn st fuel Hfuel. apply Rev1_Traversal.ForEach_spec.
    apply Forall2_length in Hrec. rewrite Hrec.
    assert ((List.length order <= List.length stats)%nat); [|lia].
    apply live_length; [done|]. intros l [Hl _]%Hin. by apply HL_in.
Qed.

(** ** buildProcTree of the later revision *)

Module Rev2_Build.
Import Rev2 Rev2_Store.

Lemma index_loop_spec_rev2 stats : forall h nodes,
  Forall ids_ok stats ->
  exists nodes',
    index_loop stats h nodes = Ok (h ++ List.map cell stats, nodes') /\
    forall k, nodes' !! k =
      match last_pos stats k with
      | Some i => Some (List.length h + i)%nat
      | None => nodes !! k
      end.
Proof.
  induction stats as [|r rest IH]; intros h nodes Hok.
  - exists nodes. split; [|done]. simpl. by rewrite app_nil_r.
  - apply Forall_cons in Hok as [[Hr Hr'] Hok]. cbn [index_loop].
    destruct (getPid r "PID") as [pid|] eqn:Hpid; [|done].
    destruct (getPid r "PPID") as [ppid|] eqn:Hppid; [|done].
    cbn [mbind result_bind].
    destruct (IH (h ++ [Mem.mkProcNode pid ppid (delete "PPID" (delete "PID" r)) []])
                 (<[pid := List.length h]> nodes) Hok) as (nodes' & -> & Hnodes).
    exists nodes'. split.
    + f_equal. f_equal. rewrite <- app_assoc. simpl. unfold cell at 2, pid_of, ppid_of.
      by rewrite Hpid, Hppid.
    + intros k. rewrite Hnodes. simpl. rewrite length_app. simpl.
      destruct (last_pos rest k) as [i|]; [f_equal; lia|].
      case_bool_decide as Hk.
      * assert (pid = k) as -> by congruence. rewrite lookup_insert_eq. f_equal. lia.
      * rewrite lookup_insert_ne; [done|]. congruence.
Qed.

Lemma parent_loc_alter_rev2 nodes h f p l :
  (forall obj, Mem.ParentPid (f obj) = Mem.ParentPid obj) ->
  parent_loc nodes (alter f p h) l = parent_loc nodes h l.
Proof.
  intros Hf. unfold parent_loc.
  destruct (decide (l = p)) as [->|Hne].
  - rewrite list_lookup_alter_eq. destruct (h !! p) as [obj|]; simpl; [|done].
    by rewrite Hf.
  - by rewrite list_lookup_alter_ne by congruence.
Qed.

Lemma link_loop_spec_rev2 nodes entries : forall h,
  (forall k l, (k, l) ∈ entries -> is_Some (h !! l)) ->
  link_loop nodes entries h = linked nodes entries h.
Proof.
  induction entries as [|[k l] rest IH]; intros h Hok.
  - simpl. unfold linked. apply list_eq. intros i.
    rewrite list_lookup_imap. destruct (h !! i) as [[]|]; simpl; [|done].
    by rewrite app_nil_r.
  - cbn [link_loop].
    destruct (Hok k l) as (obj & Hobj); [apply list_elem_of_here|].
    rewrite Hobj.
    assert (Hpl : parent_loc nodes h l = nodes !! Mem.ParentPid obj).
    { unfold parent_loc. by rewrite Hobj. }
    destruct (nodes !! Mem.ParentPid obj) as [p|] eqn:Hp.
    + rewrite IH.
      2:{ intros k' l' Hin.
          destruct (Hok k' l') as (obj' & Hobj'); [by apply list_elem_of_further|].
          destruct (decide (l' = p)) as [->|Hne].
          - exists (add_child l obj'). by rewrite list_lookup_alter_eq, Hobj'.
          - exists obj'. by rewrite list_lookup_alter_ne by congruence. }
      unfold linked. apply list_eq. intros i.
      rewrite !list_lookup_imap. cbn [fmap list_fmap snd].
      rewrite (kids_ext (parent_loc nodes (alter (add_child l) p h)) (parent_loc nodes h))
        by (intros; by apply parent_loc_alter_rev2).
      unfold kids at 2. cbn [List.filter]. fold (kids (parent_loc nodes h) rest.*2 i).
      rewrite Hpl.
      destruct (decide (i = p)) as [->|Hne].
      * rewrite list_lookup_alter_eq. destruct (h !! p) as [objp|]; simpl; [|done].
        rewrite bool_decide_eq_true_2 by done. by rewrite <- app_assoc.
      * rewrite list_lookup_alter_ne by congruence.
        rewrite bool_decide_eq_false_2 by congruence. done.
    + rewrite IH.
      2:{ intros k' l' Hin. apply (Hok k' l'). by apply list_elem_of_further. }
      unfold linked. apply list_eq. intros i.
      rewrite !list_lookup_imap. cbn [fmap list_fmap snd].
      unfold kids at 2. cbn [List.filter]. fold (kids (parent_loc nodes h) rest.*2 i).
      rewrite Hpl. by rewrite bool_decide_eq_false_2 by done.
Qed.

Lemma index_locs_rev2 range (nodes : gmap Z loc) stats :
  range_entries_ok range -> (forall k, nodes !! k = last_pos stats k) ->
  NoDup (range nodes).*2 /\ forall l, l ∈ (range nodes).*2 <-> live stats l.
Proof. apply Rev1_Build.index_locs. Qed.

Lemma parent_loc_cells_rev2 (nodes : gmap Z loc) stats l :
  Forall ids_ok stats ->
  (forall k, nodes !! k = last_pos stats k) ->
  parent_loc nodes (List.map cell stats) l = parent_pos stats l.
Proof.
  intros Hok Hnodes. unfold parent_loc, parent_pos.
  change (List.map cell stats) with (cell <$> stats). rewrite list_lookup_fmap.
  destruct (stats !! l) as [r|] eqn:Hr; simpl; [|done].
  rewrite Forall_forall in Hok. destruct (Hok r) as [_ Hppid].
  { by eapply list_elem_of_lookup_2. }
  unfold ppid_of. destruct (getPid r "PPID"); [apply Hnodes | done].
Qed.

Lemma buildProcTree_spec_rev2 range stats :
  range_entries_ok range -> Forall ids_ok stats ->
  exists nodes : gmap Z loc,
    (forall k, nodes !! k = last_pos stats k) /\
    buildProcTree range stats =
      match last_pos stats 1 with
      | Some root => Ok (linked nodes (range nodes) (List.map cell stats), root)
      | None => Err RootNotFoundError
      end.
Proof.
  intros Hrange Hok. unfold buildProcTree.
  destruct (index_loop_spec_rev2 stats [] ∅ Hok) as (nodes & -> & Hnodes).
  assert (Hn : forall k, nodes !! k = last_pos stats k).
  { intros k. rewrite Hnodes. destruct (last_pos stats k); [done|]. apply lookup_empty. }
  exists nodes. split; [done|]. cbn [mbind result_bind app].
  rewrite link_loop_spec_rev2.
  - by rewrite Hn.
  - intros k l Hkl. rewrite (Hrange nodes) in Hkl. apply elem_of_map_to_list in Hkl.
    rewrite Hn in Hkl. apply last_pos_Some in Hkl as (r & Hr & _).
    exists (cell r).
    change (List.map cell stats) with (cell <$> stats). by rewrite list_lookup_fmap, Hr.
Qed.

Lemma linked_lookup_rev2 range (nodes : gmap Z loc) stats l r :
  Forall ids_ok stats ->
  (forall k, nodes !! k = last_pos stats k) ->
  stats !! l = Some r ->
  linked nodes (range nodes) (List.map cell stats) !! l =
    Some (Mem.mkProcNode (pid_of r) (ppid_of r) (rest_of r)
            (kids (parent_pos stats) (range nodes).*2 l)).
Proof.
  intros Hok Hnodes Hr. unfold linked. rewrite list_lookup_imap.
  change (List.map cell stats) with (cell <$> stats). rewrite list_lookup_fmap, Hr.
  simpl. f_equal. f_equal. apply kids_ext. intros x.
  change (cell <$> stats) with (List.map cell stats). by apply parent_loc_cells_rev2.
Qed.

End Rev2_Build.

(** ** The root *)

(** C4. When the identifiers of every record can be extracted:
    [buildProcTree] fails with [RootNotFoundError] when no record has pid 1,
    as on the empty list; when some record has pid 1 it returns a store and
    the location of a node whose pid is 1. The same holds for the later
    revision. *)
Theorem buildProcTree_root (range : gmap Z loc -> list (Z * loc)) :
  range_entries_ok range ->
  (Rev1.buildProcTree range [] = Err RootNotFoundError /\
   forall stats, Forall ids_ok stats ->
     ((forall r, r ∈ stats -> getPid r "PID" <> Ok 1) ->
        Rev1.buildProcTree range stats = Err RootNotFoundError) /\
     ((exists r, r ∈ stats /\ getPid r "PID" = Ok 1) ->
        exists h root obj,
          Rev1.buildProcTree range stats = Ok (h, root) /\
          h !! root = Some obj /\ Rev1.Mem.Pid obj = 1)) /\
  (Rev2.buildProcTree range [] = Err RootNotFoundError /\
   forall stats, Forall ids_ok stats ->
     ((forall r, r ∈ stats -> getPid r "PID" <> Ok 1) ->
        Rev2.buildProcTree range stats = Err RootNotFoundError) /\
     ((exists r, r ∈ stats /\ getPid r "PID" = Ok 1) ->
        exists h root obj,
          Rev2.buildProcTree range stats = Ok (h, root) /\
          h !! root = Some obj /\ Rev2.Mem.Pid obj = 1)).
Proof.
  intros Hrange.
  assert (Hall1 : forall stats, Forall ids_ok stats ->
    ((forall r, r ∈ stats -> getPid r "PID" <> Ok 1) ->
       Rev1.buildProcTree range stats = Err RootNotFoundError) /\
    ((exists r, r ∈ stats /\ getPid r "PID" = Ok 1) ->
       exists h root obj,
         Rev1.buildProcTree range stats = Ok (h, root) /\
         h !! root = Some obj /\ Rev1.Mem.Pid obj = 1)).
  { intros stats Hok.
    destruct (Rev1_Build.buildProcTree_spec range stats Hrange Hok) as (nodes & Hnodes & ->).
    split.
    - intros Hnone. destruct (last_pos stats 1) as [root|] eqn:Hroot; [|done].
      apply last_pos_Some in Hroot as (r & Hr & Hk & _).
      destruct (Hnone r); [by eapply list_elem_of_lookup_2 | done].
    - intros (r & Hr & Hk).
      destruct (last_pos_is_Some stats 1 r Hr Hk) as [root Hroot]. rewrite Hroot.
      apply last_pos_Some in Hroot as (r' & Hr' & Hk' & _).
      eexists _, root, _. split; [done|]. split.
      + by apply Rev1_Build.linked_lookup.
      + simpl. by apply pid_of_Ok. }
  assert (Hall2 : forall stats, Forall ids_ok stats ->
    ((forall r, r ∈ stats -> getPid r "PID" <> Ok 1) ->
       Rev2.buildProcTree range stats = Err RootNotFoundError) /\
    ((exists r, r ∈ stats /\ getPid r "PID" = Ok 1) ->
       exists h root obj,
         Rev2.buildProcTree range stats = Ok (h, root) /\
         h !! root = Some obj /\ Rev2.Mem.Pid obj = 1)).
  { intros stats Hok.
    destruct (Rev2_Build.buildProcTree_spec_rev2 range stats Hrange Hok)
      as (nodes & Hnodes & ->).
    split.
    - intros Hnone. destruct (last_pos stats 1) as [root|] eqn:Hroot; [|done].
      apply last_pos_Some in Hroot as (r & Hr & Hk & _).
      destruct (Hnone r); [by eapply list_elem_of_lookup_2 | done].
    - intros (r & Hr & Hk).
      destruct (last_pos_is_Some stats 1 r Hr Hk) as [root Hroot]. rewrite Hroot.
      apply last_pos_Some in Hroot as (r' & Hr' & Hk' & _).
      eexists _, root, _. split; [done|]. split.
      + by apply Rev2_Build.linked_lookup_rev2.
      + simpl. by apply pid_of_Ok. }
  split; (split; [|done]).
  - apply (Hall1 []); [constructor|]. by intros r ?%elem_of_nil.
  - apply (Hall2 []); [constructor|]. by intros r ?%elem_of_nil.
Qed.

Lemma buildProcTree_root_witness :
  Rev1.buildProcTree map_to_list [proc "2" "1" "sh"] = Err RootNotFoundError /\
  exists h root obj,
    Rev1.buildProcTree map_to_list [proc "1" "0" "init"; proc "2" "1" "sh"] = Ok (h, root) /\
    h !! root = Some obj /\ Rev1.Mem.Pid obj = 1.
Proof.
  destruct (buildProcTree_root map_to_list) as [[_ H] _]; [by intros m|]. split.
  - apply (H [proc "2" "1" "sh"]).
    + repeat (constructor; [by split|]). constructor.
    + intros r Hr. apply list_elem_of_singleton in Hr as ->. by vm_compute.
  - apply (H [proc "1" "0" "init"; proc "2" "1" "sh"]).
    + repeat (constructor; [by split|]). constructor.
    + exists (proc "1" "0" "init"). split; [apply list_elem_of_here | reflexivity].
Defined.

(** ** Records with one pid *)

(** C8. Of the records with one pid, the last in the list wins, in both
    revisions: the index built by the first loop holds, for the pid, the
    node made from that record; in the store that [buildProcTree] returns,
    the root and the members of the [Children] lists with that pid are this
    one node, which carries that record; and earlier records with the same
    pid cause no error. *)
Theorem buildProcTree_last_wins (range : gmap Z loc -> list (Z * loc))
    (stats : list Record) (k : Z) (l : nat) (r : Record) :
  range_entries_ok range -> Forall ids_ok stats ->
  stats !! l = Some r -> getPid r "PID" = Ok k ->
  (forall j r', (l < j)%nat -> stats !! j = Some r' -> getPid r' "PID" <> Ok k) ->
  ((exists h0 nodes,
      Rev1.index_loop stats [] ∅ = Ok (h0, nodes) /\
      nodes !! k = Some l /\ h0 !! l = Some (Rev1.Mem.mkProcNode k r [])) /\
   ((exists r1, r1 ∈ stats /\ getPid r1 "PID" = Ok 1) ->
      exists h root obj,
        Rev1.buildProcTree range stats = Ok (h, root) /\
        h !! l = Some obj /\ Rev1.Mem.Pid obj = k /\ Rev1.Mem.Stats obj = r /\
        forall l' obj',
          (l' = root \/ exists i obji, h !! i = Some obji /\ l' ∈ Rev1.Mem.Children obji) ->
          h !! l' = Some obj' -> Rev1.Mem.Pid obj' = k -> l' = l)) /\
  ((exists h0 nodes,
      Rev2.index_loop stats [] ∅ = Ok (h0, nodes) /\
      nodes !! k = Some l /\
      h0 !! l = Some (Rev2.Mem.mkProcNode k (ppid_of r) (delete "PPID" (delete "PID" r)) [])) /\
   ((exists r1, r1 ∈ stats /\ getPid r1 "PID" = Ok 1) ->
      exists h root obj,
        Rev2.buildProcTree range stats = Ok (h, root) /\
        h !! l = Some obj /\ Rev2.Mem.Pid obj = k /\
        Rev2.Mem.Stats obj = delete "PPID" (delete "PID" r) /\
        forall l' obj',
          (l' = root \/ exists i obji, h !! i = Some obji /\ l' ∈ Rev2.Mem.Children obji) ->
          h !! l' = Some obj' -> Rev2.Mem.Pid obj' = k -> l' = l)).
Proof.
  intros Hrange Hok Hr Hk Hlast.
  pose proof (last_pos_last stats k l r Hr Hk Hlast) as Hl.
  split; split.
  - destruct (Rev1_Build.index_loop_spec stats [] ∅) as (nodes & Hidx & Hnodes).
    { eapply Forall_impl; [exact Hok|]. by intros ? [? _]. }
    exists (List.map Rev1_Store.cell stats), nodes. split; [done|]. split.
    + by rewrite Hnodes, Hl.
    + change (List.map Rev1_Store.cell stats) with (Rev1_Store.cell <$> stats).
      rewrite list_lookup_fmap, Hr. simpl. unfold Rev1_Store.cell.
      by rewrite (pid_of_Ok r k).
  - intros (r1 & Hr1 & Hk1).
    destruct (Rev1_Build.buildProcTree_spec range stats Hrange Hok) as (nodes & Hnodes & ->).
    destruct (last_pos_is_Some stats 1 r1 Hr1 Hk1) as [root Hroot]. rewrite Hroot.
    eexists _, root, _. split; [done|]. split; [by apply Rev1_Build.linked_lookup|].
    split; [by apply pid_of_Ok|]. split; [done|].
    intros l' obj' Href Hl' Hpid.
    assert (Hlive : live stats l').
    { destruct Href as [->|(i & obji & Hi & Hin)]; [by exists 1|].
      assert (is_Some (stats !! i)) as [ri Hri].
      { apply lookup_lt_is_Some. apply lookup_lt_Some in Hi.
        unfold Rev1_Store.linked in Hi. by rewrite length_imap, length_map in Hi. }
      rewrite (Rev1_Build.linked_lookup range nodes stats i ri Hnodes Hri) in Hi.
      injection Hi as <-. simpl in Hin. apply elem_of_kids in Hin as [Hin _].
      by apply (Rev1_Build.index_locs range nodes stats). }
    destruct Hlive as [k' Hk'].
    pose proof Hk' as (r' & Hr' & Hpid' & _)%last_pos_Some.
    rewrite (Rev1_Build.linked_lookup range nodes stats l' r' Hnodes Hr') in Hl'.
    injection Hl' as <-. simpl in Hpid. rewrite (pid_of_Ok r' k' Hpid') in Hpid. subst k'.
    congruence.
  - destruct (Rev2_Build.index_loop_spec_rev2 stats [] ∅ Hok) as (nodes & Hidx & Hnodes).
    exists (List.map Rev2_Store.cell stats), nodes. split; [done|]. split.
    + by rewrite Hnodes, Hl.
    + change (List.map Rev2_Store.cell stats) with (Rev2_Store.cell <$> stats).
      rewrite list_lookup_fmap, Hr. simpl. unfold Rev2_Store.cell, Rev2_Store.rest_of.
      by rewrite (pid_of_Ok r k).
  - intros (r1 & Hr1 & Hk1).
    destruct (Rev2_Build.buildProcTree_spec_rev2 range stats Hrange Hok)
      as (nodes & Hnodes & ->).
    destruct (last_pos_is_Some stats 1 r1 Hr1 Hk1) as [root Hroot]. rewrite Hroot.
    eexists _, root, _. split; [done|]. split; [by apply Rev2_Build.linked_lookup_rev2|].
    split; [by apply pid_of_Ok|]. split; [done|].
    intros l' obj' Href Hl' Hpid.
    assert (Hlive : live stats l').
    { destruct Href as [->|(i & obji & Hi & Hin)]; [by exists 1|].
      assert (is_Some (stats !! i)) as [ri Hri].
      { apply lookup_lt_is_Some. apply lookup_lt_Some in Hi.
        unfold Rev2_Store.linked in Hi. by rewrite length_imap, length_map in Hi. }
      rewrite (Rev2_Build.linked_lookup_rev2 range nodes stats i ri Hok Hnodes Hri) in Hi.
      injection Hi as <-. simpl in Hin. apply elem_of_kids in Hin as [Hin _].
      by apply (Rev2_Build.index_locs_rev2 range nodes stats). }
    destruct Hlive as [k' Hk'].
    pose proof Hk' as (r' & Hr' & Hpid' & _)%last_pos_Some.
    rewrite (Rev2_Build.linked_lookup_rev2 range nodes stats l' r' Hok Hnodes Hr') in Hl'.
    injection Hl' as <-. simpl in Hpid. rewrite (pid_of_Ok r' k' Hpid') in Hpid. subst k'.
    congruence.
Qed.

Lemma buildProcTree_last_wins_witness :
  exists h root obj,
    Rev1.buildProcTree map_to_list
      [proc "1" "0" "init"; proc "2" "1" "a"; proc "2" "1" "b"] = Ok (h, root) /\
    h !! 2%nat = Some obj /\ Rev1.Mem.Pid obj = 2 /\ Rev1.Mem.Stats obj = proc "2" "1" "b".
Proof.
  destruct (buildProcTree_last_wins map_to_list
              [proc "1" "0" "init"; proc "2" "1" "a"; proc "2" "1" "b"]
              2 2%nat (proc "2" "1" "b")) as [[_ H] _].
  - by intros m.
  - repeat (constructor; [by split|]). constructor.
  - reflexivity.
  - reflexivity.
  - intros [|[|[|j]]] r' Hj Hr'; try lia; done.
  - destruct H as (h & root & obj & Hb & Hl & Hpid & Hst & _).
    + exists (proc "1" "0" "init"). split; [apply list_elem_of_here | reflexivity].
    + exists h, root, obj. by repeat split.
Defined.



(** ** The tree of the later revision *)

Lemma tree_at_walk_rev2 (h : list Rev2.Mem.ProcNode) parent L :
  (forall l, l ∈ L -> exists obj, h !! l = Some obj /\ Rev2.Mem.Children obj = kids parent L l) ->
  forall fuel l ls, l ∈ L -> walk parent L fuel l = Some ls ->
  exists t, Rev2.tree_at fuel h l = Some t /\ stands_for_rev2 h (Rev2.preorder t) ls.
Proof.
  intros Hh. induction fuel as [|fuel IH]; intros l ls Hl Hw; [done|].
  simpl in Hw. destruct (mapM (walk parent L fuel) (kids parent L l)) as [lss|] eqn:Hm; [|done].
  injection Hw as <-. destruct (Hh l Hl) as (obj & Hobj & Hkids).
  cbn [Rev2.tree_at]. rewrite Hobj. cbn [mbind option_bind]. rewrite Hkids.
  assert (Hts : exists ts, mapM (Rev2.tree_at fuel h) (kids parent L l) = Some ts /\
                  stands_for_rev2 h (flat_map Rev2.preorder ts) (concat lss)).
  { apply mapM_Some in Hm.
    assert (Hin : forall c, c ∈ kids parent L l -> c ∈ L).
    { intros c Hc. by apply elem_of_kids in Hc as [? _]. }
    clear Hkids. induction Hm as [|c ls' cs lss' Hc Hcs IHcs].
    - exists []. split; [done|]. constructor.
    - destruct (IH c ls') as (t & Ht & Hst); [apply Hin, list_elem_of_here | done |].
      destruct IHcs as (ts & Hts & Hsts).
      { intros c' Hc'. by apply Hin, list_elem_of_further. }
      exists (t :: ts). split.
      + simpl. rewrite Ht. simpl. by rewrite Hts.
      + simpl. by apply Forall2_app. }
  destruct Hts as (ts & -> & Hst). simpl. eexists. split; [done|].
  simpl. constructor; [|done]. by exists obj.
Qed.

Lemma tree_at_mono_rev2 (h : list Rev2.Mem.ProcNode) fuel : forall l t,
  Rev2.tree_at fuel h l = Some t -> Rev2.tree_at (S fuel) h l = Some t.
Proof.
  induction fuel as [|fuel IH]; intros l t; [done|].
  intros H.
  change (Rev2.tree_at (S (S fuel)) h l) with
    (obj ← h !! l; ts ← mapM (Rev2.tree_at (S fuel) h) (Rev2.Mem.Children obj);
     Some (Rev2.mkProcNode (Rev2.Mem.Pid obj) (Rev2.Mem.ParentPid obj) (Rev2.Mem.Stats obj) ts)).
  simpl in H. destruct (h !! l) as [obj|]; [|done]. simpl in H. cbn [mbind option_bind].
  destruct (mapM (Rev2.tree_at fuel h) (Rev2.Mem.Children obj)) as [ts|] eqn:Hm; [|done].
  apply mapM_Some in Hm.
  assert (Hm' : mapM (Rev2.tree_at (S fuel) h) (Rev2.Mem.Children obj) = Some ts).
  { apply mapM_Some. eapply Forall2_impl; [exact Hm|]. intros x y. apply IH. }
  by rewrite Hm'.
Qed.

Lemma tree_at_mono_le_rev2 (h : list Rev2.Mem.ProcNode) fuel fuel' l t :
  (fuel <= fuel')%nat -> Rev2.tree_at fuel h l = Some t -> Rev2.tree_at fuel' h l = Some t.
Proof. induction 1; [done|]. intros. by apply tree_at_mono_rev2; auto. Qed.

Lemma ppid_of_Ok r q : getPid r "PPID" = Ok q -> ppid_of r = q.
Proof. unfold ppid_of. by intros ->. Qed.

Lemma ids_ok_ppid stats l r :
  Forall ids_ok stats -> stats !! l = Some r -> getPid r "PPID" = Ok (ppid_of r).
Proof.
  intros Hok Hr. rewrite Forall_forall in Hok. destruct (Hok r) as [_ H].
  { by eapply list_elem_of_lookup_2. }
  unfold ppid_of. by destruct (getPid r "PPID").
Qed.

(** The tree that [buildProcTree] of the later revision returns. *)
Lemma buildProcTree_tree_rev2 (range : gmap Z loc -> list (Z * loc)) (stats : list Record) :
  range_entries_ok range -> Forall ids_ok stats ->
  (exists r, r ∈ stats /\ getPid r "PID" = Ok 1) ->
  (forall root n, last_pos stats 1 = Some root ->
     up (parent_pos stats) (S n) root <> Some root) ->
  exists h root t order,
    Rev2.buildProcTree range stats = Ok (h, root) /\
    (forall fuel, (List.length stats <= fuel)%nat -> Rev2.tree_at fuel h root = Some t) /\
    Rev2.Pid t = 1 /\
    NoDup order /\
    (forall l, l ∈ order <-> traces_to_root stats l) /\
    Forall2 (fun n l => exists r, stats !! l = Some r /\
                          getPid r "PID" = Ok (Rev2.Pid n) /\
                          getPid r "PPID" = Ok (Rev2.ParentPid n) /\
                          Rev2.Stats n = delete "PPID" (delete "PID" r))
            (Rev2.preorder t) order /\
    NoDup (Rev2.Pid <$> Rev2.preorder t).
Proof.
  intros Hrange Hok (r1 & Hr1 & Hk1) Hnc.
  destruct (Rev2_Build.buildProcTree_spec_rev2 range stats Hrange Hok)
    as (nodes & Hnodes & Hbuild).
  destruct (last_pos_is_Some stats 1 r1 Hr1 Hk1) as [root Hroot]. rewrite Hroot in Hbuild.
  destruct (Rev2_Build.index_locs_rev2 range nodes stats Hrange Hnodes) as [HL_nd HL_in].
  set (L := (range nodes).*2) in *.
  set (h := Rev2_Store.linked nodes (range nodes) (List.map Rev2_Store.cell stats)) in *.
  assert (Hclosed : forall l p, parent_pos stats l = Some p -> p ∈ L).
  { intros l p Hp. apply HL_in. by apply (parent_pos_live stats l). }
  assert (HrootL : root ∈ L) by (apply HL_in; by exists 1).
  destruct (walk_root (parent_pos stats) L root HL_nd Hclosed (fun n => Hnc root n Hroot) HrootL)
    as (order & Hnd & Hin & Hwalk).
  assert (Hlen : (List.length L <= List.length stats)%nat).
  { apply live_length; [done|]. intros l. apply HL_in. }
  assert (Hh : forall l, l ∈ L -> exists obj,
             h !! l = Some obj /\ Rev2.Mem.Children obj = kids (parent_pos stats) L l).
  { intros l [k Hk]%HL_in. apply last_pos_Some in Hk as (r & Hr & _).
    eexists. split; [by apply Rev2_Build.linked_lookup_rev2 | done]. }
  destruct (tree_at_walk_rev2 h (parent_pos stats) L Hh (List.length stats) root order HrootL)
    as (t & Ht & Hst); [by apply Hwalk|].
  assert (Hrec : Forall2 (fun n l => last_pos stats (Rev2.Pid n) = Some l /\
                   exists r, stats !! l = Some r /\
                     getPid r "PID" = Ok (Rev2.Pid n) /\
                     getPid r "PPID" = Ok (Rev2.ParentPid n) /\
                     Rev2.Stats n = delete "PPID" (delete "PID" r))
                   (Rev2.preorder t) order).
  { eapply Forall2_impl_elem; [exact Hst|].
    intros n l [[k Hk]%HL_in _]%Hin (obj & Hobj & Hpid & Hppid & Hstats).
    pose proof Hk as (r & Hr & Hkr & _)%last_pos_Some.
    unfold h in Hobj.
    rewrite (Rev2_Build.linked_lookup_rev2 range nodes stats l r Hok Hnodes Hr) in Hobj.
    injection Hobj as <-. simpl in Hpid, Hppid, Hstats. rewrite (pid_of_Ok r k Hkr) in Hpid.
    subst k. split; [done|]. exists r. split; [done|]. split; [done|]. split; [|done].
    rewrite Hppid. by apply (ids_ok_ppid stats l). }
  exists h, root, t, order. split; [done|]. split; [|split; [|split; [|split; [|split]]]].
  - intros fuel Hfuel. by apply (tree_at_mono_le_rev2 h (List.length stats)).
  - destruct t as [p q s cs]. simpl in Hrec. destruct order as [|l order]; [inversion Hrec|].
    apply Forall2_cons in Hrec as [[Hl _] _]. simpl in Hl.
    assert (Hl0 : l = root).
    { destruct (List.length stats) as [|fuel] eqn:Hfu; [done|].
      specialize (Hwalk (S fuel) Hlen). simpl in Hwalk.
      destruct (mapM _ _) in Hwalk; [|done]. by injection Hwalk as -> _. }
    subst l. apply (last_pos_inj stats p 1 root Hl Hroot).
  - done.
  - intros l. rewrite Hin. unfold traces_to_root. split.
    + intros [Hl [e He]]. split; [by apply HL_in|]. by exists root, e.
    + intros [Hl (root' & e & Hroot' & He)]. split; [by apply HL_in|].
      exists e. congruence.
  - eapply Forall2_impl; [exact Hrec|]. by intros n l [_ ?].
  - apply (NoDup_keys Rev2.Pid (last_pos stats) _ order); [|done].
    eapply Forall2_impl; [exact Hrec|]. by intros n l [? _].
Qed.

(** ** The tree, in both revisions *)

(** C1 (amended). In both revisions, when the identifiers of every record
    can be extracted, some record has pid 1, and the last record with pid 1
    is not among its own ancestors: [buildProcTree] returns the root of a
    finite tree whose root has pid 1; the nodes of the tree, in pre-order,
    are made from records at pairwise different positions, which are
    exactly the positions of the records that are the last with their pid
    and whose chain of parents leads to the last record with pid 1; every
    node carries the pid and the fields of its record, and no two nodes have
    the same pid. All other records are left out, without an error. On the
    tree of rstat.go, [ForEach] calls its visitor on these nodes, once each,
    in pre-order. *)
Theorem buildProcTree_tree (range : gmap Z loc -> list (Z * loc)) (stats : list Record) :
  range_entries_ok range -> Forall ids_ok stats ->
  (exists r, r ∈ stats /\ getPid r "PID" = Ok 1) ->
  (forall root n, last_pos stats 1 = Some root ->
     up (parent_pos stats) (S n) root <> Some root) ->
  (exists h root t order,
     Rev1.buildProcTree range stats = Ok (h, root) /\
     (forall fuel, (List.length stats <= fuel)%nat -> Rev1.tree_at fuel h root = Some t) /\
     Rev1.Pid t = 1 /\
     NoDup order /\
     (forall l, l ∈ order <-> traces_to_root stats l) /\
     Forall2 (fun n l => exists r, stats !! l = Some r /\
                           getPid r "PID" = Ok (Rev1.Pid n) /\ Rev1.Stats n = r)
             (Rev1.preorder t) order /\
     NoDup (Rev1.Pid <$> Rev1.preorder t) /\
     (forall (St : Type) (fn : Z -> Record -> St -> St) (st : St) fuel,
        (2 * List.length stats <= fuel)%nat ->
        Rev1.ForEach fn fuel t st = Some (visit_all fn (Rev1.preorder t) st))) /\
  (exists h root t order,
     Rev2.buildProcTree range stats = Ok (h, root) /\
     (forall fuel, (List.length stats <= fuel)%nat -> Rev2.tree_at fuel h root = Some t) /\
     Rev2.Pid t = 1 /\
     NoDup order /\
     (forall l, l ∈ order <-> traces_to_root stats l) /\
     Forall2 (fun n l => exists r, stats !! l = Some r /\
                           getPid r "PID" = Ok (Rev2.Pid n) /\
                           getPid r "PPID" = Ok (Rev2.ParentPid n) /\
                           Rev2.Stats n = delete "PPID" (delete "PID" r))
             (Rev2.preorder t) order /\
     NoDup (Rev2.Pid <$> Rev2.preorder t)).
Proof.
  intros Hrange Hok Hroot Hnc. split.
  - by apply buildProcTree_tree_rev1.
  - by apply buildProcTree_tree_rev2.
Qed.

Lemma buildProcTree_tree_witness :
  let stats := [proc "1" "0" "init"; proc "2" "1" "sh"; proc "7" "9" "orphan"; proc "3" "2" "ls"] in
  exists h root t (order : list nat),
    Rev1.buildProcTree map_to_list stats = Ok (h, root) /\
    Rev1.tree_at 4 h root = Some t /\ Rev1.Pid t = 1 /\
    (forall l, l ∈ order <-> traces_to_root stats l) /\
    NoDup (Rev1.Pid <$> Rev1.preorder t).
Proof.
  intros stats.
  destruct (buildProcTree_tree map_to_list stats) as [H _].
  - by intros m.
  - repeat (constructor; [by split|]). constructor.
  - exists (proc "1" "0" "init"). split; [apply list_elem_of_here | reflexivity].
  - intros root n Hroot.
    assert (root = 0%nat) as -> by (vm_compute in Hroot; congruence).
    change (up (parent_pos stats) (S n) 0%nat)
      with (p ← parent_pos stats 0%nat; up (parent_pos stats) n p).
    by assert (parent_pos stats 0%nat = None) as -> by reflexivity.
  - destruct H as (h & root & t & order & Hb & Ht & Hpid & _ & Hin & _ & Hnd & _).
    exists h, root, t, order. split; [exact Hb|]. split; [by apply Ht|].
    split; [exact Hpid|]. split; [exact Hin | exact Hnd].
Defined.

(** C1, as stated, fails when the record with pid 1 names itself as its
    parent: the list is accepted, and the root that is returned is its own
    child, so that no finite tree stands at the root. It also fails for two
    records with one pid: only the last is in the tree, though the chain of
    parents of both leads to pid 1. *)
Lemma buildProcTree_root_own_parent :
  Forall ids_ok [proc "1" "1" "init"] /\
  (exists h root obj,
     Rev1.buildProcTree map_to_list [proc "1" "1" "init"] = Ok (h, root) /\
     h !! root = Some obj /\ root ∈ Rev1.Mem.Children obj /\
     forall fuel, Rev1.tree_at fuel h root = None) /\
  (exists h root obj,
     Rev2.buildProcTree map_to_list [proc "1" "1" "init"] = Ok (h, root) /\
     h !! root = Some obj /\ root ∈ Rev2.Mem.Children obj /\
     forall fuel, Rev2.tree_at fuel h root = None) /\
  (exists h root t,
     Rev1.buildProcTree map_to_list
       [proc "1" "0" "init"; proc "2" "1" "a"; proc "2" "1" "b"] = Ok (h, root) /\
     Rev1.tree_at 3 h root = Some t /\
     Rev1.Stats <$> Rev1.preorder t = [proc "1" "0" "init"; proc "2" "1" "b"]).
Proof.
  split; [|split; [|split]].
  - repeat (constructor; [by split|]). constructor.
  - eexists _, _, _. split; [by vm_compute|]. split; [reflexivity|].
    split; [apply list_elem_of_here|].
    induction fuel as [|fuel IH]; [done|].
    cbn [Rev1.tree_at lookup list_lookup mbind option_bind Rev1.Mem.Children mapM].
    by rewrite IH.
  - eexists _, _, _. split; [by vm_compute|]. split; [reflexivity|].
    split; [apply list_elem_of_here|].
    induction fuel as [|fuel IH]; [done|].
    cbn [Rev2.tree_at lookup list_lookup mbind option_bind Rev2.Mem.Children mapM].
    by rewrite IH.
  - eexists _, _, _. split; [by vm_compute|]. split; by vm_compute.
Qed.

(** ** The fields of a node *)

Lemma index_loop_Ok_ids stats : forall h nodes res,
  Rev2.index_loop stats h nodes = Ok res -> Forall ids_ok stats.
Proof.
  induction stats as [|r rest IH]; intros h nodes res H; [constructor|].
  cbn [Rev2.index_loop] in H.
  destruct (getPid r "PID") as [pid|] eqn:Hpid; [|done].
  destruct (getPid r "PPID") as [ppid|] eqn:Hppid; [|done].
  cbn [mbind result_bind] in H. constructor.
  - unfold ids_ok. by rewrite Hpid, Hppid.
  - by eapply IH.
Qed.

Lemma buildProcTree_Ok_ids range stats res :
  Rev2.buildProcTree range stats = Ok res -> Forall ids_ok stats.
Proof.
  unfold Rev2.buildProcTree. intros H.
  destruct (Rev2.index_loop stats [] ∅) as [[h nodes]|] eqn:Hidx; [|done].
  by eapply index_loop_Ok_ids.
Qed.

Lemma kids_none parent L i : (forall l, parent l <> Some i) -> kids parent L i = [].
Proof.
  intros H. unfold kids. induction L as [|l L IH]; simpl; [done|].
  by rewrite bool_decide_eq_false_2 by apply H.
Qed.

(** C5 (amended). In the later revision, the node made for a record of a
    list that [buildProcTree] accepts carries the pid and the parent pid
    extracted from the fields [PID] and [PPID] of the record, and its
    [Stats] are the other fields of the record, with their values, without
    the keys [PID] and [PPID]; on the record of the example the root has pid
    1, parent pid 0, no children and the three other fields. In rstat.go the
    node has no parent pid, and its [Stats] are the whole record, the keys
    [PID] and [PPID] included. *)
Theorem buildProcTree_node_fields (range : gmap Z loc -> list (Z * loc)) :
  range_entries_ok range ->
  (forall stats h root,
     Rev2.buildProcTree range stats = Ok (h, root) ->
     List.length h = List.length stats /\
     forall l r, stats !! l = Some r ->
       exists obj, h !! l = Some obj /\
         getPid r "PID" = Ok (Rev2.Mem.Pid obj) /\
         getPid r "PPID" = Ok (Rev2.Mem.ParentPid obj) /\
         (forall key, key <> "PID" -> key <> "PPID" ->
            Rev2.Mem.Stats obj !! key = r !! key) /\
         Rev2.Mem.Stats obj !! "PID" = None /\
         Rev2.Mem.Stats obj !! "PPID" = None) /\
  (exists h root,
     Rev2.buildProcTree range [init_record] = Ok (h, root) /\
     h !! root = Some (Rev2.Mem.mkProcNode 1 0 init_stats [])) /\
  (forall stats h root,
     Forall ids_ok stats ->
     Rev1.buildProcTree range stats = Ok (h, root) ->
     List.length h = List.length stats /\
     forall l r, stats !! l = Some r ->
       exists obj, h !! l = Some obj /\
         getPid r "PID" = Ok (Rev1.Mem.Pid obj) /\ Rev1.Mem.Stats obj = r) /\
  (exists h root,
     Rev1.buildProcTree range [init_record] = Ok (h, root) /\
     h !! root = Some (Rev1.Mem.mkProcNode 1 init_record [])).
Proof.
  intros Hrange.
  assert (Hinit : Forall ids_ok [init_record]).
  { constructor; [by split | constructor]. }
  assert (Hnokids : forall L, kids (parent_pos [init_record]) L 0%nat = []).
  { intros L. apply kids_none. intros [|l]; [by vm_compute | done]. }
  split; [|split; [|split]].
  - intros stats h root Hb.
    pose proof (buildProcTree_Ok_ids _ _ _ Hb) as Hok.
    destruct (Rev2_Build.buildProcTree_spec_rev2 range stats Hrange Hok) as (nodes & Hnodes & Heq).
    rewrite Heq in Hb. destruct (last_pos stats 1) as [root'|]; [|done].
    injection Hb as <- <-. split.
    { unfold Rev2_Store.linked. by rewrite length_imap, length_map. }
    intros l r Hr. eexists. split; [by apply Rev2_Build.linked_lookup_rev2|].
    rewrite Forall_forall in Hok. destruct (Hok r) as [Hpid Hppid].
    { by eapply list_elem_of_lookup_2. }
    simpl. unfold pid_of, ppid_of, Rev2_Store.rest_of.
    destruct (getPid r "PID"); [|done]. destruct (getPid r "PPID"); [|done].
    split; [done|]. split; [done|]. split; [|split].
    + intros key H1 H2. by rewrite !lookup_delete_ne.
    + rewrite lookup_delete_ne by done. apply lookup_delete_eq.
    + apply lookup_delete_eq.
  - destruct (Rev2_Build.buildProcTree_spec_rev2 range [init_record] Hrange Hinit)
      as (nodes & Hnodes & Heq).
    change (last_pos [init_record] 1) with (Some 0%nat) in Heq.
    eexists _, _. split; [exact Heq|].
    rewrite (Rev2_Build.linked_lookup_rev2 range nodes [init_record] 0 init_record)
      by done.
    rewrite Hnokids. f_equal.
  - intros stats h root Hok Hb.
    destruct (Rev1_Build.buildProcTree_spec range stats Hrange Hok) as (nodes & Hnodes & Heq).
    rewrite Heq in Hb. destruct (last_pos stats 1) as [root'|]; [|done].
    injection Hb as <- <-. split.
    { unfold Rev1_Store.linked. by rewrite length_imap, length_map. }
    intros l r Hr. eexists. split; [by apply Rev1_Build.linked_lookup|].
    rewrite Forall_forall in Hok. destruct (Hok r) as [Hpid _].
    { by eapply list_elem_of_lookup_2. }
    simpl. unfold pid_of. by destruct (getPid r "PID").
  - destruct (Rev1_Build.buildProcTree_spec range [init_record] Hrange Hinit)
      as (nodes & Hnodes & Heq).
    change (last_pos [init_record] 1) with (Some 0%nat) in Heq.
    eexists _, _. split; [exact Heq|].
    rewrite (Rev1_Build.linked_lookup range nodes [init_record] 0 init_record) by done.
    rewrite Hnokids. f_equal.
Qed.

(** From the output of the command to the tree, on the example table. *)
Example pstree_init :
  Rev2.pstree map_to_list ["PID PPID %CPU %MEM CMD"; ""; "  1 0 0.1 0.2 /sbin/init  "] None =
    Ok ([Rev2.Mem.mkProcNode 1 0 init_stats []], 0%nat).
Proof. by vm_compute. Qed.

Lemma buildProcTree_node_fields_witness :
  exists h root,
    Rev2.buildProcTree map_to_list [init_record] = Ok (h, root) /\
    h !! root = Some (Rev2.Mem.mkProcNode 1 0 init_stats []).
Proof.
  destruct (buildProcTree_node_fields map_to_list) as (_ & H & _); [by intros m|].
  exact H.
Defined.

(** C5, as stated, fails on rstat.go: the [Stats] of the root made from the
    record of the example are the whole record, with the keys [PID] and
    [PPID]. *)
Lemma buildProcTree_keeps_identifiers :
  exists h root obj,
    Rev1.buildProcTree map_to_list [init_record] = Ok (h, root) /\
    h !! root = Some obj /\
    Rev1.Mem.Stats obj = init_record /\
    Rev1.Mem.Stats obj !! "PID" = Some "1" /\
    Rev1.Mem.Stats obj !! "PPID" = Some "0" /\
    Rev1.Mem.Stats obj <> init_stats.
Proof.
  eexists _, _, _. split; [by vm_compute|]. split; [reflexivity|].
  split; [reflexivity|]. split; [reflexivity|]. split; [reflexivity|].
  intros H. apply (f_equal (fun m : Record => m !! "PID")) in H. by vm_compute in H.
Qed.

(** * Further properties *)

(** ** The commands *)

Lemma digit_char_code d : 0 <= d <= 9 -> byte_code (Command.digit_char d) = 48 + d.
Proof.
  intros H.
  assert (d = 0 \/ d = 1 \/ d = 2 \/ d = 3 \/ d = 4 \/ d = 5 \/ d = 6 \/ d = 7 \/ d = 8 \/ d = 9)
    as Hd by lia.
  repeat (destruct Hd as [->|Hd]; [reflexivity|]). by subst.
Qed.

Lemma digit_char_digit d : 0 <= d <= 9 -> is_digit (Command.digit_char d) = true.
Proof.
  intros H. unfold is_digit. rewrite (digit_char_code d H).
  apply andb_true_iff. lia.
Qed.

Lemma digits_only_app a b :
  digits_only (a +:+ b) = digits_only a && digits_only b.
Proof.
  induction a as [|c a IH]; simpl; [done|]. by rewrite IH, andb_assoc.
Qed.

Lemma decimal_from_app a b : forall n,
  decimal_from n (a +:+ b) = decimal_from (decimal_from n a) b.
Proof. induction a as [|c a IH]; intros n; simpl; [done|]. apply IH. Qed.

(** The digits that the loop puts before [acc]. *)
Lemma format_loop_spec fuel : forall u acc,
  0 <= u < 10 ^ Z.of_nat (S fuel) ->
  exists ds,
    Command.format_loop (S fuel) u acc = ds +:+ acc /\
    digits_only ds = true /\ (0 < String.length ds)%nat /\
    (forall n, decimal_from n ds = n * 10 ^ Z.of_nat (String.length ds) + u) /\
    (ds = "0" \/ starts_with (fun c => Ascii.eqb c "0"%char) ds = false).
Proof.
  assert (Hone : forall u, 0 <= u -> u / 10 = 0 ->
    let ds := String (Command.digit_char (u mod 10)) "" in
    digits_only ds = true /\ (0 < String.length ds)%nat /\
    (forall n, decimal_from n ds = n * 10 ^ Z.of_nat (String.length ds) + u) /\
    (ds = "0" \/ starts_with (fun c => Ascii.eqb c "0"%char) ds = false)).
  { intros u Hu Hz.
    assert (Hd : 0 <= u mod 10 <= 9) by (pose proof (Z.mod_pos_bound u 10); lia).
    assert (Hu' : u = 10 * (u / 10) + u mod 10) by (apply Z.div_mod; lia).
    rewrite Hz in Hu'. simpl. rewrite (digit_char_digit _ Hd).
    split; [done|]. split; [lia|]. split.
    - intros n. rewrite (digit_char_code _ Hd). change (10 ^ Z.of_nat 1) with 10. lia.
    - destruct (Z.eq_dec (u mod 10) 0) as [H0|H0].
      + left. by rewrite H0.
      + right. apply Ascii.eqb_neq. intros Heq.
        apply (f_equal byte_code) in Heq. rewrite (digit_char_code _ Hd) in Heq.
        change (byte_code "0") with 48 in Heq. lia. }
  induction fuel as [|fuel IH]; intros u acc Hu.
  - change (10 ^ Z.of_nat 1) with 10 in Hu.
    assert (Hz : u / 10 = 0) by (apply Z.div_small; lia).
    exists (String (Command.digit_char (u mod 10)) ""). split.
    + simpl. by rewrite Hz.
    + apply Hone; [lia | done].
  - change (Command.format_loop (S (S fuel)) u acc) with
      (if u / 10 =? 0 then String (Command.digit_char (u mod 10)) acc
       else Command.format_loop (S fuel) (u / 10) (String (Command.digit_char (u mod 10)) acc)).
    destruct (Z.eqb_spec (u / 10) 0) as [Hz|Hnz].
    { exists (String (Command.digit_char (u mod 10)) ""). split; [done|].
      apply Hone; [lia | done]. }
    assert (Hd : 0 <= u mod 10 <= 9) by (pose proof (Z.mod_pos_bound u 10); lia).
    assert (Hu' : u = 10 * (u / 10) + u mod 10) by (apply Z.div_mod; lia).
    assert (Hq : 0 <= u / 10 < 10 ^ Z.of_nat (S fuel)).
    { split; [apply Z.div_pos; lia|].
      apply Z.div_lt_upper_bound; [lia|].
      replace (10 * 10 ^ Z.of_nat (S fuel)) with (10 ^ Z.of_nat (S (S fuel))); [lia|].
      rewrite (Nat2Z.inj_succ (S fuel)), Z.pow_succ_r; lia. }
    destruct (IH (u / 10) (String (Command.digit_char (u mod 10)) acc) Hq)
      as (ds & -> & Hds & Hlen & Hval & Hlead).
    exists (ds +:+ String (Command.digit_char (u mod 10)) "").
    split; [by rewrite app_snoc_string|].
    split; [rewrite digits_only_app, Hds; simpl; by rewrite (digit_char_digit _ Hd)|].
    rewrite length_snoc_string. split; [lia|]. split.
    + intros n. rewrite decimal_from_app, Hval. simpl.
      rewrite (digit_char_code _ Hd), Nat2Z.inj_succ, Z.pow_succ_r by lia. lia.
    + right. destruct Hlead as [->|Hlead].
      * specialize (Hval 0). simpl in Hval. change (byte_code "0") with 48 in Hval. lia.
      * destruct ds; [simpl in Hlen; lia | done].
Qed.

(** [FormatUint] writes the decimal numeral of a [uint64]. *)
Lemma FormatUint_numeral u : 0 <= u <= maxUint64 -> numeral (Command.FormatUint u) u.
Proof.
  intros Hu. unfold Command.FormatUint.
  destruct (format_loop_spec 19 u "") as (ds & -> & Hds & Hlen & Hval & Hlead).
  { unfold maxUint64 in Hu. change (10 ^ Z.of_nat 20) with 100000000000000000000. lia. }
  rewrite app_nil_r_string. unfold numeral, is_digits, decimal. rewrite Hds, Hval.
  split; [|split; [lia | done]].
  apply andb_true_iff. split; [|done]. by apply Nat.ltb_lt.
Qed.

Lemma numeral_ParseUint txt u :
  numeral txt u -> 0 <= u <= maxUint64 -> ParseUint txt = (u, None).
Proof.
  intros (Hd & Hv & _) Hu. rewrite (ParseUint_digits _ Hd), Hv.
  destruct (Z.leb_spec u maxUint64); [done | lia].
Qed.

Lemma SSHCommand_words host user passw seconds :
  Command.SSHCommand host user passw seconds =
    (if decide (passw = "") then ["ssh"] else ["sshpass"; "-p"; passw; "ssh"]) ++
    (if 0 <? seconds then ["-o"; "ConnectTimeout=" +:+ Command.FormatUint seconds] else []) ++
    [user +:+ "@" +:+ host].
Proof.
  unfold Command.SSHCommand. destruct (decide (passw = "")) as [->|Hne].
  - simpl. by destruct (0 <? seconds).
  - destruct passw; [done|]. simpl. by destruct (0 <? seconds).
Qed.

(** X1. The command that [SSHCommand] builds: the log-in part, which depends
    on the password alone; the time-out option, present when [seconds] is not
    0 and carrying its decimal numeral, which [strconv] reads back as the same
    number; and the target as the last word. *)
Theorem SSHCommand_shape (host user passw : string) (seconds : Z) :
  0 <= seconds <= maxUint64 ->
  exists login opts,
    Command.SSHCommand host user passw seconds =
      login ++ opts ++ [user +:+ "@" +:+ host] /\
    login = (if decide (passw = "") then ["ssh"] else ["sshpass"; "-p"; passw; "ssh"]) /\
    (seconds = 0 -> opts = []) /\
    (0 < seconds ->
     exists txt, opts = ["-o"; "ConnectTimeout=" +:+ txt] /\
       numeral txt seconds /\ ParseUint txt = (seconds, None)).
Proof.
  intros Hs. rewrite SSHCommand_words. eexists _, _. split; [done|]. split; [done|]. split.
  - intros ->. done.
  - intros Hpos. destruct (Z.ltb_spec 0 seconds); [|lia].
    exists (Command.FormatUint seconds). split; [done|].
    pose proof (FormatUint_numeral seconds Hs) as Hn.
    split; [done|]. by apply numeral_ParseUint.
Qed.

Lemma SSHCommand_shape_witness :
  exists login opts,
    Command.SSHCommand "192.168.0.16" "pi" "raspberry" 5 =
      login ++ opts ++ ["pi@192.168.0.16"] /\
    login = ["sshpass"; "-p"; "raspberry"; "ssh"] /\
    (5 = 0 -> opts = []) /\
    (0 < 5 ->
     exists txt, opts = ["-o"; "ConnectTimeout=" +:+ txt] /\
       numeral txt 5 /\ ParseUint txt = (5, None)).
Proof.
  apply (SSHCommand_shape "192.168.0.16" "pi" "raspberry" 5). unfold maxUint64. lia.
Defined.

Lemma concat_eq (a b : list string) : Command.concat a b = a ++ b.
Proof.
  unfold Command.concat, Command.copy, Command.make. cbn [fst].
  rewrite !length_replicate.
  replace ((List.length a + List.length b) `min` List.length a)%nat
    with (List.length a) by lia.
  rewrite firstn_all, drop_replicate.
  replace (List.length a + List.length b - List.length a)%nat with (List.length b) by lia.
  rewrite take_app_length, drop_app_length, length_replicate.
  rewrite Nat.min_id, firstn_all, drop_replicate, Nat.sub_diag. simpl.
  by rewrite app_nil_r.
Qed.

(** X2. [concat] gives the words of [a] followed by those of [b]: the first
    [copy] fills the first [len(a)] elements of the new slice and the second
    one the rest. *)
Theorem concat_app (a b : list string) :
  Command.concat a b = a ++ b /\
  Command.copy (Command.make (List.length a + List.length b)) a =
    (a ++ Command.make (List.length b), List.length a).
Proof.
  split; [apply concat_eq|].
  unfold Command.copy, Command.make. rewrite !length_replicate.
  replace ((List.length a + List.length b) `min` List.length a)%nat
    with (List.length a) by lia.
  rewrite firstn_all, drop_replicate. do 3 f_equal. lia.
Qed.

Lemma makePsCommand_head_rev1 range columns :
  exists args, Rev1.makePsCommand range columns = "ps" :: args.
Proof.
  unfold Rev1.makePsCommand. destruct (_ =? _)%nat; [by eexists|].
  destruct (foldl Rev1.classify _ _) as [m cmd]. by eexists.
Qed.

Lemma makePsCommand_head_rev2 range columns :
  exists args, Rev2.makePsCommand range columns = "ps" :: args.
Proof.
  unfold Rev2.makePsCommand. destruct (_ =? _)%nat; [by eexists|].
  destruct (foldl Rev2.classify _ _) as [m cmd].
  rewrite Rev2_Command.foldl_o_options. destruct (_ <? _)%nat; by eexists.
Qed.

Lemma ProcTree_run_rev1 (FromCommand : runner) range_columns range_nodes ssh columns :
  exists args,
    ssh ++ Rev1.makePsCommand range_columns columns = hd "ps" ssh :: args /\
    Rev1_Run.ProcTree FromCommand range_columns range_nodes ssh columns =
      Some (Rev1.pstree range_nodes (FromCommand (hd "ps" ssh) args).1
                                    (FromCommand (hd "ps" ssh) args).2).
Proof.
  unfold Rev1_Run.ProcTree. rewrite concat_eq.
  destruct (makePsCommand_head_rev1 range_columns columns) as [args ->].
  destruct ssh as [|name rest]; simpl; eexists; (split; [done|]);
    by destruct (FromCommand _ _).
Qed.

Lemma ProcTree_run_rev2 (FromCommand : runner) range_columns range_nodes ssh columns :
  exists args,
    ssh ++ Rev2.makePsCommand range_columns columns = hd "ps" ssh :: args /\
    Rev2_Run.ProcTree FromCommand range_columns range_nodes ssh columns =
      Some (Rev2.pstree range_nodes (FromCommand (hd "ps" ssh) args).1
                                    (FromCommand (hd "ps" ssh) args).2).
Proof.
  unfold Rev2_Run.ProcTree. rewrite concat_eq.
  destruct (makePsCommand_head_rev2 range_columns columns) as [args ->].
  destruct ssh as [|name rest]; simpl; eexists; (split; [done|]);
    by destruct (FromCommand _ _).
Qed.

(** X3. [ProcTree] never runs into the panic of [cmd[0]]: the command line is
    the words of [ssh] followed by the [ps] command, so the program that is
    run is the first word of [ssh], or [ps] itself when [ssh] is nil or empty,
    and the result is that of reading its output. *)
Theorem ProcTree_command (FromCommand : runner) (range_nodes : gmap Z loc -> list (Z * loc))
    (ssh columns : list string) :
  (forall range_columns,
   exists args,
     ssh ++ Rev1.makePsCommand range_columns columns = hd "ps" ssh :: args /\
     Rev1_Run.ProcTree FromCommand range_columns range_nodes ssh columns =
       Some (Rev1.pstree range_nodes (FromCommand (hd "ps" ssh) args).1
                                     (FromCommand (hd "ps" ssh) args).2)) /\
  (forall range_columns,
   exists args,
     ssh ++ Rev2.makePsCommand range_columns columns = hd "ps" ssh :: args /\
     Rev2_Run.ProcTree FromCommand range_columns range_nodes ssh columns =
       Some (Rev2.pstree range_nodes (FromCommand (hd "ps" ssh) args).1
                                     (FromCommand (hd "ps" ssh) args).2)).
Proof.
  split; intros range_columns; [apply ProcTree_run_rev1 | apply ProcTree_run_rev2].
Qed.

(** X4. [ProcTree] on a command made by [SSHCommand]: the program that is run
    is [sshpass] when there is a password and [ssh] otherwise, and the [ps]
    command follows the target as the last words of its arguments. *)
Theorem ProcTree_over_ssh (FromCommand : runner) (range_nodes : gmap Z loc -> list (Z * loc))
    (host user passw : string) (seconds : Z) (columns : list string) :
  let ssh := Command.SSHCommand host user passw seconds in
  let prog := if decide (passw = "") then "ssh" else "sshpass" in
  exists opts,
    ssh = prog :: opts ++ [user +:+ "@" +:+ host] /\
    (forall range_columns,
       let args := opts ++ [user +:+ "@" +:+ host] ++ Rev1.makePsCommand range_columns columns in
       Rev1_Run.ProcTree FromCommand range_columns range_nodes ssh columns =
         Some (Rev1.pstree range_nodes (FromCommand prog args).1 (FromCommand prog args).2)) /\
    (forall range_columns,
       let args := opts ++ [user +:+ "@" +:+ host] ++ Rev2.makePsCommand range_columns columns in
       Rev2_Run.ProcTree FromCommand range_columns range_nodes ssh columns =
         Some (Rev2.pstree range_nodes (FromCommand prog args).1 (FromCommand prog args).2)).
Proof.
  intros ssh prog.
  assert (exists opts, ssh = prog :: opts ++ [user +:+ "@" +:+ host]) as [opts Hssh].
  { unfold ssh, prog. rewrite SSHCommand_words.
    set (timeout := if 0 <? seconds then _ else _).
    destruct (decide (passw = "")).
    - by exists timeout.
    - by exists (["-p"; passw; "ssh"] ++ timeout). }
  exists opts. split; [done|]. split; intros range_columns args.
  - destruct (ProcTree_run_rev1 FromCommand range_columns range_nodes ssh columns)
      as (args' & Heq & ->).
    rewrite Hssh in *. simpl in *. injection Heq as <-.
    unfold args. by rewrite <- app_assoc.
  - destruct (ProcTree_run_rev2 FromCommand range_columns range_nodes ssh columns)
      as (args' & Heq & ->).
    rewrite Hssh in *. simpl in *. injection Heq as <-.
    unfold args. by rewrite <- app_assoc.
Qed.

(** ** What buildProcTree rejects *)

Lemma index_loop_Err_rev1 pre : forall r post e h nodes,
  Forall (fun r => is_ok (getPid r "PID") = true) pre ->
  getPid r "PID" = Err e ->
  Rev1.index_loop (pre ++ r :: post) h nodes = Err e.
Proof.
  induction pre as [|r0 pre IH]; intros r post e h nodes Hpre Hr; simpl.
  - by rewrite Hr.
  - apply Forall_cons in Hpre as [H0 Hpre].
    destruct (getPid r0 "PID") as [pid|]; [|done]. cbn [mbind result_bind].
    by apply IH.
Qed.

Lemma index_loop_Err_rev2 pre : forall r post e h nodes,
  Forall ids_ok pre ->
  getPid r "PID" = Err e \/ is_ok (getPid r "PID") = true /\ getPid r "PPID" = Err e ->
  Rev2.index_loop (pre ++ r :: post) h nodes = Err e.
Proof.
  induction pre as [|r0 pre IH]; intros r post e h nodes Hpre Hr; simpl.
  - destruct Hr as [->|[Hpid ->]]; [done|].
    by destruct (getPid r "PID").
  - apply Forall_cons in Hpre as [[H0 H0'] Hpre].
    destruct (getPid r0 "PID") as [pid|]; [|done].
    destruct (getPid r0 "PPID") as [ppid|]; [|done]. cbn [mbind result_bind].
    by apply IH.
Qed.

(** X5. The records are checked in the order of the list, and the first one
    that fails the check decides the error. rstat.go checks the [PID] field
    there; the later revision checks [PID] and then [PPID]. *)
Theorem buildProcTree_first_error (range : gmap Z loc -> list (Z * loc))
    (pre post : list Record) (r : Record) (e : error) :
  (Forall (fun r => is_ok (getPid r "PID") = true) pre ->
   getPid r "PID" = Err e ->
   Rev1.buildProcTree range (pre ++ r :: post) = Err e) /\
  (Forall ids_ok pre ->
   getPid r "PID" = Err e \/ is_ok (getPid r "PID") = true /\ getPid r "PPID" = Err e ->
   Rev2.buildProcTree range (pre ++ r :: post) = Err e).
Proof.
  split; intros Hpre Hr.
  - unfold Rev1.buildProcTree. by rewrite (index_loop_Err_rev1 pre r post e).
  - unfold Rev2.buildProcTree. by rewrite (index_loop_Err_rev2 pre r post e).
Qed.

Lemma buildProcTree_first_error_witness :
  Rev1.buildProcTree map_to_list ([proc "1" "0" "init"] ++ proc "-2" "1" "sh" :: [proc "x" "1" "ls"])
    = Err (NegativeValueError "PID" "-2") /\
  Rev2.buildProcTree map_to_list ([proc "1" "0" "init"] ++ proc "2" "" "sh" :: [proc "x" "1" "ls"])
    = Err (MissingFieldError "PPID").
Proof.
  split.
  - apply (buildProcTree_first_error map_to_list [proc "1" "0" "init"]
             [proc "x" "1" "ls"] (proc "-2" "1" "sh")).
    + repeat constructor.
    + reflexivity.
  - apply (buildProcTree_first_error map_to_list [proc "1" "0" "init"]
             [proc "x" "1" "ls"] (proc "2" "" "sh")).
    + repeat constructor.
    + right. split; reflexivity.
Defined.

Lemma index_loop_Ok_pids stats : forall h nodes res,
  Rev1.index_loop stats h nodes = Ok res ->
  Forall (fun r => is_ok (getPid r "PID") = true) stats.
Proof.
  induction stats as [|r rest IH]; intros h nodes res H; [constructor|].
  cbn [Rev1.index_loop] in H.
  destruct (getPid r "PID") as [pid|] eqn:Hpid; [|done].
  cbn [mbind result_bind] in H. constructor; [by rewrite Hpid|]. by eapply IH.
Qed.

(** The second loop of rstat.go, for a store whose records are given by
    [S]: the loop changes the [Children] only. *)
Lemma link_loop_Ok_inv nodes (S : loc -> option Record) entries : forall h h',
  (forall l, Rev1.Mem.Stats <$> h !! l = S l) ->
  Rev1.link_loop nodes entries h = Ok h' ->
  forall k l r, (k, l) ∈ entries -> S l = Some r -> is_ok (getPid r "PPID") = true.
Proof.
  induction entries as [|[k0 l0] rest IH]; intros h h' HS H k l r Hin Hr.
  { by apply elem_of_nil in Hin. }
  assert (Halter : forall c p l, Rev1.Mem.Stats <$> alter (Rev1.add_child c) p h !! l = S l).
  { intros c p x. rewrite <- HS. destruct (decide (x = p)) as [->|Hne].
    - rewrite list_lookup_alter_eq. by destruct (h !! p).
    - by rewrite list_lookup_alter_ne by congruence. }
  cbn [Rev1.link_loop] in H. pose proof (HS l0) as H0.
  destruct (h !! l0) as [obj0|]; simpl in H0.
  - destruct (getPid (Rev1.Mem.Stats obj0) "PPID") as [q|] eqn:Hq.
    + cbn [mbind result_bind] in H.
      apply elem_of_cons in Hin as [[= -> ->]|Hin].
      { rewrite Hr in H0. injection H0 as <-. by rewrite Hq. }
      destruct (nodes !! q) as [p|].
      * exact (IH _ h' (Halter l0 p) H k l r Hin Hr).
      * exact (IH h h' HS H k l r Hin Hr).
    + done.
  - apply elem_of_cons in Hin as [[= -> ->]|Hin]; [congruence|].
    exact (IH h h' HS H k l r Hin Hr).
Qed.

Lemma link_loop_Err nodes (S : loc -> option Record) entries : forall h,
  (forall l, Rev1.Mem.Stats <$> h !! l = S l) ->
  (forall k l, (k, l) ∈ entries -> is_Some (S l)) ->
  forall k l r, (k, l) ∈ entries -> S l = Some r -> is_ok (getPid r "PPID") = false ->
  exists k' l' r' e,
    (k', l') ∈ entries /\ S l' = Some r' /\ getPid r' "PPID" = Err e /\
    Rev1.link_loop nodes entries h = Err e.
Proof.
  induction entries as [|[k0 l0] rest IH]; intros h HS Hall k l r Hin Hr Hbad.
  { by apply elem_of_nil in Hin. }
  assert (Halter : forall c p l, Rev1.Mem.Stats <$> alter (Rev1.add_child c) p h !! l = S l).
  { intros c p x. rewrite <- HS. destruct (decide (x = p)) as [->|Hne].
    - rewrite list_lookup_alter_eq. by destruct (h !! p).
    - by rewrite list_lookup_alter_ne by congruence. }
  assert (Hrest : forall k l, (k, l) ∈ rest -> is_Some (S l)).
  { intros k' l' Hin'. apply (Hall k'). by apply list_elem_of_further. }
  assert (Hfurther : forall h1, (forall l, Rev1.Mem.Stats <$> h1 !! l = S l) ->
    (k, l) ∈ rest ->
    exists k' l' r' e,
      (k', l') ∈ (k0, l0) :: rest /\ S l' = Some r' /\ getPid r' "PPID" = Err e /\
      Rev1.link_loop nodes rest h1 = Err e).
  { intros h1 HS1 Hin1.
    destruct (IH h1 HS1 Hrest k l r Hin1 Hr Hbad) as (k' & l' & r' & e & Hin' & ? & ? & ?).
    exists k', l', r', e. split; [by apply list_elem_of_further | done]. }
  cbn [Rev1.link_loop]. pose proof (HS l0) as H0.
  destruct (Hall k0 l0) as [r0 Hr0]; [apply list_elem_of_here|].
  destruct (h !! l0) as [obj0|]; simpl in H0; [|congruence].
  assert (r0 = Rev1.Mem.Stats obj0) as -> by congruence.
  destruct (getPid (Rev1.Mem.Stats obj0) "PPID") as [q|e] eqn:Hq.
  - cbn [mbind result_bind].
    apply elem_of_cons in Hin as [[= -> ->]|Hin].
    { assert (r = Rev1.Mem.Stats obj0) as -> by congruence. by rewrite Hq in Hbad. }
    destruct (nodes !! q) as [p|].
    + exact (Hfurther _ (Halter l0 p) Hin).
    + exact (Hfurther h HS Hin).
  - exists k0, l0, (Rev1.Mem.Stats obj0), e.
    split; [apply list_elem_of_here | done].
Qed.

(** [buildProcTree] of rstat.go when the [PID] of every record and the
    [PPID] of every record that is the last one of its pid can be
    extracted. *)
Lemma buildProcTree_spec_live range stats :
  range_entries_ok range ->
  Forall (fun r => is_ok (getPid r "PID") = true) stats ->
  (forall l r, live stats l -> stats !! l = Some r -> is_ok (getPid r "PPID") = true) ->
  exists nodes : gmap Z loc,
    (forall k, nodes !! k = last_pos stats k) /\
    Rev1.buildProcTree range stats =
      match last_pos stats 1 with
      | Some root =>
          Ok (Rev1_Store.linked nodes (range nodes) (List.map Rev1_Store.cell stats), root)
      | None => Err RootNotFoundError
      end.
Proof.
  intros Hrange Hpid Hppid. unfold Rev1.buildProcTree.
  destruct (Rev1_Build.index_loop_spec stats [] ∅ Hpid) as (nodes & -> & Hnodes).
  assert (Hn : forall k, nodes !! k = last_pos stats k).
  { intros k. rewrite Hnodes. destruct (last_pos stats k); [done|]. apply lookup_empty. }
  exists nodes. split; [done|]. cbn [mbind result_bind app].
  rewrite Rev1_Build.link_loop_spec.
  - cbn [mbind result_bind]. by rewrite Hn.
  - intros k l Hkl. rewrite (Hrange nodes) in Hkl. apply elem_of_map_to_list in Hkl.
    rewrite Hn in Hkl. pose proof Hkl as (r & Hr & _)%last_pos_Some.
    exists (Rev1_Store.cell r). split.
    + change (List.map Rev1_Store.cell stats) with (Rev1_Store.cell <$> stats).
      by rewrite list_lookup_fmap, Hr.
    + simpl. apply (Hppid l); [by exists k | done].
Qed.

(** What a successful run of [buildProcTree] of rstat.go tells. *)
Lemma buildProcTree_Ok_rev1 range stats h root :
  range_entries_ok range ->
  Rev1.buildProcTree range stats = Ok (h, root) ->
  Forall (fun r => is_ok (getPid r "PID") = true) stats /\
  (forall l r, live stats l -> stats !! l = Some r -> is_ok (getPid r "PPID") = true) /\
  last_pos stats 1 = Some root /\
  exists nodes : gmap Z loc,
    (forall k, nodes !! k = last_pos stats k) /\
    h = Rev1_Store.linked nodes (range nodes) (List.map Rev1_Store.cell stats).
Proof.
  intros Hrange Hbuild.
  assert (Hpid : Forall (fun r => is_ok (getPid r "PID") = true) stats).
  { unfold Rev1.buildProcTree in Hbuild.
    destruct (Rev1.index_loop stats [] ∅) as [res|] eqn:Hidx; [|done].
    by eapply index_loop_Ok_pids. }
  assert (Hppid : forall l r, live stats l -> stats !! l = Some r ->
            is_ok (getPid r "PPID") = true).
  { unfold Rev1.buildProcTree in Hbuild.
    destruct (Rev1_Build.index_loop_spec stats [] ∅ Hpid) as (nodes & Hidx & Hnodes).
    rewrite Hidx in Hbuild. cbn [mbind result_bind app] in Hbuild.
    destruct (Rev1.link_loop nodes (range nodes) (List.map Rev1_Store.cell stats))
      as [h'|] eqn:Hlink; [|done].
    intros l r [k Hk] Hr.
    apply (link_loop_Ok_inv nodes (fun l => stats !! l) (range nodes)
             (List.map Rev1_Store.cell stats) h') with k l; [|done| |done].
    - intros x. change (List.map Rev1_Store.cell stats) with (Rev1_Store.cell <$> stats).
      rewrite list_lookup_fmap. by destruct (stats !! x).
    - rewrite (Hrange nodes). apply elem_of_map_to_list. by rewrite Hnodes, Hk. }
  destruct (buildProcTree_spec_live range stats Hrange Hpid Hppid) as (nodes & Hnodes & Heq).
  rewrite Heq in Hbuild. destruct (last_pos stats 1) as [root'|]; [|done].
  injection Hbuild as <- <-. repeat split; try done. by exists nodes.
Qed.

Lemma buildProcTree_Ok_rev2 range stats h root :
  range_entries_ok range ->
  Rev2.buildProcTree range stats = Ok (h, root) ->
  Forall ids_ok stats /\
  last_pos stats 1 = Some root /\
  exists nodes : gmap Z loc,
    (forall k, nodes !! k = last_pos stats k) /\
    h = Rev2_Store.linked nodes (range nodes) (List.map Rev2_Store.cell stats).
Proof.
  intros Hrange Hbuild.
  pose proof (buildProcTree_Ok_ids range stats _ Hbuild) as Hok.
  destruct (Rev2_Build.buildProcTree_spec_rev2 range stats Hrange Hok) as (nodes & Hnodes & Heq).
  rewrite Heq in Hbuild. destruct (last_pos stats 1) as [root'|]; [|done].
  injection Hbuild as <- <-. repeat split; try done. by exists nodes.
Qed.

Lemma last_pos_is_Some_iff stats k :
  is_Some (last_pos stats k) <-> exists r, r ∈ stats /\ getPid r "PID" = Ok k.
Proof.
  split.
  - intros [l (r & Hr & Hk & _)%last_pos_Some]. exists r.
    split; [by eapply list_elem_of_lookup_2 | done].
  - intros (r & Hr & Hk). by eapply last_pos_is_Some.
Qed.

(** X6. The lists of records that [buildProcTree] accepts. rstat.go asks for a
    [PID] in every record, for a [PPID] in the last record of every pid, and
    for a record with pid 1; it never looks at the [PPID] of a record that is
    followed by another one with the same pid. The later revision asks for
    both fields in every record. *)
Theorem buildProcTree_accepts (range : gmap Z loc -> list (Z * loc)) (stats : list Record) :
  range_entries_ok range ->
  (is_ok (Rev1.buildProcTree range stats) = true <->
     Forall (fun r => is_ok (getPid r "PID") = true) stats /\
     (forall l r, live stats l -> stats !! l = Some r -> is_ok (getPid r "PPID") = true) /\
     exists r, r ∈ stats /\ getPid r "PID" = Ok 1) /\
  (is_ok (Rev2.buildProcTree range stats) = true <->
     Forall ids_ok stats /\ exists r, r ∈ stats /\ getPid r "PID" = Ok 1).
Proof.
  intros Hrange. split; split.
  - destruct (Rev1.buildProcTree range stats) as [[h root]|] eqn:Hbuild; [|done]. intros _.
    destruct (buildProcTree_Ok_rev1 range stats h root Hrange Hbuild) as (? & ? & Hroot & _).
    repeat split; try done. apply last_pos_is_Some_iff. by rewrite Hroot.
  - intros (Hpid & Hppid & [root Hroot]%last_pos_is_Some_iff).
    destruct (buildProcTree_spec_live range stats Hrange Hpid Hppid) as (nodes & _ & ->).
    by rewrite Hroot.
  - destruct (Rev2.buildProcTree range stats) as [[h root]|] eqn:Hbuild; [|done]. intros _.
    destruct (buildProcTree_Ok_rev2 range stats h root Hrange Hbuild) as (? & Hroot & _).
    split; [done|]. apply last_pos_is_Some_iff. by rewrite Hroot.
  - intros (Hok & [root Hroot]%last_pos_is_Some_iff).
    destruct (Rev2_Build.buildProcTree_spec_rev2 range stats Hrange Hok) as (nodes & _ & ->).
    by rewrite Hroot.
Qed.

(** ** The links of the store *)

Lemma getPid_pid_of r : is_ok (getPid r "PID") = true -> getPid r "PID" = Ok (pid_of r).
Proof. unfold pid_of. by destruct (getPid r "PID"). Qed.

Lemma getPid_ppid_of r : is_ok (getPid r "PPID") = true -> getPid r "PPID" = Ok (ppid_of r).
Proof. unfold ppid_of. by destruct (getPid r "PPID"). Qed.

(** X7. The store that [buildProcTree] returns has one node object for every
    record, in the order of the list, also for the records that are not in the
    tree. The children of the object of a record are, once each, the last
    records of their pids whose [PPID] is a pid of which this record is the
    last one. In the later revision the object holds the record without the
    two identifiers, and the parent pid. *)
Theorem buildProcTree_links (range : gmap Z loc -> list (Z * loc)) (stats : list Record) :
  range_entries_ok range ->
  (forall h root, Rev1.buildProcTree range stats = Ok (h, root) ->
     List.length h = List.length stats /\
     forall l r, stats !! l = Some r ->
       exists obj, h !! l = Some obj /\
         getPid r "PID" = Ok (Rev1.Mem.Pid obj) /\ Rev1.Mem.Stats obj = r /\
         NoDup (Rev1.Mem.Children obj) /\
         forall c, c ∈ Rev1.Mem.Children obj <->
                     live stats c /\ parent_pos stats c = Some l) /\
  (forall h root, Rev2.buildProcTree range stats = Ok (h, root) ->
     List.length h = List.length stats /\
     forall l r, stats !! l = Some r ->
       exists obj, h !! l = Some obj /\
         getPid r "PID" = Ok (Rev2.Mem.Pid obj) /\
         getPid r "PPID" = Ok (Rev2.Mem.ParentPid obj) /\
         Rev2.Mem.Stats obj = delete "PPID" (delete "PID" r) /\
         NoDup (Rev2.Mem.Children obj) /\
         forall c, c ∈ Rev2.Mem.Children obj <->
                     live stats c /\ parent_pos stats c = Some l).
Proof.
  intros Hrange. split; intros h root Hbuild.
  - destruct (buildProcTree_Ok_rev1 range stats h root Hrange Hbuild)
      as (Hpid & _ & _ & nodes & Hnodes & ->).
    destruct (Rev1_Build.index_locs range nodes stats Hrange Hnodes) as [HL_nd HL_in].
    split.
    { unfold Rev1_Store.linked. by rewrite length_imap, length_map. }
    intros l r Hr. eexists. split; [by apply Rev1_Build.linked_lookup|]. simpl.
    rewrite Forall_forall in Hpid.
    split; [apply getPid_pid_of, Hpid; by eapply list_elem_of_lookup_2|].
    split; [done|]. split; [by apply kids_NoDup|].
    intros c. by rewrite elem_of_kids, HL_in.
  - destruct (buildProcTree_Ok_rev2 range stats h root Hrange Hbuild)
      as (Hok & _ & nodes & Hnodes & ->).
    destruct (Rev2_Build.index_locs_rev2 range nodes stats Hrange Hnodes) as [HL_nd HL_in].
    split.
    { unfold Rev2_Store.linked. by rewrite length_imap, length_map. }
    intros l r Hr. eexists. split; [by apply Rev2_Build.linked_lookup_rev2|]. simpl.
    rewrite Forall_forall in Hok.
    destruct (Hok r) as [Hpid Hppid]; [by eapply list_elem_of_lookup_2|].
    split; [by apply getPid_pid_of|]. split; [by apply getPid_ppid_of|].
    split; [done|]. split; [by apply kids_NoDup|].
    intros c. by rewrite elem_of_kids, HL_in.
Qed.

(** X8. In rstat.go the second loop meets the records in the order of the map
    iteration: when the [PPID] of some last record of a pid cannot be
    extracted, the error is that of one of these records, and which one
    depends on the order. *)
Theorem buildProcTree_ppid_error (range : gmap Z loc -> list (Z * loc)) (stats : list Record) :
  range_entries_ok range ->
  Forall (fun r => is_ok (getPid r "PID") = true) stats ->
  (exists l r, live stats l /\ stats !! l = Some r /\ is_ok (getPid r "PPID") = false) ->
  exists l r e,
    live stats l /\ stats !! l = Some r /\ getPid r "PPID" = Err e /\
    Rev1.buildProcTree range stats = Err e.
Proof.
  intros Hrange Hpid (l & r & [k Hk] & Hr & Hbad). unfold Rev1.buildProcTree.
  destruct (Rev1_Build.index_loop_spec stats [] ∅ Hpid) as (nodes & -> & Hnodes).
  assert (Hn : forall k, nodes !! k = last_pos stats k).
  { intros k'. rewrite Hnodes. destruct (last_pos stats k'); [done|]. apply lookup_empty. }
  cbn [mbind result_bind app].
  destruct (link_loop_Err nodes (fun l => stats !! l) (range nodes)
              (List.map Rev1_Store.cell stats)) with k l r
    as (k' & l' & r' & e & Hin' & Hr' & He & ->); [| |  |done|done|].
  - intros x. change (List.map Rev1_Store.cell stats) with (Rev1_Store.cell <$> stats).
    rewrite list_lookup_fmap. by destruct (stats !! x).
  - intros k' l'. rewrite (Hrange nodes). intros Hin'%elem_of_map_to_list.
    rewrite Hn in Hin'. apply last_pos_Some in Hin' as (r' & -> & _). done.
  - rewrite (Hrange nodes). apply elem_of_map_to_list. by rewrite Hn.
  - exists l', r', e. split; [|done].
    rewrite (Hrange nodes) in Hin'. apply elem_of_map_to_list in Hin'.
    rewrite Hn in Hin'. by exists k'.
Qed.

(** ** The traversal of the later revision *)

Module Rev2_Traversal.
Import Rev2 Rev2_Tree.

Section Find.
Context {St : Type}.
Variable pred : ProcNode -> St -> bool * St.

Lemma preorder_unfold_rev2 n : preorder n = n :: flat_map preorder (Children n).
Proof. by destruct n. Qed.

Lemma iterNodes_loop_spec_rev2 nodes : forall rest st,
  match iterNodes_loop pred nodes rest st with
  | (Some n, stack', st') =>
      stack' = [] /\ first_match_rev2 pred (pending_rev2 (nodes :: rest)) st = (Some n, st')
  | (None, stack', st') =>
      first_match_rev2 pred (pending_rev2 (nodes :: rest)) st =
        first_match_rev2 pred (pending_rev2 stack') st' /\
      (cost_rev2 stack' < cost_rev2 (nodes :: rest))%nat
  end.
Proof.
  induction nodes as [|n nodes IH]; intros rest st.
  - simpl. split; [done|]. unfold cost_rev2. simpl. lia.
  - cbn [iterNodes_loop]. unfold pending_rev2. cbn [flat_map].
    rewrite preorder_unfold_rev2. rewrite <- !app_assoc. cbn [app first_match_rev2].
    destruct (pred n st) as [[] st1]; [done|].
    destruct (Nat.ltb_spec 0 (List.length (Children n))) as [Hc|Hc].
    + split; [by cbn [flat_map]|].
      unfold cost_rev2, pending_rev2. cbn [flat_map List.length].
      rewrite (preorder_unfold_rev2 n), ?length_app. cbn [List.length].
      rewrite ?length_app. lia.
    + assert (Children n = []) as -> by (destruct (Children n); [done | simpl in Hc; lia]).
      cbn [flat_map app].
      specialize (IH rest st1). unfold pending_rev2 in IH. cbn [flat_map] in IH.
      destruct (iterNodes_loop pred nodes rest st1) as [[[m|] stack'] st'].
      * done.
      * destruct IH as [IH1 IH2]. split; [done|].
        revert IH2. unfold cost_rev2, pending_rev2. cbn [flat_map List.length].
        rewrite (preorder_unfold_rev2 n), ?length_app. cbn [List.length].
        rewrite ?length_app. lia.
Qed.

Lemma Find_loop_found_rev2 fuel n st :
  Find_loop pred fuel (Some n) [] st = Some (Some n, st).
Proof. by destruct fuel. Qed.

Lemma Find_loop_spec_rev2 fuel : forall stack st,
  (cost_rev2 stack <= fuel)%nat ->
  Find_loop pred fuel None stack st = Some (first_match_rev2 pred (pending_rev2 stack) st).
Proof.
  induction fuel as [|fuel IH]; intros stack st Hfuel.
  - destruct stack; [done|]. unfold cost_rev2 in Hfuel. simpl in Hfuel. lia.
  - destruct stack as [|nodes rest]; [done|].
    cbn [Find_loop List.length Nat.ltb Nat.leb iterNodes mbind option_bind].
    pose proof (iterNodes_loop_spec_rev2 nodes rest st) as H.
    destruct (iterNodes_loop pred nodes rest st) as [[[m|] stack'] st'].
    + destruct H as [-> H]. rewrite H. apply Find_loop_found_rev2.
    + destruct H as [H1 H2]. rewrite H1. apply IH. lia.
Qed.

Lemma Find_spec_rev2 fuel root st :
  (2 * List.length (preorder root) <= fuel)%nat ->
  Find pred fuel root st = Some (first_match_rev2 pred (preorder root) st).
Proof.
  intros Hfuel. unfold Find. rewrite preorder_unfold_rev2 in *. cbn [first_match_rev2].
  destruct (pred root st) as [[] st1]; [done|].
  cbn [iterNodes mbind option_bind iterNodes_loop].
  pose proof (iterNodes_loop_spec_rev2 (Children root) [] st1) as H.
  assert (Hp : pending_rev2 [Children root] = flat_map preorder (Children root)).
  { unfold pending_rev2. simpl. by rewrite app_nil_r. }
  rewrite Hp in H.
  destruct (iterNodes_loop pred (Children root) [] st1) as [[[m|] stack'] st'].
  - destruct H as [-> H]. rewrite H. apply Find_loop_found_rev2.
  - destruct H as [H1 H2]. rewrite H1. apply Find_loop_spec_rev2.
    revert H2. unfold cost_rev2. rewrite Hp. cbn [List.length] in *. lia.
Qed.
End Find.

Lemma first_match_never_rev2 {St} (fn : ProcNode -> St -> St) l : forall st,
  first_match_rev2 (fun n st => (false, fn n st)) l st = (None, visit_all_rev2 fn l st).
Proof. induction l as [|n l IH]; intros st; simpl; [done|]. apply IH. Qed.

Lemma ForEach_spec_rev2 {St} (fn : ProcNode -> St -> St) fuel root st :
  (2 * List.length (preorder root) <= fuel)%nat ->
  ForEach fn fuel root st = Some (visit_all_rev2 fn (preorder root) st).
Proof.
  intros Hfuel. unfold ForEach. rewrite Find_spec_rev2 by done.
  by rewrite first_match_never_rev2.
Qed.

(** X9. [Find] and [ForEach] of the later revision, whose predicate and
    visitor get the node: the nodes are visited in pre-order, [Find] stops at
    the first node for which the predicate holds and returns it, and returns
    no node when there is none; [ForEach] visits every node once. Fuel for
    twice the number of nodes is enough, and [iterNodes] is never called with
    an empty stack. *)
Theorem Find_ForEach_later_revision (root : ProcNode) (fuel : nat) :
  (2 * List.length (preorder root) <= fuel)%nat ->
  (forall (St : Type) (pred : ProcNode -> St -> bool * St) (st : St),
     Find pred fuel root st = Some (first_match_rev2 pred (preorder root) st)) /\
  (forall (St : Type) (fn : ProcNode -> St -> St) (st : St),
     ForEach fn fuel root st = Some (visit_all_rev2 fn (preorder root) st)).
Proof.
  intros Hfuel. split.
  - intros St pred st. by apply Find_spec_rev2.
  - intros St fn st. by apply ForEach_spec_rev2.
Qed.

End Rev2_Traversal.

Lemma Find_ForEach_later_revision_witness :
  let leaf := fun pid => Rev2.mkProcNode pid 1 ∅ [] in
  let root := Rev2.mkProcNode 1 0 ∅ [Rev2.mkProcNode 2 1 ∅ [Rev2.mkProcNode 4 2 ∅ []]; leaf 3; leaf 5] in
  Rev2_Tree.Find (fun n trace => (Rev2.Pid n =? 3, trace ++ [Rev2.Pid n])) 10 root []
    = Some (Some (leaf 3), [1; 2; 4; 3]) /\
  Rev2_Tree.ForEach (fun n acc => acc ++ [Rev2.Pid n]) 10 root [] = Some [1; 2; 4; 3; 5].
Proof.
  intros leaf root.
  destruct (Rev2_Traversal.Find_ForEach_later_revision root 10) as (H1 & H2).
  { simpl. lia. }
  split.
  - rewrite H1. reflexivity.
  - rewrite H2. reflexivity.
Defined.

(** ** The edges of the tree *)

Lemma tree_at_root (h : list Rev1.Mem.ProcNode) fuel l t :
  Rev1.tree_at fuel h l = Some t ->
  exists obj, h !! l = Some obj /\
    Rev1.Pid t = Rev1.Mem.Pid obj /\ Rev1.Stats t = Rev1.Mem.Stats obj.
Proof.
  destruct fuel as [|fuel]; [done|]. simpl.
  destruct (h !! l) as [obj|]; [|done]. simpl.
  destruct (mapM _ _) as [ts|]; [|done]. simpl. intros [= <-]. by exists obj.
Qed.

(** Every node of the tree at a location stands for a node object, and its
    children stand, one by one, for the children of the object. *)
Lemma tree_at_nodes (h : list Rev1.Mem.ProcNode) fuel : forall l t,
  Rev1.tree_at fuel h l = Some t ->
  forall m, m ∈ Rev1.preorder t ->
  exists lm obj, h !! lm = Some obj /\ Rev1.Pid m = Rev1.Mem.Pid obj /\
    stands_for h (Rev1.Children m) (Rev1.Mem.Children obj).
Proof.
  induction fuel as [|fuel IH]; intros l t Ht m Hm; [done|].
  simpl in Ht. destruct (h !! l) as [obj|] eqn:Hobj; [|done]. simpl in Ht.
  destruct (mapM (Rev1.tree_at fuel h) (Rev1.Mem.Children obj)) as [ts|] eqn:Hts; [|done].
  injection Ht as <-. apply mapM_Some in Hts.
  simpl in Hm. apply elem_of_cons in Hm as [->|Hm].
  - exists l, obj. split; [done|]. split; [done|]. simpl. unfold stands_for.
    apply Forall2_flip. eapply Forall2_impl; [exact Hts|].
    intros lc c Hc. by apply (tree_at_root h fuel).
  - apply list_elem_of_In, in_flat_map in Hm as (c & Hc & Hm).
    apply list_elem_of_In, list_elem_of_lookup in Hc as [i Hi].
    destruct (Forall2_lookup_r _ _ _ _ _ Hts Hi) as (lc & _ & Hlc).
    apply (IH lc c Hlc). by apply list_elem_of_In.
Qed.

Lemma tree_at_root_rev2 (h : list Rev2.Mem.ProcNode) fuel l t :
  Rev2.tree_at fuel h l = Some t ->
  exists obj, h !! l = Some obj /\
    Rev2.Pid t = Rev2.Mem.Pid obj /\ Rev2.ParentPid t = Rev2.Mem.ParentPid obj /\
    Rev2.Stats t = Rev2.Mem.Stats obj.
Proof.
  destruct fuel as [|fuel]; [done|]. simpl.
  destruct (h !! l) as [obj|]; [|done]. simpl.
  destruct (mapM _ _) as [ts|]; [|done]. simpl. intros [= <-]. by exists obj.
Qed.

Lemma tree_at_nodes_rev2 (h : list Rev2.Mem.ProcNode) fuel : forall l t,
  Rev2.tree_at fuel h l = Some t ->
  forall m, m ∈ Rev2.preorder t ->
  exists lm obj, h !! lm = Some obj /\ Rev2.Pid m = Rev2.Mem.Pid obj /\
    stands_for_rev2 h (Rev2.Children m) (Rev2.Mem.Children obj).
Proof.
  induction fuel as [|fuel IH]; intros l t Ht m Hm; [done|].
  simpl in Ht. destruct (h !! l) as [obj|] eqn:Hobj; [|done]. simpl in Ht.
  destruct (mapM (Rev2.tree_at fuel h) (Rev2.Mem.Children obj)) as [ts|] eqn:Hts; [|done].
  injection Ht as <-. apply mapM_Some in Hts.
  simpl in Hm. apply elem_of_cons in Hm as [->|Hm].
  - exists l, obj. split; [done|]. split; [done|]. simpl. unfold stands_for_rev2.
    apply Forall2_flip. eapply Forall2_impl; [exact Hts|].
    intros lc c Hc. by apply (tree_at_root_rev2 h fuel).
  - apply list_elem_of_In, in_flat_map in Hm as (c & Hc & Hm).
    apply list_elem_of_In, list_elem_of_lookup in Hc as [i Hi].
    destruct (Forall2_lookup_r _ _ _ _ _ Hts Hi) as (lc & _ & Hlc).
    apply (IH lc c Hlc). by apply list_elem_of_In.
Qed.

Lemma parent_pos_Some stats c l :
  parent_pos stats c = Some l ->
  exists rc r q, stats !! c = Some rc /\ getPid rc "PPID" = Ok q /\
    stats !! l = Some r /\ getPid r "PID" = Ok q.
Proof.
  unfold parent_pos. destruct (stats !! c) as [rc|]; [|done]. simpl.
  destruct (getPid rc "PPID") as [q|] eqn:Hq; [|done].
  intros (r & Hr & Hk & _)%last_pos_Some. by exists rc, r, q.
Qed.

(** X10. In a tree read off the store that [buildProcTree] returns, the parent
    pid of every child is the pid of the node that has it as a child: in
    rstat.go the [PPID] field of the child, in the later revision its
    [ParentPid]. *)
Theorem buildProcTree_edges (range : gmap Z loc -> list (Z * loc)) (stats : list Record) :
  range_entries_ok range ->
  (forall h root fuel t,
     Rev1.buildProcTree range stats = Ok (h, root) ->
     Rev1.tree_at fuel h root = Some t ->
     forall m c, m ∈ Rev1.preorder t -> c ∈ Rev1.Children m ->
       getPid (Rev1.Stats c) "PPID" = Ok (Rev1.Pid m)) /\
  (forall h root fuel t,
     Rev2.buildProcTree range stats = Ok (h, root) ->
     Rev2.tree_at fuel h root = Some t ->
     forall m c, m ∈ Rev2.preorder t -> c ∈ Rev2.Children m ->
       Rev2.ParentPid c = Rev2.Pid m).
Proof.
  intros Hrange. split; intros h root fuel t Hbuild Ht m c Hm Hc.
  - destruct (buildProcTree_Ok_rev1 range stats h root Hrange Hbuild)
      as (Hpid & _ & _ & nodes & Hnodes & ->).
    destruct (tree_at_nodes _ fuel root t Ht m Hm) as (lm & obj & Hobj & Hpm & Hcs).
    apply list_elem_of_lookup in Hc as [i Hi].
    destruct (Forall2_lookup_l _ _ _ _ _ Hcs Hi) as (lc & Hlc & objc & Hobjc & _ & Hsc).
    apply list_elem_of_lookup_2 in Hlc. rewrite Hpm, Hsc. clear Hpm Hsc Hcs Hi Ht Hm.
    destruct (stats !! lm) as [r|] eqn:Hr.
    2:{ apply lookup_lt_Some in Hobj. apply lookup_ge_None in Hr.
        unfold Rev1_Store.linked in Hobj. rewrite length_imap, length_map in Hobj. lia. }
    rewrite (Rev1_Build.linked_lookup range nodes stats lm r Hnodes Hr) in Hobj.
    injection Hobj as <-. simpl in *.
    apply elem_of_kids in Hlc as [_ (rc & r' & q & Hrc & Hq & Hr' & Hk)%parent_pos_Some].
    rewrite (Rev1_Build.linked_lookup range nodes stats lc rc Hnodes Hrc) in Hobjc.
    injection Hobjc as <-. simpl.
    assert (r' = r) as -> by congruence. by rewrite (pid_of_Ok r q Hk).
  - destruct (buildProcTree_Ok_rev2 range stats h root Hrange Hbuild)
      as (Hok & _ & nodes & Hnodes & ->).
    destruct (tree_at_nodes_rev2 _ fuel root t Ht m Hm) as (lm & obj & Hobj & Hpm & Hcs).
    apply list_elem_of_lookup in Hc as [i Hi].
    destruct (Forall2_lookup_l _ _ _ _ _ Hcs Hi)
      as (lc & Hlc & objc & Hobjc & _ & Hqc & _).
    apply list_elem_of_lookup_2 in Hlc. rewrite Hpm, Hqc. clear Hpm Hqc Hcs Hi Ht Hm.
    destruct (stats !! lm) as [r|] eqn:Hr.
    2:{ apply lookup_lt_Some in Hobj. apply lookup_ge_None in Hr.
        unfold Rev2_Store.linked in Hobj. rewrite length_imap, length_map in Hobj. lia. }
    rewrite (Rev2_Build.linked_lookup_rev2 range nodes stats lm r Hok Hnodes Hr) in Hobj.
    injection Hobj as <-. simpl in *.
    apply elem_of_kids in Hlc as [_ (rc & r' & q & Hrc & Hq & Hr' & Hk)%parent_pos_Some].
    rewrite (Rev2_Build.linked_lookup_rev2 range nodes stats lc rc Hok Hnodes Hrc) in Hobjc.
    injection Hobjc as <-. simpl.
    assert (r' = r) as -> by congruence.
    by rewrite (pid_of_Ok r q Hk), (ppid_of_Ok rc q Hq).
Qed.

Lemma buildProcTree_edges_witness :
  let stats := [proc "1" "0" "init"; proc "2" "1" "sh"; proc "3" "2" "ls"] in
  exists h root t,
    Rev1.buildProcTree map_to_list stats = Ok (h, root) /\
    Rev1.tree_at 3 h root = Some t /\
    forall m c, m ∈ Rev1.preorder t -> c ∈ Rev1.Children m ->
      getPid (Rev1.Stats c) "PPID" = Ok (Rev1.Pid m).
Proof.
  intros stats. eexists _, _, _. split; [by vm_compute|]. split; [by vm_compute|].
  eapply (proj1 (buildProcTree_edges map_to_list stats ltac:(by intros m)) _ _ 3%nat);
    by vm_compute.
Defined.

Lemma buildProcTree_links_witness :
  let stats := [proc "1" "0" "init"; proc "2" "1" "sh"; proc "7" "9" "orphan"] in
  exists h root,
    Rev1.buildProcTree map_to_list stats = Ok (h, root) /\
    List.length h = 3%nat /\
    exists obj, h !! 0%nat = Some obj /\ Rev1.Mem.Stats obj = proc "1" "0" "init" /\
      forall c, c ∈ Rev1.Mem.Children obj <-> live stats c /\ parent_pos stats c = Some 0%nat.
Proof.
  intros stats. eexists _, _. split; [by vm_compute|].
  destruct (proj1 (buildProcTree_links map_to_list stats ltac:(by intros m)) _ _ eq_refl)
    as [Hlen Hobj].
  split; [exact Hlen|].
  destruct (Hobj 0%nat (proc "1" "0" "init") eq_refl) as (obj & H1 & _ & H2 & _ & H3).
  by exists obj.
Defined.

Lemma buildProcTree_accepts_witness :
  let stats := [proc "1" "0" "init"; proc "2" "x" "old"; proc "2" "1" "new"] in
  (is_ok (Rev1.buildProcTree map_to_list stats) = true <->
     Forall (fun r => is_ok (getPid r "PID") = true) stats /\
     (forall l r, live stats l -> stats !! l = Some r -> is_ok (getPid r "PPID") = true) /\
     exists r, r ∈ stats /\ getPid r "PID" = Ok 1) /\
  (is_ok (Rev2.buildProcTree map_to_list stats) = true <->
     Forall ids_ok stats /\ exists r, r ∈ stats /\ getPid r "PID" = Ok 1).
Proof.
  intros stats. apply (buildProcTree_accepts map_to_list stats). by intros m.
Defined.

Lemma buildProcTree_ppid_error_witness :
  let stats := [proc "1" "0" "init"; proc "2" "x" "sh"] in
  exists l r e,
    live stats l /\ stats !! l = Some r /\ getPid r "PPID" = Err e /\
    Rev1.buildProcTree map_to_list stats = Err e.
Proof.
  intros stats. apply (buildProcTree_ppid_error map_to_list stats).
  - by intros m.
  - repeat constructor.
  - exists 1%nat, (proc "2" "x" "sh"). split; [by exists 2|]. split; reflexivity.
Defined.

(** ** Looking up a process in the tree *)

Lemma first_match_has_pid k l :
  first_match (has_pid k) l () = (List.find (fun n => Rev1.Pid n =? k) l, ()).
Proof.
  induction l as [|n l IH]; simpl; [done|]. by destruct (Rev1.Pid n =? k).
Qed.

Lemma first_match_has_pid_rev2 k l :
  first_match_rev2 (has_pid_rev2 k) l () = (List.find (fun n => Rev2.Pid n =? k) l, ()).
Proof.
  induction l as [|n l IH]; simpl; [done|]. by destruct (Rev2.Pid n =? k).
Qed.

(** Looking for a pid among nodes that stand for the records that descend
    from the root: the node found is that of the last record with the pid,
    and no node is found when that record does not descend from the root. *)
Lemma find_pid_spec {N : Type} (pid_of_node : N -> Z) (nodes : list N)
    (stats : list Record) (order : list nat) (k : Z) :
  (forall l, l ∈ order <-> traces_to_root stats l) ->
  Forall2 (fun n l => exists r, stats !! l = Some r /\ getPid r "PID" = Ok (pid_of_node n))
          nodes order ->
  match List.find (fun n => pid_of_node n =? k) nodes with
  | Some n =>
      pid_of_node n = k /\
      exists i l, nodes !! i = Some n /\ order !! i = Some l /\
        last_pos stats k = Some l /\ traces_to_root stats l
  | None => forall l, last_pos stats k = Some l -> ~ traces_to_root stats l
  end.
Proof.
  intros Hin Hrec.
  destruct (List.find _ nodes) as [n|] eqn:Hfind.
  - apply find_some in Hfind as [Hn Hk]. apply Z.eqb_eq in Hk. split; [done|].
    apply list_elem_of_In, list_elem_of_lookup in Hn as [i Hi].
    destruct (Forall2_lookup_l _ _ _ _ _ Hrec Hi) as (l & Hl & r & Hr & Hpid).
    exists i, l. split; [done|]. split; [done|].
    assert (Htr : traces_to_root stats l) by (apply Hin; by eapply list_elem_of_lookup_2).
    split; [|done]. destruct Htr as [[k' Hk'] _].
    pose proof Hk' as (r' & Hr' & Hpid' & _)%last_pos_Some.
    assert (k' = k) as -> by congruence. done.
  - intros l Hl Htr. apply Hin, list_elem_of_lookup in Htr as [i Hi].
    destruct (Forall2_lookup_r _ _ _ _ _ Hrec Hi) as (n & Hn & r & Hr & Hpid).
    apply last_pos_Some in Hl as (r' & Hr' & Hk & _).
    assert (pid_of_node n = k) as Hnk by congruence.
    assert (Hf : (pid_of_node n =? k) = false).
    { apply (find_none _ _ Hfind n). by eapply list_elem_of_In, list_elem_of_lookup_2. }
    apply Z.eqb_neq in Hf. done.
Qed.

(** X11. [Find] with the test for a pid, on the tree that [buildProcTree]
    returns: it returns the node of the last record with that pid, when this
    record descends from the root, and no node otherwise. *)
Theorem Find_by_pid (range : gmap Z loc -> list (Z * loc)) (stats : list Record) (k : Z) :
  range_entries_ok range -> Forall ids_ok stats ->
  (exists r, r ∈ stats /\ getPid r "PID" = Ok 1) ->
  (forall root n, last_pos stats 1 = Some root ->
     up (parent_pos stats) (S n) root <> Some root) ->
  (exists h root t,
     Rev1.buildProcTree range stats = Ok (h, root) /\
     (forall fuel, (List.length stats <= fuel)%nat -> Rev1.tree_at fuel h root = Some t) /\
     forall fuel, (2 * List.length stats <= fuel)%nat ->
     exists found,
       Rev1.Find (has_pid k) fuel t () = Some (found, ()) /\
       match found with
       | Some n =>
           Rev1.Pid n = k /\
           exists l, last_pos stats k = Some l /\ traces_to_root stats l /\
             stats !! l = Some (Rev1.Stats n)
       | None => forall l, last_pos stats k = Some l -> ~ traces_to_root stats l
       end) /\
  (exists h root t,
     Rev2.buildProcTree range stats = Ok (h, root) /\
     (forall fuel, (List.length stats <= fuel)%nat -> Rev2.tree_at fuel h root = Some t) /\
     forall fuel, (2 * List.length stats <= fuel)%nat ->
     exists found,
       Rev2_Tree.Find (has_pid_rev2 k) fuel t () = Some (found, ()) /\
       match found with
       | Some n =>
           Rev2.Pid n = k /\
           exists l r, last_pos stats k = Some l /\ traces_to_root stats l /\
             stats !! l = Some r /\ Rev2.Stats n = delete "PPID" (delete "PID" r)
       | None => forall l, last_pos stats k = Some l -> ~ traces_to_root stats l
       end).
Proof.
  intros Hrange Hok Hroot Hnc. split.
  - destruct (buildProcTree_tree_rev1 range stats Hrange Hok Hroot Hnc)
      as (h & root & t & order & Hb & Ht & _ & Hnd & Hin & Hrec & _).
    exists h, root, t. split; [done|]. split; [done|]. intros fuel Hfuel.
    assert (Hlen : (List.length (Rev1.preorder t) <= List.length stats)%nat).
    { rewrite (Forall2_length _ _ _ Hrec). apply live_length; [done|].
      by intros l [Hl _]%Hin. }
    rewrite Rev1_Traversal.Find_spec by lia. rewrite first_match_has_pid.
    eexists. split; [done|].
    pose proof (find_pid_spec Rev1.Pid (Rev1.preorder t) stats order k Hin) as Hfind.
    destruct (List.find _ _) as [n|].
    + destruct Hfind as (Hk & i & l & Hi & Hl & Hlast & Htr).
      { eapply Forall2_impl; [exact Hrec|]. intros n' l' (r & ? & ? & _). by exists r. }
      split; [done|]. exists l. split; [done|]. split; [done|].
      destruct (Forall2_lookup_lr _ _ _ _ _ _ Hrec Hi Hl) as (r & Hr & _ & ->). done.
    + apply Hfind.
      eapply Forall2_impl; [exact Hrec|]. intros n' l' (r & ? & ? & _). by exists r.
  - destruct (buildProcTree_tree_rev2 range stats Hrange Hok Hroot Hnc)
      as (h & root & t & order & Hb & Ht & _ & Hnd & Hin & Hrec & _).
    exists h, root, t. split; [done|]. split; [done|]. intros fuel Hfuel.
    assert (Hlen : (List.length (Rev2.preorder t) <= List.length stats)%nat).
    { rewrite (Forall2_length _ _ _ Hrec). apply live_length; [done|].
      by intros l [Hl _]%Hin. }
    rewrite Rev2_Traversal.Find_spec_rev2 by lia. rewrite first_match_has_pid_rev2.
    eexists. split; [done|].
    pose proof (find_pid_spec Rev2.Pid (Rev2.preorder t) stats order k Hin) as Hfind.
    destruct (List.find _ _) as [n|].
    + destruct Hfind as (Hk & i & l & Hi & Hl & Hlast & Htr).
      { eapply Forall2_impl; [exact Hrec|]. intros n' l' (r & ? & ? & _). by exists r. }
      split; [done|].
      destruct (Forall2_lookup_lr _ _ _ _ _ _ Hrec Hi Hl) as (r & Hr & _ & _ & Hst).
      by exists l, r.
    + apply Hfind.
      eapply Forall2_impl; [exact Hrec|]. intros n' l' (r & ? & ? & _). by exists r.
Qed.

Lemma length_visit_all {A} (l : list A) : forall c : nat,
  foldl (fun c _ => S c) c l = (c + List.length l)%nat.
Proof. induction l as [|a l IH]; intros c; simpl; [lia|]. rewrite IH. lia. Qed.

(** As many positions are listed as there are records, when every position
    is listed once. *)
Lemma all_positions {A} (stats : list A) (order : list nat) :
  NoDup order ->
  (forall l, l ∈ order -> (l < List.length stats)%nat) ->
  (forall l, (l < List.length stats)%nat -> l ∈ order) ->
  List.length order = List.length stats.
Proof.
  intros Hnd Hlt Hall.
  assert (Hperm : order ≡ₚ seq 0 (List.length stats)).
  { apply NoDup_Permutation; [done | apply NoDup_seq|].
    intros l. rewrite elem_of_seq. split; [intros ?%Hlt; lia | intros [_ ?]; by apply Hall]. }
  by rewrite Hperm, length_seq.
Qed.

(** X12. When every record is the last one of its pid and descends from the
    root, [ForEach] visits as many nodes as there are records. *)
Theorem ForEach_counts_records (range : gmap Z loc -> list (Z * loc)) (stats : list Record) :
  range_entries_ok range -> Forall ids_ok stats ->
  (forall root n, last_pos stats 1 = Some root ->
     up (parent_pos stats) (S n) root <> Some root) ->
  stats <> [] ->
  (forall l, (l < List.length stats)%nat -> traces_to_root stats l) ->
  (exists h root t,
     Rev1.buildProcTree range stats = Ok (h, root) /\
     (forall fuel, (List.length stats <= fuel)%nat -> Rev1.tree_at fuel h root = Some t) /\
     forall fuel, (2 * List.length stats <= fuel)%nat ->
       Rev1.ForEach (fun _ _ count => S count) fuel t 0%nat = Some (List.length stats)) /\
  (exists h root t,
     Rev2.buildProcTree range stats = Ok (h, root) /\
     (forall fuel, (List.length stats <= fuel)%nat -> Rev2.tree_at fuel h root = Some t) /\
     forall fuel, (2 * List.length stats <= fuel)%nat ->
       Rev2_Tree.ForEach (fun _ count => S count) fuel t 0%nat = Some (List.length stats)).
Proof.
  intros Hrange Hok Hnc Hne Hall.
  assert (Hroot : exists r, r ∈ stats /\ getPid r "PID" = Ok 1).
  { destruct stats as [|r0 rest]; [done|].
    destruct (Hall 0%nat) as [_ (root & _ & Hr & _)]; [simpl; lia|].
    apply last_pos_is_Some_iff. by rewrite Hr. }
  assert (Hlen : forall order, NoDup order ->
            (forall l, l ∈ order <-> traces_to_root stats l) ->
            List.length order = List.length stats).
  { intros order Hnd Hin. apply all_positions; [done| |].
    - intros l [[k Hk] _]%Hin. by eapply last_pos_lt.
    - intros l Hl. by apply Hin, Hall. }
  split.
  - destruct (buildProcTree_tree_rev1 range stats Hrange Hok Hroot Hnc)
      as (h & root & t & order & Hb & Ht & _ & Hnd & Hin & Hrec & _).
    exists h, root, t. split; [done|]. split; [done|]. intros fuel Hfuel.
    apply Forall2_length in Hrec. rewrite (Hlen order Hnd Hin) in Hrec.
    rewrite Rev1_Traversal.ForEach_spec by lia.
    unfold visit_all. by rewrite length_visit_all, Hrec.
  - destruct (buildProcTree_tree_rev2 range stats Hrange Hok Hroot Hnc)
      as (h & root & t & order & Hb & Ht & _ & Hnd & Hin & Hrec & _).
    exists h, root, t. split; [done|]. split; [done|]. intros fuel Hfuel.
    apply Forall2_length in Hrec. rewrite (Hlen order Hnd Hin) in Hrec.
    rewrite Rev2_Traversal.ForEach_spec_rev2 by lia.
    unfold visit_all_rev2. by rewrite length_visit_all, Hrec.
Qed.

Lemma Find_by_pid_witness :
  let stats := [proc "1" "0" "init"; proc "2" "1" "sh"; proc "7" "9" "orphan"; proc "3" "2" "ls"] in
  exists h root t,
    Rev1.buildProcTree map_to_list stats = Ok (h, root) /\
    Rev1.tree_at 4 h root = Some t /\
    exists found,
      Rev1.Find (has_pid 3) 8 t () = Some (found, ()) /\
      match found with
      | Some n =>
          Rev1.Pid n = 3 /\
          exists l, last_pos stats 3 = Some l /\ traces_to_root stats l /\
            stats !! l = Some (Rev1.Stats n)
      | None => forall l, last_pos stats 3 = Some l -> ~ traces_to_root stats l
      end.
Proof.
  intros stats.
  destruct (Find_by_pid map_to_list stats 3) as [(h & root & t & Hb & Ht & HF) _].
  - by intros m.
  - repeat (constructor; [by split|]). constructor.
  - exists (proc "1" "0" "init"). split; [apply list_elem_of_here | reflexivity].
  - intros root n Hroot.
    assert (root = 0%nat) as -> by (vm_compute in Hroot; congruence).
    change (up (parent_pos stats) (S n) 0%nat)
      with (p ← parent_pos stats 0%nat; up (parent_pos stats) n p).
    by assert (parent_pos stats 0%nat = None) as -> by reflexivity.
  - exists h, root, t. split; [exact Hb|]. split; [apply Ht; simpl; lia|].
    apply HF. simpl. lia.
Defined.

Lemma ForEach_counts_records_witness :
  let stats := [proc "1" "0" "init"; proc "2" "1" "sh"; proc "3" "2" "ls"] in
  exists h root t,
    Rev1.buildProcTree map_to_list stats = Ok (h, root) /\
    Rev1.tree_at 3 h root = Some t /\
    Rev1.ForEach (fun _ _ count => S count) 6 t 0%nat = Some 3%nat.
Proof.
  intros stats.
  destruct (ForEach_counts_records map_to_list stats) as [(h & root & t & Hb & Ht & HF) _].
  - by intros m.
  - repeat (constructor; [by split|]). constructor.
  - intros root n Hroot.
    assert (root = 0%nat) as -> by (vm_compute in Hroot; congruence).
    change (up (parent_pos stats) (S n) 0%nat)
      with (p ← parent_pos stats 0%nat; up (parent_pos stats) n p).
    by assert (parent_pos stats 0%nat = None) as -> by reflexivity.
  - done.
  - intros [|[|[|l]]] Hl; [| | |simpl in Hl; lia].
    + split; [by exists 1|]. by exists 0%nat, 0%nat.
    + split; [by exists 2|]. by exists 0%nat, 1%nat.
    + split; [by exists 3|]. by exists 0%nat, 2%nat.
  - exists h, root, t. split; [exact Hb|]. split; [apply Ht; simpl; lia|].
    apply HF. simpl. lia.
Defined.

(** ** From the lines to the tree *)

Lemma nonEmptyLines_blank lines :
  Forall (fun l => TrimSpace l = "") lines -> nonEmptyLines lines = [].
Proof.
  unfold nonEmptyLines. induction 1 as [|l lines Hl _ IH]; [done|].
  simpl. by rewrite Hl.
Qed.

Lemma buildProcTree_nil_rev1 range : Rev1.buildProcTree range [] = Err RootNotFoundError.
Proof.
  unfold Rev1.buildProcTree. cbn [Rev1.index_loop mbind result_bind].
  assert (Rev1.link_loop ∅ (range ∅) [] = Ok []) as ->; [|done].
  induction (range ∅) as [|[k l] rest IH]; [done|]. done.
Qed.

Lemma buildProcTree_nil_rev2 range : Rev2.buildProcTree range [] = Err RootNotFoundError.
Proof. done. Qed.

(** X13. A command whose output has no data row (no line, blank lines only, or
    the header alone) gives no tree: the error is that of the command when it
    failed, and [RootNotFoundError] otherwise. *)
Theorem pstree_no_rows (range : gmap Z loc -> list (Z * loc)) (lines : list string)
    (fail : option source_error) :
  Forall (fun l => TrimSpace l = "") lines \/
  (exists hdr, nonEmptyLines lines = [hdr] /\ (2 <= List.length (Fields hdr))%nat) ->
  let e := match fail with
           | Some err => ExecutionError (mapCmdError err)
           | None => RootNotFoundError
           end in
  Rev1.pstree range lines fail = Err e /\ Rev2.pstree range lines fail = Err e.
Proof.
  intros Hrows e. unfold Rev1.pstree, Rev2.pstree, Parse.
  assert (exists hdr, feed fn_Enter (mkParser [] []) (nonEmptyLines lines)
                              = Ok (mkParser hdr [])) as [hdr ->].
  { destruct Hrows as [Hblank|(hdr & -> & Hlen)].
    - rewrite nonEmptyLines_blank by done. by exists [].
    - exists (Fields hdr). simpl. unfold psParser_Enter.
      destruct (Nat.ltb_spec (List.length (Fields hdr)) 2); [lia | done]. }
  cbn [mbind result_bind].
  destruct fail; [done|]. cbn [mbind result_bind stats].
  by rewrite buildProcTree_nil_rev1, buildProcTree_nil_rev2.
Qed.

Lemma pstree_no_rows_witness :
  Rev1.pstree map_to_list [""; "  PID  PPID CMD "; "   "] None = Err RootNotFoundError /\
  Rev2.pstree map_to_list [""; "  PID  PPID CMD "; "   "] None = Err RootNotFoundError.
Proof.
  apply (pstree_no_rows map_to_list [""; "  PID  PPID CMD "; "   "] None).
  right. exists "PID  PPID CMD". split; [reflexivity|]. vm_compute. lia.
Defined.

Lemma feed_Enter p hdr rest :
  (2 <= List.length (Fields hdr))%nat ->
  feed fn_Enter p (hdr :: rest) = feed fn_read (mkParser (Fields hdr) []) rest.
Proof.
  intros Hlen. cbn [feed call]. unfold psParser_Enter.
  destruct (Nat.ltb_spec (List.length (Fields hdr)) 2); [lia | done].
Qed.

(** X14. When the header has no column titled [PID] and there is a data row,
    the rows being as long as the header, [pstree] fails with
    [MissingFieldError] for [PID]. *)
Theorem pstree_missing_pid_column (range : gmap Z loc -> list (Z * loc))
    (lines : list string) (hdr row : string) (rows : list string) :
  nonEmptyLines lines = hdr :: row :: rows ->
  (2 <= List.length (Fields hdr))%nat ->
  "PID" ∉ Fields hdr ->
  Forall (row_ok (List.length (Fields hdr))) (row :: rows) ->
  Rev1.pstree range lines None = Err (MissingFieldError "PID") /\
  Rev2.pstree range lines None = Err (MissingFieldError "PID").
Proof.
  intros Hlines Hlen Hpid Hrows. unfold Rev1.pstree, Rev2.pstree, Parse.
  rewrite Hlines, feed_Enter by done.
  rewrite feed_read_ok by done. cbn [mbind result_bind stats header app List.map].
  set (r := fill (Fields hdr) (Split row (List.length (Fields hdr))) ∅).
  assert (Hr : getPid r "PID" = Err (MissingFieldError "PID")).
  { unfold getPid, index, r. rewrite fill_lookup_other by done. by rewrite lookup_empty. }
  unfold Rev1.buildProcTree, Rev2.buildProcTree.
  cbn [Rev1.index_loop Rev2.index_loop]. by rewrite Hr.
Qed.

Lemma pstree_missing_pid_column_witness :
  Rev1.pstree map_to_list ["PPID CMD"; "0 /sbin/init"] None = Err (MissingFieldError "PID") /\
  Rev2.pstree map_to_list ["PPID CMD"; "0 /sbin/init"] None = Err (MissingFieldError "PID").
Proof.
  apply (pstree_missing_pid_column map_to_list ["PPID CMD"; "0 /sbin/init"]
           "PPID CMD" "0 /sbin/init" []).
  - reflexivity.
  - vm_compute. lia.
  - vm_compute. intros H. repeat (apply elem_of_cons in H as [H|H]; [done|]).
    by apply elem_of_nil in H.
  - repeat constructor.
Defined.

(** ** The order of the map iteration, and the two revisions *)

Lemma index_unique (nodes nodes' : gmap Z loc) stats :
  (forall k, nodes !! k = last_pos stats k) ->
  (forall k, nodes' !! k = last_pos stats k) -> nodes = nodes'.
Proof. intros H H'. apply map_eq. intros k. by rewrite H, H'. Qed.

Lemma kids_Permutation stats (range range' : gmap Z loc -> list (Z * loc))
    (nodes : gmap Z loc) l :
  range_entries_ok range -> range_entries_ok range' ->
  (forall k, nodes !! k = last_pos stats k) ->
  kids (parent_pos stats) (range nodes).*2 l ≡ₚ kids (parent_pos stats) (range' nodes).*2 l.
Proof.
  intros Hr Hr' Hnodes.
  destruct (Rev1_Build.index_locs range nodes stats Hr Hnodes) as [Hnd Hin].
  destruct (Rev1_Build.index_locs range' nodes stats Hr' Hnodes) as [Hnd' Hin'].
  apply NoDup_Permutation; [by apply kids_NoDup | by apply kids_NoDup|].
  intros c. by rewrite !elem_of_kids, Hin, Hin'.
Qed.

(** X15. The order in which the map of nodes is iterated decides the order of
    the children of a node, and nothing else: for any two orders the run
    succeeds for both or for none, with the same root and the same node
    objects, whose lists of children are permutations of one another. *)
Theorem buildProcTree_iteration_order (range range' : gmap Z loc -> list (Z * loc))
    (stats : list Record) :
  range_entries_ok range -> range_entries_ok range' ->
  (forall h root, Rev1.buildProcTree range stats = Ok (h, root) ->
     exists h', Rev1.buildProcTree range' stats = Ok (h', root) /\
       Forall2 (fun obj obj' =>
                  Rev1.Mem.Pid obj = Rev1.Mem.Pid obj' /\
                  Rev1.Mem.Stats obj = Rev1.Mem.Stats obj' /\
                  Rev1.Mem.Children obj ≡ₚ Rev1.Mem.Children obj') h h') /\
  (forall h root, Rev2.buildProcTree range stats = Ok (h, root) ->
     exists h', Rev2.buildProcTree range' stats = Ok (h', root) /\
       Forall2 (fun obj obj' =>
                  Rev2.Mem.Pid obj = Rev2.Mem.Pid obj' /\
                  Rev2.Mem.ParentPid obj = Rev2.Mem.ParentPid obj' /\
                  Rev2.Mem.Stats obj = Rev2.Mem.Stats obj' /\
                  Rev2.Mem.Children obj ≡ₚ Rev2.Mem.Children obj') h h').
Proof.
  intros Hr Hr'. split; intros h root Hbuild.
  - destruct (buildProcTree_Ok_rev1 range stats h root Hr Hbuild)
      as (Hpid & Hppid & Hroot & nodes & Hnodes & ->).
    destruct (buildProcTree_spec_live range' stats Hr' Hpid Hppid) as (nodes' & Hnodes' & ->).
    rewrite Hroot. eexists. split; [done|].
    rewrite <- (index_unique nodes nodes' stats Hnodes Hnodes').
    apply Forall2_same_length_lookup_2.
    { unfold Rev1_Store.linked. by rewrite !length_imap. }
    intros l obj obj' Hobj Hobj'.
    destruct (stats !! l) as [r|] eqn:Hrl.
    2:{ apply lookup_lt_Some in Hobj. apply lookup_ge_None in Hrl.
        unfold Rev1_Store.linked in Hobj. rewrite length_imap, length_map in Hobj. lia. }
    rewrite (Rev1_Build.linked_lookup range nodes stats l r Hnodes Hrl) in Hobj.
    rewrite (Rev1_Build.linked_lookup range' nodes stats l r Hnodes Hrl) in Hobj'.
    injection Hobj as <-. injection Hobj' as <-. simpl.
    split; [done|]. split; [done|]. by apply kids_Permutation.
  - destruct (buildProcTree_Ok_rev2 range stats h root Hr Hbuild)
      as (Hok & Hroot & nodes & Hnodes & ->).
    destruct (Rev2_Build.buildProcTree_spec_rev2 range' stats Hr' Hok) as (nodes' & Hnodes' & ->).
    rewrite Hroot. eexists. split; [done|].
    rewrite <- (index_unique nodes nodes' stats Hnodes Hnodes').
    apply Forall2_same_length_lookup_2.
    { unfold Rev2_Store.linked. by rewrite !length_imap. }
    intros l obj obj' Hobj Hobj'.
    destruct (stats !! l) as [r|] eqn:Hrl.
    2:{ apply lookup_lt_Some in Hobj. apply lookup_ge_None in Hrl.
        unfold Rev2_Store.linked in Hobj. rewrite length_imap, length_map in Hobj. lia. }
    rewrite (Rev2_Build.linked_lookup_rev2 range nodes stats l r Hok Hnodes Hrl) in Hobj.
    rewrite (Rev2_Build.linked_lookup_rev2 range' nodes stats l r Hok Hnodes Hrl) in Hobj'.
    injection Hobj as <-. injection Hobj' as <-. simpl.
    split; [done|]. split; [done|]. split; [done|]. by apply kids_Permutation.
Qed.

(** The order does show in the result: the children of a node come in the
    order of the iteration. *)
Example buildProcTree_children_order :
  let stats := [proc "1" "0" "init"; proc "2" "1" "a"; proc "3" "1" "b"] in
  Rev1.buildProcTree map_to_list stats <> Rev1.buildProcTree (reverse ∘ map_to_list) stats.
Proof. intros stats H. by vm_compute in H. Qed.

Lemma buildProcTree_iteration_order_witness :
  let stats := [proc "1" "0" "init"; proc "2" "1" "a"; proc "3" "1" "b"] in
  exists h h' root,
    Rev1.buildProcTree map_to_list stats = Ok (h, root) /\
    Rev1.buildProcTree (reverse ∘ map_to_list) stats = Ok (h', root) /\
    Forall2 (fun obj obj' =>
               Rev1.Mem.Pid obj = Rev1.Mem.Pid obj' /\
               Rev1.Mem.Stats obj = Rev1.Mem.Stats obj' /\
               Rev1.Mem.Children obj ≡ₚ Rev1.Mem.Children obj') h h'.
Proof.
  intros stats.
  destruct (buildProcTree_iteration_order map_to_list (reverse ∘ map_to_list) stats)
    as [H _].
  - by intros m.
  - intros m. apply reverse_Permutation.
  - destruct (H _ _ eq_refl) as (h' & Hb' & Hrel). by eexists _, h', _.
Defined.

(** X16. The later revision accepts fewer lists of records than rstat.go, and
    builds the same links: what it returns is the store of rstat.go with every
    object in its later form. *)
Theorem buildProcTree_revisions (range : gmap Z loc -> list (Z * loc)) (stats : list Record) :
  range_entries_ok range ->
  forall h2 root, Rev2.buildProcTree range stats = Ok (h2, root) ->
  exists h1, Rev1.buildProcTree range stats = Ok (h1, root) /\ h2 = later_form <$> h1.
Proof.
  intros Hrange h2 root Hbuild.
  destruct (buildProcTree_Ok_rev2 range stats h2 root Hrange Hbuild)
    as (Hok & Hroot & nodes & Hnodes & ->).
  destruct (Rev1_Build.buildProcTree_spec range stats Hrange Hok) as (nodes' & Hnodes' & ->).
  rewrite Hroot. eexists. split; [done|].
  rewrite <- (index_unique nodes nodes' stats Hnodes Hnodes').
  apply list_eq. intros l. rewrite list_lookup_fmap.
  destruct (stats !! l) as [r|] eqn:Hr.
  - rewrite (Rev1_Build.linked_lookup range nodes stats l r Hnodes Hr).
    by rewrite (Rev2_Build.linked_lookup_rev2 range nodes stats l r Hok Hnodes Hr).
  - apply lookup_ge_None in Hr.
    rewrite !(proj2 (lookup_ge_None _ _)); [done| |].
    + unfold Rev1_Store.linked. by rewrite length_imap, length_map.
    + unfold Rev2_Store.linked. by rewrite length_imap, length_map.
Qed.

Lemma buildProcTree_revisions_witness :
  let stats := [proc "1" "0" "init"; proc "2" "1" "sh"] in
  exists h1 h2 root,
    Rev2.buildProcTree map_to_list stats = Ok (h2, root) /\
    Rev1.buildProcTree map_to_list stats = Ok (h1, root) /\ h2 = later_form <$> h1.
Proof.
  intros stats.
  destruct (buildProcTree_revisions map_to_list stats ltac:(by intros m) _ _ eq_refl)
    as (h1 & Hb & Heq).
  by eexists h1, _, _.
Defined.

(** ** The arguments of [ps] in the later revision *)

Lemma all_bytes_app p a b : all_bytes p (a +:+ b) = all_bytes p a && all_bytes p b.
Proof. induction a as [|c a IH]; simpl; [done|]. by rewrite IH, andb_assoc. Qed.

Lemma IndexByte_None s c :
  IndexByte s c = None -> free_of (fun a => Ascii.eqb a c) s = true.
Proof.
  unfold free_of. induction s as [|a s IH]; simpl; [done|].
  destruct (Ascii.eqb a c); [done|]. simpl.
  destruct (IndexByte s c); [done|]. intros _. by apply IH.
Qed.

(** Cutting at the first [ch]: the two parts make up the string, and the
    first part has no [ch]. *)
Lemma cut_at_Some ch s a b :
  Rev2.cut_at ch s = Some (a, b) ->
  s = a +:+ String ch b /\ free_of (fun c => Ascii.eqb c ch) a = true.
Proof.
  unfold Rev2.cut_at, free_of. revert a b. induction s as [|c s IH]; intros a b; [done|].
  cbn [IndexByte].
  destruct (Ascii.eqb_spec c ch) as [->|Hne].
  - simpl. intros [= <- <-]. unfold slice. simpl. by rewrite Nat.sub_0_r, substring_all.
  - destruct (IndexByte s ch) as [i|] eqn:Hi; [|done]. simpl. intros [= <- <-].
    destruct (IH (slice s 0 i) (slice s (S i) (String.length s))) as [Hs Hfree]; [done|].
    unfold slice in *. simpl. rewrite Nat.sub_0_r in *.
    split; [by rewrite <- Hs|].
    rewrite Hfree. by destruct (Ascii.eqb_spec c ch).
Qed.

Lemma column_name_title_free col :
  free_of is_colon (column_name_title col).1 = true /\
  free_of is_colon (column_name_title col).2 = true.
Proof.
  unfold column_name_title.
  assert (Hc : free_of is_colon
            (match Rev2.cut_at ":" col with Some (c', _) => c' | None => col end) = true).
  { destruct (Rev2.cut_at ":" col) as [[c' w]|] eqn:Hcut.
    - by apply cut_at_Some in Hcut as [_ ?].
    - unfold Rev2.cut_at in Hcut. destruct (IndexByte col ":") eqn:Hi; [done|].
      by apply IndexByte_None. }
  destruct (Rev2.cut_at "=" _) as [[name title]|] eqn:Hcut; [|done].
  apply cut_at_Some in Hcut as [Heq _]. rewrite Heq in Hc. unfold free_of in *.
  rewrite all_bytes_app in Hc. simpl in Hc.
  by apply andb_true_iff in Hc as [? ?].
Qed.

Lemma column_spec_free col : free_of is_colon (column_spec col) = true.
Proof.
  unfold column_spec. pose proof (column_name_title_free col) as [Hn Ht].
  destruct (column_name_title col) as [name title]. simpl in *.
  destruct (0 <? String.length title)%nat; [|done].
  unfold free_of in *. rewrite all_bytes_app. simpl. by rewrite Hn, Ht.
Qed.

Lemma cmd_spec_free col : free_of is_colon (cmd_spec col) = true.
Proof.
  unfold cmd_spec. pose proof (column_name_title_free col) as [Hn Ht].
  destruct (column_name_title col) as [name title]. simpl in *.
  destruct (0 <? String.length title)%nat; [|done].
  unfold free_of in *. by simpl.
Qed.

(** X17. No argument that the later revision passes to [ps] has a colon: a
    width given with a column never reaches [ps]. *)
Theorem makePsCommand_no_width (range : gset string -> list string) (columns : list string) :
  range_set_ok range ->
  Forall (fun arg => free_of is_colon arg = true) (Rev2.makePsCommand range columns).
Proof.
  intros Hrange. destruct (decide (columns = [])) as [->|Hne].
  { by repeat constructor. }
  destruct (Rev2_Command.makePsCommand_columns_rev2 range columns Hrange Hne)
    as (others & _ & Hothers & ->).
  apply Forall_app. split; [by repeat constructor|]. apply Forall_app. split.
  - unfold o_options. apply Forall_forall. intros arg Harg.
    apply list_elem_of_In, in_flat_map in Harg as (c & Hc & Harg).
    apply list_elem_of_In, Hothers in Hc as (col & _ & <- & _).
    destruct Harg as [<-|[<-|[]]]; [done|]. apply column_spec_free.
  - destruct (requested_cmd columns) as [c|] eqn:Hreq; [|constructor].
    unfold requested_cmd in Hreq. apply last_Some_elem_of in Hreq.
    apply list_elem_of_fmap in Hreq as (col & -> & _).
    repeat constructor. apply cmd_spec_free.
Qed.

Lemma makePsCommand_no_width_witness :
  Forall (fun arg => free_of is_colon arg = true)
    (Rev2.makePsCommand elements ["%cpu:5"; "user:10=WHO"; "args:80"]).
Proof. apply (makePsCommand_no_width elements). by intros X. Defined.

(** ** The fields of a row *)

Lemma free_of_app p a b : free_of p (a +:+ b) = free_of p a && free_of p b.
Proof. apply all_bytes_app. Qed.

Lemma split_go_length n : forall in_run cur s, (0 < List.length (split_go n in_run cur s))%nat.
Proof.
  intros in_run cur s. revert n in_run cur.
  induction s as [|a r IH]; intros n in_run cur; simpl; [lia|].
  destruct (is_re_space a), in_run; simpl; try apply IH; try lia.
  destruct (n =? 1)%nat; [simpl; lia | apply IH].
Qed.

(** The pieces before the last one have no white space, and are not empty
    when the piece in progress is not. *)
Lemma split_go_pieces s : forall n in_run cur i p,
  free_of is_re_space cur = true ->
  split_go n in_run cur s !! i = Some p ->
  (S i < List.length (split_go n in_run cur s))%nat ->
  free_of is_re_space p = true /\ ((in_run = false -> cur <> "") -> p <> "").
Proof.
  induction s as [|a r IH]; intros n in_run cur i p Hcur Hp Hi; simpl in *; [lia|].
  destruct (is_re_space a) eqn:Ha.
  - destruct in_run.
    + destruct (IH n true "" i p eq_refl Hp Hi) as [Hfree Hne]. split; [done|].
      intros _. by apply Hne.
    + destruct i as [|i]; simpl in *.
      * injection Hp as <-. split; [done|]. intros H. by apply H.
      * destruct (IH (n - 1)%nat true "" i p eq_refl Hp ltac:(lia)) as [Hfree Hne].
        split; [done|]. intros _. by apply Hne.
  - destruct in_run.
    + destruct (n =? 1)%nat; [simpl in Hi; lia|].
      destruct (IH n false (String a "") i p) as [Hfree Hne]; [|done|done|].
      { unfold free_of. simpl. by rewrite Ha. }
      split; [done|]. intros _. by apply Hne.
    + destruct (IH n false (cur +:+ String a "") i p) as [Hfree Hne]; [|done|done|].
      { rewrite free_of_app, Hcur. unfold free_of. simpl. by rewrite Ha. }
      split; [done|]. intros _. apply Hne. intros _. by destruct cur.
Qed.

(** X18. The fields that [psParser.read] gets from [wsRe.Split]: every field
    but the last is free of white space, and no field but the first and the
    last is empty; the first is empty only when the line starts with white
    space. *)
Theorem Split_fields (s : string) (n i : nat) (p : string) :
  Split s n !! i = Some p ->
  (S i < List.length (Split s n))%nat ->
  free_of is_re_space p = true /\
  ((0 < i)%nat \/ starts_with is_re_space s = false -> p <> "").
Proof.
  rewrite Split_split_ws. unfold split_ws.
  destruct (Nat.eqb_spec n 0); [done|]. destruct (Nat.eqb_spec n 1); [simpl; lia|].
  intros Hp Hi.
  split; [by apply (split_go_pieces s n false "" i)|].
  destruct s as [|a r]; [simpl in Hi; lia|]. simpl in *.
  destruct (is_re_space a) eqn:Ha.
  - intros [Hpos|?]; [|done]. destruct i as [|i]; [lia|]. simpl in *.
    apply (split_go_pieces r (n - 1) true "" i); [done | done | lia | done].
  - intros _. apply (split_go_pieces r n false (String a "") i); [|done|done|done].
    unfold free_of. simpl. by rewrite Ha.
Qed.

Lemma Split_fields_witness :
  free_of is_re_space "42" = true /\
  ((0 < 1)%nat \/ starts_with is_re_space "1  42   /bin/sh -c ls" = false -> "42" <> "").
Proof.
  apply (Split_fields "1  42   /bin/sh -c ls" 3 1 "42"); [reflexivity | simpl; lia].
Defined.

(** ** The numbers that getPid returns *)

(** X19. A number that [getPid] returns is the value of the field, which is a
    base-10 integer literal, and it is a non-negative Go [int]. *)
Theorem getPid_Ok (stats : Record) (key : string) (v : Z) :
  getPid stats key = Ok v ->
  exists str, stats !! key = Some str /\ int_literal str = Some v /\
    0 <= v < 2 ^ (intSize - 1).
Proof.
  unfold getPid, index. intros H.
  destruct (stats !! key) as [str|]; [|done]. simpl in H.
  destruct (String.length str =? 0)%nat; [done|].
  exists str. split; [done|].
  destruct (int_literal str) as [v'|] eqn:Hlit.
  - pose proof (Atoi_literal str v' Hlit) as HA. unfold in_int_range in HA.
    destruct (Atoi str) as [val [e|]] eqn:Hatoi; [done|].
    destruct (Z.ltb_spec val 0); [done|]. injection H as ->.
    destruct ((- 2 ^ (intSize - 1) <=? v') && (v' <? 2 ^ (intSize - 1))) eqn:Hr; [|done].
    injection HA as ->. apply andb_true_iff in Hr as [_ Hr]. split; [done|]. lia.
  - destruct (Atoi_not_literal str Hlit) as [e He].
    destruct (Atoi str) as [val err]. simpl in He. by subst err.
Qed.

Lemma getPid_Ok_witness :
  exists str, ({[ "PID" := "42" ]} : Record) !! "PID" = Some str /\
    int_literal str = Some 42 /\ 0 <= 42 < 2 ^ (intSize - 1).
Proof. apply (getPid_Ok {[ "PID" := "42" ]} "PID" 42). reflexivity. Defined.

(** ** The values of the records *)

Lemma mark_spaces_unmarked s : forall pending a,
  (a, false) ∈ mark_spaces s pending -> is_re_space a = false.
Proof.
  induction s as [|c r IH]; intros pending a Ha; [by apply elem_of_nil in Ha|].
  cbn [mark_spaces] in Ha. destruct pending as [|p].
  - destruct (space_width (String c r)) as [|w] eqn:Hw.
    + apply elem_of_cons in Ha as [[= ->]|Ha]; [|by eapply IH].
      unfold space_width in Hw. cbn [list_ascii_of_string List.map] in Hw.
      unfold is_re_space.
      destruct (((9 <=? byte_code c) && (byte_code c <=? 13)) || (byte_code c =? 32)) eqn:Hc;
        [done|].
      apply orb_false_iff in Hc as [Hc1 Hc2]. apply Z.eqb_neq in Hc2.
      apply andb_false_iff in Hc1.
      repeat (apply orb_false_iff; split); apply Z.eqb_neq;
        destruct Hc1 as [?%Z.leb_gt|?%Z.leb_gt]; lia.
    + apply elem_of_cons in Ha as [[=]|Ha]. by eapply IH.
  - apply elem_of_cons in Ha as [[=]|Ha]. by eapply IH.
Qed.

Lemma drop_marked_head l :
  drop_marked l = [] \/ exists a l', drop_marked l = (a, false) :: l'.
Proof.
  induction l as [|[a []] l IH]; simpl; [by left | done | right; by eexists _, _].
Qed.

Lemma drop_marked_subseteq l : drop_marked l ⊆ l.
Proof.
  induction l as [|[a []] l IH]; simpl; [done | | done].
  intros x Hx. by apply list_elem_of_further, IH.
Qed.

Lemma drop_marked_snoc l a :
  drop_marked (l ++ [(a, false)]) = drop_marked l ++ [(a, false)].
Proof. induction l as [|[b []] l IH]; simpl; done. Qed.

(** What is left of the marked bytes after trimming at both ends: nothing,
    or a list that starts and ends with a byte that is not marked. *)
Lemma trim_ends l :
  let t := rev (drop_marked (rev (drop_marked l))) in
  t ⊆ l /\
  (t = [] \/ exists a b t1 t2, t = (a, false) :: t1 /\ t = t2 ++ [(b, false)]).
Proof.
  intros t. split.
  - intros x Hx. apply drop_marked_subseteq. unfold t in Hx.
    apply list_elem_of_In, in_rev, list_elem_of_In, drop_marked_subseteq in Hx.
    by apply list_elem_of_In, in_rev, list_elem_of_In in Hx.
  - unfold t. destruct (drop_marked_head l) as [->|(a & l1 & ->)]; [by left|]. right.
    cbn [rev]. rewrite drop_marked_snoc, rev_app_distr. cbn [rev app].
    destruct (drop_marked_head (rev l1)) as [->|(b & l2 & ->)].
    + by exists a, a, [], [].
    + exists a, b, (rev l2 ++ [(b, false)]), ((a, false) :: rev l2). by simpl.
Qed.

Lemma ends_with_snoc p l b :
  ends_with p (string_of_list_ascii (l ++ [b])) = p b.
Proof.
  induction l as [|a l IH]; [done|]. cbn [app string_of_list_ascii ends_with].
  rewrite IH. by destruct l.
Qed.

(** A line that [strings.TrimSpace] returns is empty, or starts and ends
    with a byte that is no white space. *)
Lemma TrimSpace_ends s :
  TrimSpace s = "" \/
  starts_with is_re_space (TrimSpace s) = false /\ ends_with is_re_space (TrimSpace s) = false.
Proof.
  unfold TrimSpace.
  destruct (trim_ends (mark_spaces s 0)) as [Hsub [->|(a & b & t1 & t2 & H1 & H2)]];
    [by left|].
  right. split.
  - rewrite H1. simpl. apply (mark_spaces_unmarked s 0). apply Hsub. rewrite H1.
    apply list_elem_of_here.
  - rewrite H2. rewrite map_app. cbn [List.map fst]. rewrite ends_with_snoc.
    apply (mark_spaces_unmarked s 0). apply Hsub. rewrite H2.
    apply elem_of_app. right. apply list_elem_of_here.
Qed.

Lemma nonEmptyLines_trimmed lines line :
  line ∈ nonEmptyLines lines ->
  line <> "" /\ starts_with is_re_space line = false /\ ends_with is_re_space line = false.
Proof.
  unfold nonEmptyLines. intros [Hin Hne]%list_elem_of_In%filter_In.
  apply in_map_iff in Hin as (s & <- & _).
  destruct (TrimSpace_ends s) as [Hs|Hs]; [by rewrite Hs in Hne|].
  split; [|done]. intros Hs'. by rewrite Hs' in Hne.
Qed.

Lemma split_go_last s : forall n in_run cur p,
  (in_run = false -> cur <> "") ->
  (s = "" -> in_run = false) ->
  ends_with is_re_space s = false ->
  last (split_go n in_run cur s) = Some p -> p <> "".
Proof.
  induction s as [|a r IH]; intros n in_run cur p Hcur Hrun Hend; simpl.
  { intros [= <-]. by apply Hcur, Hrun. }
  assert (Hr : ends_with is_re_space r = false).
  { simpl in Hend. by destruct r. }
  destruct (is_re_space a) eqn:Ha.
  - assert (Hne : r <> "").
    { intros ->. simpl in Hend. congruence. }
    destruct in_run.
    + by apply IH.
    + pose proof (split_go_length (n - 1) true "" r) as Hlen.
      destruct (split_go (n - 1) true "" r) as [|x l] eqn:Hgo; [simpl in Hlen; lia|].
      rewrite last_cons_cons. rewrite <- Hgo. by apply IH.
  - destruct in_run.
    + destruct (n =? 1)%nat; [by intros [= <-]|]. by apply IH.
    + apply IH; [|done|done]. intros _. by destruct cur.
Qed.

(** The fields of a line that is not empty and neither starts nor ends with
    white space: none is empty. *)
Lemma Split_nonempty s n :
  s <> "" -> starts_with is_re_space s = false -> ends_with is_re_space s = false ->
  Forall (fun p => p <> "") (Split s n).
Proof.
  intros Hne Hstart Hend. rewrite Split_split_ws. unfold split_ws.
  destruct (Nat.eqb_spec n 0); [constructor|].
  destruct (Nat.eqb_spec n 1); [by repeat constructor|].
  apply Forall_lookup. intros i p Hp.
  destruct (decide (S i < List.length (split_go n false "" s))%nat) as [Hi|Hi].
  - destruct s as [|a r]; [done|]. simpl in *. rewrite Hstart in *.
    apply (split_go_pieces r n false (String a "") i p); [|done|done|done].
    unfold free_of. simpl. by rewrite Hstart.
  - assert (Hlast : last (split_go n false "" s) = Some p).
    { rewrite last_lookup. rewrite <- Hp. f_equal.
      apply lookup_lt_Some in Hp. lia. }
    destruct s as [|a r]; [done|]. simpl in *. rewrite Hstart in *.
    apply (split_go_last r n false (String a "") p); [done | done | | done].
    by destruct r.
Qed.

Lemma fill_values (P : string -> Prop) hdr : forall fields (m : Record),
  Forall P fields -> map_Forall (fun _ v => P v) m ->
  map_Forall (fun _ v => P v) (fill hdr fields m).
Proof.
  induction hdr as [|t hdr IH]; intros fields m Hf Hm; [done|].
  destruct fields as [|f fields]; [done|]. simpl.
  apply Forall_cons in Hf as [Hf Hfs]. apply IH; [done|].
  by apply map_Forall_insert_2.
Qed.

Lemma fill_is_Some hdr : forall fields (m : Record) key,
  List.length fields = List.length hdr ->
  is_Some (fill hdr fields m !! key) <-> key ∈ hdr \/ is_Some (m !! key).
Proof.
  induction hdr as [|t hdr IH]; intros fields m key Hlen.
  - simpl. split; [by right|]. intros [H|H]; [by apply elem_of_nil in H | done].
  - destruct fields as [|f fields]; [done|]. simpl in *.
    rewrite IH by lia. rewrite elem_of_cons.
    destruct (decide (t = key)) as [->|Hne].
    + rewrite lookup_insert_eq. split; [by left; left | by right].
    + rewrite lookup_insert_ne by done. split.
      * intros [?|?]; [left; by right | by right].
      * intros [[?|?]|?]; [congruence | by left | by right].
Qed.

Lemma feed_read_Ok rows : forall p p',
  feed fn_read p rows = Ok p' ->
  header p' = header p /\
  stats p' = stats p ++
    List.map (fun row => fill (header p) (Split row (List.length (header p))) ∅) rows /\
  Forall (row_ok (List.length (header p))) rows.
Proof.
  induction rows as [|row rows IH]; intros p p' H.
  - simpl in H. injection H as <-. by rewrite app_nil_r.
  - cbn [feed call] in H.
    destruct (decide (List.length (Split row (List.length (header p)))
                      = List.length (header p))) as [Hrow|Hrow].
    + rewrite (psParser_read_ok p row Hrow) in H. cbn [mbind result_bind] in H.
      apply IH in H as (Hh & Hs & Hrows). simpl in *.
      split; [done|]. split; [by rewrite Hs, <- app_assoc | by constructor].
    + by rewrite (psParser_read_bad p row Hrow) in H.
Qed.

Lemma Parse_Ok lines fail p :
  Parse lines fail = Ok p ->
  (lines = [] /\ p = mkParser [] []) \/
  exists hdr rows,
    lines = hdr :: rows /\ (2 <= List.length (Fields hdr))%nat /\
    header p = Fields hdr /\
    stats p = List.map (fun row => fill (Fields hdr) (Split row (List.length (Fields hdr))) ∅) rows /\
    Forall (row_ok (List.length (Fields hdr))) rows.
Proof.
  unfold Parse. intros H.
  destruct (feed fn_Enter (mkParser [] []) lines) as [p0|] eqn:Hfeed; [|done].
  cbn [mbind result_bind] in H. destruct fail; [done|]. injection H as <-.
  destruct lines as [|hdr rows]; [left; by injection Hfeed as <-|]. right.
  assert (Hlen : (2 <= List.length (Fields hdr))%nat).
  { cbn [feed call] in Hfeed. unfold psParser_Enter in Hfeed.
    by destruct (Nat.ltb_spec (List.length (Fields hdr)) 2). }
  rewrite feed_Enter in Hfeed by done.
  apply feed_read_Ok in Hfeed as (Hh & Hs & Hrows). simpl in *.
  by exists hdr, rows.
Qed.

(** X20. In the records that [pstree] gets from the parser no value is empty,
    and every record has a value for every title of the header and for nothing
    else: so [getPid] reports a missing field for exactly the keys that are no
    title of the header. *)
Theorem Parse_no_empty_value (lines : list string) (fail : option source_error)
    (p : psParser) (r : Record) :
  Parse (nonEmptyLines lines) fail = Ok p ->
  r ∈ stats p ->
  (forall key v, r !! key = Some v -> v <> "") /\
  (forall key, is_Some (r !! key) <-> key ∈ header p) /\
  (forall key, getPid r key = Err (MissingFieldError key) <-> key ∉ header p).
Proof.
  intros HP Hr.
  apply Parse_Ok in HP as [[_ ->]|(hdr & rows & Hlines & Hlen & Hh & Hs & Hrows)].
  { by apply elem_of_nil in Hr. }
  rewrite Hs in Hr. apply list_elem_of_In, in_map_iff in Hr as (row & <- & Hrow).
  rewrite Hh.
  assert (Htrim : row ∈ nonEmptyLines lines).
  { rewrite Hlines. by apply list_elem_of_further, list_elem_of_In. }
  apply nonEmptyLines_trimmed in Htrim as (Hne & Hstart & Hend).
  rewrite Forall_forall in Hrows.
  pose proof (Hrows row (proj2 (list_elem_of_In _ _) Hrow)) as Hok. unfold row_ok in Hok.
  set (h := List.length (Fields hdr)) in *.
  assert (Hval : forall key v, fill (Fields hdr) (Split row h) ∅ !! key = Some v -> v <> "").
  { intros key v. apply (fill_values (fun v => v <> "")); [by apply Split_nonempty|].
    apply map_Forall_empty. }
  assert (Hdom : forall key, is_Some (fill (Fields hdr) (Split row h) ∅ !! key) <->
                             key ∈ Fields hdr).
  { intros key. rewrite fill_is_Some by done. rewrite lookup_empty.
    split; [intros [?|[? ?]]; done | by left]. }
  split; [done|]. split; [done|].
  intros key. rewrite <- Hdom. unfold getPid, index.
  destruct (fill (Fields hdr) (Split row h) ∅ !! key) as [v|] eqn:Hv; simpl.
  - pose proof (Hval key v Hv) as Hv'.
    destruct v as [|c v]; [done|]. cbn [String.length Nat.eqb].
    split; [|intros []; by eexists].
    destruct (Atoi (String c v)) as [val [e|]]; [done|]. by destruct (val <? 0).
  - split; [|done]. intros _ [? ?]. done.
Qed.

Lemma Parse_no_empty_value_witness :
  (forall key v, init_record !! key = Some v -> v <> "") /\
  (forall key, is_Some (init_record !! key) <->
               key ∈ ["PID"; "PPID"; "%CPU"; "%MEM"; "CMD"]) /\
  (forall key, getPid init_record key = Err (MissingFieldError key) <->
               key ∉ ["PID"; "PPID"; "%CPU"; "%MEM"; "CMD"]).
Proof.
  apply (Parse_no_empty_value ["  PID PPID %CPU %MEM CMD"; ""; "1 0 0.1 0.2 /sbin/init  "]
           None (mkParser ["PID"; "PPID"; "%CPU"; "%MEM"; "CMD"] [init_record])).
  - by vm_compute.
  - apply list_elem_of_here.
Defined.

(** ** The titles of the header *)

Lemma free_of_list p l :
  Forall (fun a => p a = false) l -> free_of p (string_of_list_ascii l) = true.
Proof.
  unfold free_of. induction 1 as [|a l Ha _ IH]; simpl; [done|]. by rewrite Ha, IH.
Qed.

Lemma fields_loop_fields l : forall cur,
  Forall (fun x => x.2 = false -> is_re_space x.1 = false) l ->
  Forall (fun a => is_re_space a = false) cur ->
  Forall (fun f => f <> "" /\ free_of is_re_space f = true) (fields_loop l cur).
Proof.
  assert (Hfield : forall cur, cur <> [] -> Forall (fun a => is_re_space a = false) cur ->
            string_of_list_ascii (rev cur) <> "" /\
            free_of is_re_space (string_of_list_ascii (rev cur)) = true).
  { intros cur Hne Hcur. split.
    - intros H. apply (f_equal list_ascii_of_string) in H.
      rewrite list_ascii_of_string_of_list_ascii in H. simpl in H.
      apply (f_equal (@rev ascii)) in H. rewrite rev_involutive in H. done.
    - apply free_of_list. rewrite rev_alt. by apply Forall_reverse. }
  induction l as [|[a m] l IH]; intros cur Hl Hcur; simpl.
  - destruct cur; [constructor|]. constructor; [by apply Hfield | constructor].
  - apply Forall_cons in Hl as [Ha Hl]. destruct m.
    + destruct cur; [by apply IH|].
      constructor; [by apply Hfield | by apply IH].
    + apply IH; [done|]. constructor; [by apply Ha | done].
Qed.

(** X21. A header line that [Enter] accepts has two titles or more; no title
    is empty or has white space in it, and no record is there yet. *)
Theorem Enter_titles (p p' : psParser) (line : string) (fn : ParserFunc) :
  psParser_Enter p line = Ok (fn, p') ->
  fn = fn_read /\ stats p' = [] /\ header p' = Fields line /\
  (2 <= List.length (header p'))%nat /\
  Forall (fun title => title <> "" /\ free_of is_re_space title = true) (header p').
Proof.
  unfold psParser_Enter.
  destruct (Nat.ltb_spec (List.length (Fields line)) 2) as [|Hlen]; [done|].
  intros [= <- <-]. simpl. repeat split; try done.
  unfold Fields. apply fields_loop_fields; [|constructor].
  apply Forall_forall. intros [a []] Ha; [done|]. intros _.
  by apply (mark_spaces_unmarked line 0).
Qed.

Lemma Enter_titles_witness :
  fn_read = fn_read /\ stats (mkParser ["PID"; "PPID"; "CMD"] []) = [] /\
  header (mkParser ["PID"; "PPID"; "CMD"] []) = Fields "PID  PPID CMD" /\
  (2 <= List.length (header (mkParser ["PID"; "PPID"; "CMD"] [])))%nat /\
  Forall (fun title => title <> "" /\ free_of is_re_space title = true)
    (header (mkParser ["PID"; "PPID"; "CMD"] [])).
Proof.
  apply (Enter_titles (mkParser [] []) (mkParser ["PID"; "PPID"; "CMD"] []) "PID  PPID CMD").
  reflexivity.
Defined.
